(** * The Electrode application generator

    A shallow embedding of
    [packages/generator-electrode/generators/app/index.js]: the Yeoman
    generator that gathers a configuration from the existing
    [package.json], the command line, the files already in the destination
    and the interactive prompts, and then writes the manifest and the
    template trees.

    The embedding follows the phases of the generator ([initializing],
    [prompting.askFor], [prompting.askForGithubAccount], [default],
    [writing], [install], [end]) as functions on an explicit generator
    state.  JavaScript values are a small JSON-like datatype,
    objects are association lists in insertion order, and the library
    calls the generator makes ([_.merge], [_.defaultsDeep], [_.uniq],
    [_.pick], [_.isEmpty], ...) are modelled on that datatype. *)

From Stdlib Require Import String Ascii List ZArith Bool Arith Lia.
From Stdlib Require Import Permutation Sorted DecimalString DecimalNat.
Import ListNotations.

Local Open Scope string_scope.
Local Open Scope list_scope.

Set Warnings "-register-all".

(** ** JavaScript values *)

Module JS.

(** The values a parsed JSON document and the generator's own records can
    hold.  [VUndef] is [undefined]; numbers are the integers ([NaN] and
    fractions do not occur in the fields the generator inspects).  A
    string is the list of its code units, one character of [string] per
    code unit: the strings held are those whose code units are below
    256.  An object keeps its properties in insertion order. *)
Inductive value : Type :=
| VUndef : value
| VNull : value
| VBool : bool -> value
| VNum : Z -> value
| VStr : string -> value
| VArr : list value -> value
| VObj : list (string * value) -> value.

Definition obj : Type := list (string * value).

(** ToBoolean. *)
Definition truthy (v : value) : bool :=
  match v with
  | VUndef | VNull => false
  | VBool b => b
  | VNum n => negb (Z.eqb n 0)
  | VStr s => negb (String.eqb s "")
  | VArr _ | VObj _ => true
  end.

(** [a || b]. *)
Definition js_or (a b : value) : value := if truthy a then a else b.

(** [v === undefined]. *)
Definition is_undefined (v : value) : bool :=
  match v with VUndef => true | _ => false end.

(** [typeof v === "object"]: [null], arrays and plain objects. *)
Definition typeof_object (v : value) : bool :=
  match v with
  | VNull | VArr _ | VObj _ => true
  | _ => false
  end.

(** *** Own properties of an object *)

Fixpoint lookup (k : string) (o : obj) : option value :=
  match o with
  | [] => None
  | (k', v) :: o' => if String.eqb k k' then Some v else lookup k o'
  end.

(** [o[k]] on a plain object. *)
Definition get (k : string) (o : obj) : value :=
  match lookup k o with Some v => v | None => VUndef end.

(** [k in o]. *)
Definition has (k : string) (o : obj) : bool :=
  match lookup k o with Some _ => true | None => false end.

(** [o[k] = v]: an existing property keeps its place, a new one is added
    last. *)
Fixpoint set (k : string) (v : value) (o : obj) : obj :=
  match o with
  | [] => [(k, v)]
  | (k', v') :: o' =>
      if String.eqb k k' then (k, v) :: o' else (k', v') :: set k v o'
  end.

Definition keys (o : obj) : list string := map fst o.

(** *** Array indices as property names *)

Definition key_of_nat (n : nat) : string :=
  NilEmpty.string_of_uint (Nat.to_uint n).

(** A property name is an array index when it is the canonical decimal
    numeral of a number. *)
Definition index_of_key (k : string) : option nat :=
  match NilEmpty.uint_of_string k with
  | Some u =>
      let n := Nat.of_uint u in
      if String.eqb (key_of_nat n) k then Some n else None
  | None => None
  end.

Definition is_index (k : string) : bool :=
  match index_of_key k with Some _ => true | None => false end.

Fixpoint list_set (n : nat) (v : value) (xs : list value) : list value :=
  match n, xs with
  | O, [] => [v]
  | O, _ :: xs' => v :: xs'
  | S n', [] => VUndef :: list_set n' v []
  | S n', x :: xs' => x :: list_set n' v xs'
  end.

(** Property read [v[k]] on any value that is not [null] or [undefined]:
    a plain object gives its property, an array its element, anything
    else has no own JSON property. *)
Definition vget (v : value) (k : string) : value :=
  match v with
  | VObj o => get k o
  | VArr xs =>
      match index_of_key k with
      | Some n => nth n xs VUndef
      | None => VUndef
      end
  | _ => VUndef
  end.

Definition vhas (v : value) (k : string) : bool :=
  match v with
  | VObj o => has k o
  | VArr xs =>
      match index_of_key k with
      | Some n => Nat.ltb n (List.length xs)
      | None => false
      end
  | _ => false
  end.

(** Property write [v[k] = x].  A named (non-index) property written on
    an array does not show in the JSON the generator writes and is
    dropped. *)
Definition vset (v : value) (k : string) (x : value) : value :=
  match v with
  | VObj o => VObj (set k x o)
  | VArr xs =>
      match index_of_key k with
      | Some n => VArr (list_set n x xs)
      | None => VArr xs
      end
  | _ => v
  end.

(** ** The lodash functions the generator calls *)

(** [_.isObject]: arrays and objects (there are no functions here). *)
Definition isObject (v : value) : bool :=
  match v with VArr _ | VObj _ => true | _ => false end.

Definition isString (v : value) : bool :=
  match v with VStr _ => true | _ => false end.

(** [_.isEmpty]: [null] and [undefined] are empty, an array or a string
    is empty when its length is 0, an object when it has no own
    property, and every number and boolean is empty. *)
Definition isEmpty (v : value) : bool :=
  match v with
  | VUndef | VNull | VBool _ | VNum _ => true
  | VStr s => String.eqb s ""
  | VArr xs => match xs with [] => true | _ => false end
  | VObj o => match o with [] => true | _ => false end
  end.

(** SameValueZero, as [_.uniq] and [eq] use it.  Two arrays or two
    objects are the same only when they are the same reference; the
    values compared here come from distinct positions of parsed
    documents, hence are never the same reference. *)
Definition same_value (a b : value) : bool :=
  match a, b with
  | VUndef, VUndef => true
  | VNull, VNull => true
  | VBool x, VBool y => Bool.eqb x y
  | VNum x, VNum y => Z.eqb x y
  | VStr x, VStr y => String.eqb x y
  | _, _ => false
  end.

(** [_.uniq]: the first occurrence of every value, in order. *)
Fixpoint uniq_acc (seen xs : list value) : list value :=
  match xs with
  | [] => []
  | x :: xs' =>
      if existsb (same_value x) seen then uniq_acc seen xs'
      else x :: uniq_acc (x :: seen) xs'
  end.

Definition uniq (xs : list value) : list value := uniq_acc [] xs.

(** [xs.filter((x) => x)]. *)
Definition compact (xs : list value) : list value := filter truthy xs.

(** [xs.concat(v)]: an array argument is spread, any other value is
    appended. *)
Definition concat (xs : list value) (v : value) : list value :=
  match v with
  | VArr ys => xs ++ ys
  | _ => xs ++ [v]
  end.

(** [assignMergeValue(object, key, value)] of lodash: a defined value is
    written unless the same value is already there, [undefined] is
    written only where the property does not exist. *)
Definition assignMergeValue (object : value) (k : string) (v : value)
  : value :=
  if is_undefined v
  then (if vhas object k then object else vset object k v)
  else (if same_value (vget object k) v then object else vset object k v).

(** The value a deep merge starts from at a property whose source value
    [sv] is an array or an object and whose current value is [ov]:
    lodash keeps an array for an array source and any object for an
    object source, and starts from an empty one otherwise. *)
Definition merge_start (ov sv : value) : value :=
  match sv with
  | VArr _ => match ov with VArr _ => ov | _ => VArr [] end
  | _ => if isObject ov then ov else VObj []
  end.

(** The values a merge copies as they are: neither [undefined] nor an
    array or an object. *)
Definition is_scalar (v : value) : bool :=
  match v with
  | VNull | VBool _ | VNum _ | VStr _ => true
  | _ => false
  end.

(** [baseMerge(object, source, customizer)].  [deflt = false] is
    [_.merge(object, source)]; [deflt = true] is the merge that
    [_.defaultsDeep] runs with its customizer, which never replaces a
    value that is not [undefined] and recurses only where both sides are
    objects. *)
Fixpoint baseMerge (deflt : bool) (object source : value) {struct source}
  : value :=
  match source with
  | VObj kvs =>
      (fix props (kvs : list (string * value)) (object : value) : value :=
         match kvs with
         | [] => object
         | (k, sv) :: rest =>
             let ov := vget object k in
             let object' :=
               if isObject sv then
                 if deflt && negb (is_undefined ov) then
                   if isObject ov
                   then assignMergeValue object k (baseMerge deflt ov sv)
                   else object
                 else
                   assignMergeValue object k
                     (baseMerge deflt (merge_start ov sv) sv)
               else
                 if deflt && negb (is_undefined ov) then object
                 else assignMergeValue object k sv
             in props rest object'
         end) kvs object
  | VArr xs =>
      (fix elems (xs : list value) (i : nat) (object : value) : value :=
         match xs with
         | [] => object
         | sv :: rest =>
             let k := key_of_nat i in
             let ov := vget object k in
             let object' :=
               if isObject sv then
                 if deflt && negb (is_undefined ov) then
                   if isObject ov
                   then assignMergeValue object k (baseMerge deflt ov sv)
                   else object
                 else
                   assignMergeValue object k
                     (baseMerge deflt (merge_start ov sv) sv)
               else
                 if deflt && negb (is_undefined ov) then object
                 else assignMergeValue object k sv
             in elems rest (S i) object'
         end) xs O object
  | _ => object
  end.

(** One step of [baseMerge]: the property [k] of the source, of value
    [sv], merged into [object]. *)
Definition merge_prop (deflt : bool) (object : value) (ksv : string * value)
  : value :=
  let (k, sv) := ksv in
  let ov := vget object k in
  if isObject sv then
    if deflt && negb (is_undefined ov) then
      if isObject ov
      then assignMergeValue object k (baseMerge deflt ov sv)
      else object
    else
      assignMergeValue object k (baseMerge deflt (merge_start ov sv) sv)
  else
    if deflt && negb (is_undefined ov) then object
    else assignMergeValue object k sv.

Fixpoint merge_elems (deflt : bool) (xs : list value) (i : nat)
  (object : value) : value :=
  match xs with
  | [] => object
  | sv :: rest =>
      merge_elems deflt rest (S i) (merge_prop deflt object (key_of_nat i, sv))
  end.

(** [_.merge(object, source)] on plain objects. *)
Definition merge (object source : obj) : obj :=
  match baseMerge false (VObj object) (VObj source) with
  | VObj o => o
  | _ => object
  end.

(** [_.defaultsDeep(object, source)] on plain objects. *)
Definition defaultsDeep (object source : obj) : obj :=
  match baseMerge true (VObj object) (VObj source) with
  | VObj o => o
  | _ => object
  end.

(** *** Sorting property names *)

Section Insertion.
Variable A : Type.
Variable leb : A -> A -> bool.

Fixpoint insert (x : A) (l : list A) : list A :=
  match l with
  | [] => [x]
  | y :: l' => if leb x y then x :: l else y :: insert x l'
  end.

Fixpoint isort (l : list A) : list A :=
  match l with
  | [] => []
  | x :: l' => insert x (isort l')
  end.
End Insertion.
Arguments insert {A} leb x l.
Arguments isort {A} leb l.

(** [names.sort()]: the default order of [Array.prototype.sort] on
    strings, code unit by code unit. *)
Definition sort_strings (l : list string) : list string :=
  isort String.leb l.

Definition index_leb (a b : nat * (string * value)) : bool :=
  Nat.leb (fst a) (fst b).

Fixpoint index_props (o : obj) : list (nat * (string * value)) :=
  match o with
  | [] => []
  | (k, v) :: o' =>
      match index_of_key k with
      | Some n => (n, (k, v)) :: index_props o'
      | None => index_props o'
      end
  end.

Definition named_props (o : obj) : obj :=
  filter (fun kv => negb (is_index (fst kv))) o.

(** The order in which JavaScript enumerates the own properties of an
    object built by the insertions [o]: the array indices in ascending
    numeric order, then the other names in insertion order. *)
Definition own_order (o : obj) : obj :=
  map snd (isort index_leb (index_props o)) ++ named_props o.

(** [Object.keys(v)] for an array or a plain object. *)
Definition own_keys (v : value) : list string :=
  match v with
  | VObj o => keys (own_order o)
  | VArr xs => map key_of_nat (seq 0 (List.length xs))
  | _ => []
  end.

(** [_.pick(v, names)]: a new plain object with the listed properties
    that [v] has, added in the order of [names]. *)
Fixpoint pick_acc (v : value) (names : list string) (acc : obj) : obj :=
  match names with
  | [] => acc
  | k :: names' =>
      pick_acc v names' (if vhas v k then set k (vget v k) acc else acc)
  end.

Definition pick (v : value) (names : list string) : obj :=
  own_order (pick_acc v names []).

(** *** [words.split(/\s*,\s*/g)] *)

(** The code units [\s] matches, among those below 256: tab, line
    feed, vertical tab, form feed, carriage return, space and the
    no-break space U+00A0. *)
Definition is_space (c : ascii) : bool :=
  let n := nat_of_ascii c in
  (Nat.leb 9 n && Nat.leb n 13) || Nat.eqb n 32 || Nat.eqb n 160.

Definition is_comma (c : ascii) : bool := Nat.eqb (nat_of_ascii c) 44.

(** One pass over the characters.  [cur] is the segment read so far,
    [pend] the white space read after it, which belongs to the segment
    unless a comma follows; [skip] holds while the white space after a
    comma is being consumed by the separator. *)
Fixpoint split_go (s cur pend : string) (skip : bool) : list string :=
  match s with
  | EmptyString => [(cur ++ pend)%string]
  | String c s' =>
      if is_comma c then cur :: split_go s' "" "" true
      else if is_space c then
        if skip then split_go s' cur pend true
        else split_go s' cur (pend ++ String c "")%string false
      else split_go s' (cur ++ pend ++ String c "")%string "" false
  end.

Definition split_commas (s : string) : list string :=
  split_go s "" "" false.

End JS.

(** ** The generator *)

Module Generator.
Import JS.

(** *** Exceptions *)

Inductive error : Type :=
| TypeError      (* a property or method of [null] or [undefined], a
                    method the value does not have, a property set on a
                    primitive in strict mode *)
| ParseError     (* [readJSON] on a file that is not JSON *)
| Failed (message : string).    (* [new Error(message)], thrown by a
                                   library *)

Inductive outcome (A : Type) : Type :=
| Ret : A -> outcome A
| Throw : error -> outcome A.
Arguments Ret {A} _.
Arguments Throw {A} _.

Definition bind {A B : Type} (m : outcome A) (f : A -> outcome B)
  : outcome B :=
  match m with
  | Ret a => f a
  | Throw e => Throw e
  end.

Notation "x <- m ;; k" := (bind m (fun x => k))
  (at level 61, m at next level, right associativity).

Definition returns {A : Type} (m : outcome A) : bool :=
  match m with Ret _ => true | Throw _ => false end.

(** *** The state a run works on *)

Definition ExpressJS : string := "ExpressJS".
Definition HapiJS : string := "HapiJS".
Definition KoaJS : string := "KoaJS".

(** What the text of a JSON file parses to, as far as the generator
    tells the cases apart: an object, [null], or a primitive (a number,
    a string or a boolean, none of which the generator looks into).  A
    file whose JSON is an array is not represented: what [_.merge]
    copies of an array that was given named properties differs between
    the releases of lodash 4. *)
Inductive json : Type :=
| JObject (o : obj)
| JNull
| JPrimitive.

(** A file of the destination: parsed JSON, or anything else. *)
Inductive file : Type :=
| FJson : json -> file
| FOther : file.

(** The files of the destination, by path, as [this.fs] shows them.
    Directories are no entries: [this.fs.exists] is false for the path
    of a directory. *)
Definition filesystem : Type := list (string * file).

Fixpoint fs_find (p : string) (fs : filesystem) : option file :=
  match fs with
  | [] => None
  | (q, f) :: fs' => if String.eqb p q then Some f else fs_find p fs'
  end.

(** [this.fs.exists(p)]: whether a file is at [p]. *)
Definition fs_exists (fs : filesystem) (p : string) : bool :=
  match fs_find p fs with Some _ => true | None => false end.

(** [this.fs.readJSON(p, defaults)]: the defaults when the file is
    missing, an exception when it does not parse. *)
Definition readJSON (fs : filesystem) (p : string) (defaults : obj)
  : outcome json :=
  match fs_find p fs with
  | None => Ret (JObject defaults)
  | Some (FJson j) => Ret j
  | Some FOther => Throw ParseError
  end.

(** What reading the properties of a parsed file gives: those of an
    object; an exception for [null]; for a primitive, none of the
    properties the generator reads ([keywords], [name], [description],
    [version], [homepage], [author], [license]). *)
Definition properties (j : json) : outcome obj :=
  match j with
  | JObject o => Ret o
  | JNull => Throw TypeError
  | JPrimitive => Ret []
  end.

(** What properties can be set on: an object.  Reading a property of
    [null] throws first, and in strict mode setting a property on a
    primitive throws. *)
Definition assignable (j : json) : outcome obj :=
  match j with
  | JObject o => Ret o
  | JNull | JPrimitive => Throw TypeError
  end.

Fixpoint fs_write (p : string) (f : file) (fs : filesystem) : filesystem :=
  match fs with
  | [] => [(p, f)]
  | (q, g) :: fs' =>
      if String.eqb p q then (p, f) :: fs' else (q, g) :: fs_write p f fs'
  end.

(** The options of the command line, as the constructor declares them. *)
Record cli : Type := {
  opt_travis : bool;
  opt_license : bool;
  opt_name : option string;
  opt_githubAccount : option string;
  opt_projectRoot : string;
  opt_readme : option string
}.

Definition opt_value (o : option string) : value :=
  match o with Some s => VStr s | None => VUndef end.

(** What a run does to the outside, in order. *)
Inductive event : Type :=
| Prompted (names : list string)
| Relocated (newRoot : string)
| ConfigSet (root key : string) (v : value)
| CopyTpl (from to : string) (ignore : list string)
| Deleted (path : string)
| WroteJSON (path : string) (content : obj)
| Moved (from to : string)
| Copied (from to : string)
| Installed
| Spawned (command : string) (args : list string)
| Logged (message : string).

(** The generator object: the destination's files, the destination root,
    the template root, the options, the properties of [this.pkg],
    [this.props], the stored configuration (one store per destination
    root, since [destinationRoot] re-opens [this.config] under the new
    root) and the trace of effects.  The store is kept apart from the
    files: its own file, [.yo-rc.json], is none of those the generator
    probes or reads. *)
Record gen : Type := {
  fs : filesystem;
  root : string;
  templates : string;
  options : cli;
  pkg : obj;
  props : obj;
  config : list (string * obj);
  log : list event
}.

Definition with_pkg (g : gen) (o : obj) : gen :=
  {| fs := fs g; root := root g; templates := templates g;
     options := options g; pkg := o; props := props g;
     config := config g; log := log g |}.

Definition with_props (g : gen) (o : obj) : gen :=
  {| fs := fs g; root := root g; templates := templates g;
     options := options g; pkg := pkg g; props := o;
     config := config g; log := log g |}.

Definition with_fs (g : gen) (files : filesystem) : gen :=
  {| fs := files; root := root g; templates := templates g;
     options := options g; pkg := pkg g; props := props g;
     config := config g; log := log g |}.

Definition emit (e : event) (g : gen) : gen :=
  {| fs := fs g; root := root g; templates := templates g;
     options := options g; pkg := pkg g; props := props g;
     config := config g; log := log g ++ [e] |}.

(** [this.destinationPath()] and [this.destinationPath(p)]. *)
Definition destinationPath (g : gen) (p : string) : string :=
  (root g ++ "/" ++ p)%string.

Definition templatePath (g : gen) (p : string) : string :=
  (templates g ++ "/" ++ p)%string.

(** [this.destinationRoot(newRoot)]: the root becomes [newRoot] as
    [path.resolve] gives it, which is the directory created and moved
    to. *)
Definition destinationRoot (path_resolve : string -> string)
           (newRoot : string) (g : gen) : gen :=
  emit (Relocated (path_resolve newRoot))
    {| fs := fs g; root := path_resolve newRoot; templates := templates g;
       options := options g; pkg := pkg g; props := props g;
       config := config g; log := log g |}.

Fixpoint store_find (r : string) (c : list (string * obj)) : obj :=
  match c with
  | [] => []
  | (r', o) :: c' => if String.eqb r r' then o else store_find r c'
  end.

Fixpoint store_update (r k : string) (v : value) (c : list (string * obj))
  : list (string * obj) :=
  match c with
  | [] => [(r, [(k, v)])]
  | (r', o) :: c' =>
      if String.eqb r r' then (r', set k v o) :: c'
      else (r', o) :: store_update r k v c'
  end.

(** [this.config.get(k)] and [this.config.set(k, v)]: the store of the
    current destination root. *)
Definition config_get (g : gen) (k : string) : value :=
  get k (store_find (root g) (config g)).

Definition config_set (k : string) (v : value) (g : gen) : gen :=
  emit (ConfigSet (root g) k v)
    {| fs := fs g; root := root g; templates := templates g;
       options := options g; pkg := pkg g; props := props g;
       config := store_update (root g) k v (config g); log := log g |}.

(** [this.fs.writeJSON(this.destinationPath(p), o)]. *)
Definition writeJSON (p : string) (o : obj) (g : gen) : gen :=
  emit (WroteJSON (destinationPath g p) o)
    {| fs := fs_write (destinationPath g p) (FJson (JObject o)) (fs g);
       root := root g;
       templates := templates g; options := options g; pkg := pkg g;
       props := props g; config := config g; log := log g |}.

(** [this.fs.copyTpl(this.templatePath(from), this.destinationPath(to),
    context, {}, {globOptions: {ignore}})]. *)
Definition copyTpl (from to : string) (ignore : list string) (g : gen)
  : gen :=
  emit (CopyTpl (templatePath g from) (destinationPath g to) ignore) g.

(** [this.fs.delete(this.destinationPath(p))]. *)
Definition delete (p : string) (g : gen) : gen :=
  emit (Deleted (destinationPath g p)) g.

(** [this.fs.move(this.destinationPath(from), this.destinationPath(to))]. *)
Definition move (from to : string) (g : gen) : gen :=
  emit (Moved (destinationPath g from) (destinationPath g to)) g.

(** [this.fs.copy(this.templatePath(from), this.destinationPath(to))]. *)
Definition copy (from to : string) (g : gen) : gen :=
  emit (Copied (templatePath g from) (destinationPath g to)) g.

(** What does not change along the file operations of [writing]. *)
Definition same_frame (g g' : gen) : Prop :=
  root g' = root g /\ templates g' = templates g /\ config g' = config g
  /\ props g' = props g /\ options g' = options g.

(** [v === s] for a string literal [s]. *)
Definition is_string (s : string) (v : value) : bool :=
  match v with VStr s' => String.eqb s' s | _ => false end.

(** *** Ignore patterns of a template copy *)

(** The two server entry files the generator names. *)
Definition express_entry : string := "src/server/express-server.js".
Definition koa_entry : string := "src/server/koa-server.js".

Fixpoint ends_with (suffix s : string) : bool :=
  String.eqb suffix s
  || match s with
     | EmptyString => false
     | String _ s' => ends_with suffix s'
     end.

(** Whether a glob pattern of the form [**/literal] (the only form
    [ignoreArray] holds) matches a path: the literal is the whole path
    or its last segments. *)
Definition glob_ignores (pattern path : string) : bool :=
  match pattern with
  | String "*" (String "*" (String "/" literal)) =>
      String.eqb literal path || ends_with ("/" ++ literal) path
  | _ => String.eqb pattern path
  end.

(** The glob patterns kept out of the [src/server] copy. *)
Definition ignoreArray (isHapi isExpress : bool) : list string :=
  if isHapi then
    ["**/src/server/express-server.js"; "**/src/server/koa-server.js"]
  else if isExpress then ["**/src/server/koa-server.js"]
  else ["**/src/server/express-server.js"].

(** The rule set [writing] computes from the stored server type. *)
Definition ignore_of (serverType : value) : list string :=
  ignoreArray (is_string HapiJS serverType)
              (is_string ExpressJS serverType).

Definition ignored (ignore : list string) (path : string) : bool :=
  existsb (fun pattern => glob_ignores pattern path) ignore.

(** The files of a template tree that a copy with [globOptions.ignore]
    renders. *)
Definition copied (ignore tree : list string) : list string :=
  filter (fun path => negb (ignored ignore path)) tree.

(** The path an effect puts a file or a tree at, if it puts one. *)
Definition put_at (e : event) : option string :=
  match e with
  | CopyTpl _ to _ | Moved _ to | Copied _ to | WroteJSON to _ => Some to
  | _ => None
  end.

(** The formatting ruleset files among the paths a trace puts
    something at: the paths whose last segment is [.eslintrc]. *)
Definition rulesets_put (l : list event) : list string :=
  filter (ends_with "/.eslintrc")
         (flat_map (fun e => match put_at e with
                             | Some p => [p]
                             | None => []
                             end) l).

Definition spawned (l : list event) : list event :=
  filter (fun e => match e with Spawned _ _ => true | _ => false end) l.

Definition eslint_fix : event :=
  Spawned "node_modules/.bin/eslint"
    ["--fix"; "src"; "test"; "config"; "--ext"; ".js,.jsx"].

(** *** The questions *)

Definition double_quote : string := String (ascii_of_nat 34) "".
Definition single_quote : string := "'".
Definition nl : string := String (ascii_of_nat 10) "".

(** What the user answers to each question, should it be asked. *)
Record user : Type := {
  ans_name : string;
  ans_description : string;
  ans_homepage : string;
  ans_serverType : string;
  ans_authorName : string;
  ans_authorEmail : string;
  ans_authorUrl : string;
  ans_keywords : string;
  ans_pwa : bool;
  ans_autoSsr : bool;
  ans_quoteType : string;
  ans_createDirectory : bool
}.

(** An entry of the [prompts] array: its [name], its [when], and the
    answer it yields (after its [filter], if it has one). *)
Record question : Type := {
  q_name : string;
  q_when : bool;
  q_answer : value
}.

(** The [filter] of the keywords question. *)
Definition keywords_filter (words : string) : value :=
  VArr (compact (map VStr (split_commas words))).

(** [this.prompt(prompts)]: the answers to the questions whose [when]
    holds, in the order of the array. *)
Definition prompt (qs : list question) : obj :=
  map (fun q => (q_name q, q_answer q)) (filter q_when qs).

(** The names of the questions, in the order of the [prompts] array. *)
Definition question_names : list string :=
  ["name"; "description"; "homepage"; "serverType"; "authorName";
   "authorEmail"; "authorUrl"; "keywords"; "pwa"; "autoSsr"; "quoteType";
   "createDirectory"].

(** *** The phases *)

Section Phases.

(** The library functions whose result the generator only passes on:
    [_.kebabCase] and [_.deburr] of lodash (both convert their argument
    to a string first), [parse-author], [path.join], [path.resolve],
    and the [_package.json] template once rendered with the four flags
    and read back. *)
Variable kebabCase : value -> string.
Variable deburr : value -> string.
Variable parseAuthor : string -> obj.
Variable path_join : string -> string -> string.
Variable path_resolve : string -> string.
Variable render_package : bool -> bool -> value -> value -> obj.

(** [github-username]: the account it finds for an address (the empty
    string when the lookup fails), or the exception the call itself
    throws. *)
Variable githubUsername : value -> outcome string.

(** What the processes started make of the files of the destination:
    the installation of the dependencies, and a command run with
    [spawnCommandSync]. *)
Variable installDependencies : filesystem -> filesystem.
Variable spawnCommandSync : string -> list string -> filesystem -> filesystem.

Definition filter_keywords (o : obj) : outcome obj :=
  if truthy (get "keywords" o) then
    match get "keywords" o with
    | VArr ks => Ret (set "keywords" (VArr (compact ks)) o)
    | _ => Throw TypeError
    end
  else Ret o.

(** The file probes made when the author of the manifest is an
    object. *)
Definition detect (g : gen) (p : obj) : obj :=
  let p := set "createDirectory" (VBool false) p in
  let p := set "serverType"
    (if fs_exists (fs g) (destinationPath g "src/server/express-server.js")
     then VStr ExpressJS
     else if fs_exists (fs g) (destinationPath g "src/server/koa-server.js")
     then VStr KoaJS else VStr HapiJS) p in
  let p := set "pwa"
    (VBool (fs_exists (fs g) (destinationPath g "client/sw-registration.js")))
    p in
  let p := set "autoSsr"
    (VBool (fs_exists (fs g) (destinationPath g "server/plugins/autossr.js")))
    p in
  set "quoteType"
    (if fs_exists (fs g) (destinationPath g ".eslintrc")
     then VStr single_quote else VStr double_quote) p.

Definition author_props (info : value) (p : obj) : obj :=
  let p := set "authorName" (vget info "name") p in
  let p := set "authorEmail" (vget info "email") p in
  set "authorUrl" (vget info "url") p.

Definition initializing (g : gen) : outcome gen :=
  read <- readJSON (fs g) (destinationPath g "package.json") [] ;;
  pkg0 <- properties read ;;
  pkg1 <- filter_keywords pkg0 ;;
  let props0 :=
    [("name", get "name" pkg1);
     ("description", get "description" pkg1);
     ("version", get "version" pkg1);
     ("homepage", get "homepage" pkg1)] in
  let author := get "author" pkg1 in
  let props1 :=
    if isObject author then detect g (author_props author props0)
    else match author with
         | VStr s => author_props (VObj (parseAuthor s)) props0
         | _ => props0
         end in
  Ret (with_props (with_pkg g pkg1) props1).

Definition resolve_name (g : gen) : gen :=
  if truthy (get "name" (pkg g))
     || truthy (opt_value (opt_name (options g)))
  then with_props g
         (set "name"
            (js_or (get "name" (pkg g))
                   (VStr (kebabCase (opt_value (opt_name (options g))))))
            (props g))
  else g.

Definition prompts (g : gen) (u : user) : list question :=
  [ {| q_name := "name";
       q_when := negb (truthy (get "name" (props g)));
       q_answer := VStr (ans_name u) |};
    {| q_name := "description";
       q_when := negb (truthy (get "description" (props g)));
       q_answer := VStr (ans_description u) |};
    {| q_name := "homepage";
       q_when := negb (truthy (get "homepage" (props g)));
       q_answer := VStr (ans_homepage u) |};
    {| q_name := "serverType";
       q_when := negb (truthy (get "serverType" (props g)));
       q_answer := VStr (ans_serverType u) |};
    {| q_name := "authorName";
       q_when := negb (truthy (get "authorName" (props g)));
       q_answer := VStr (ans_authorName u) |};
    {| q_name := "authorEmail";
       q_when := negb (truthy (get "authorEmail" (props g)));
       q_answer := VStr (ans_authorEmail u) |};
    {| q_name := "authorUrl";
       q_when := negb (truthy (get "authorUrl" (props g)));
       q_answer := VStr (ans_authorUrl u) |};
    {| q_name := "keywords";
       q_when := isEmpty (get "keywords" (pkg g));
       q_answer := keywords_filter (ans_keywords u) |};
    {| q_name := "pwa";
       q_when := is_undefined (get "pwa" (props g));
       q_answer := VBool (ans_pwa u) |};
    {| q_name := "autoSsr";
       q_when := is_undefined (get "autoSsr" (props g));
       q_answer := VBool (ans_autoSsr u) |};
    {| q_name := "quoteType";
       q_when := is_undefined (get "quoteType" (props g));
       q_answer := VStr (ans_quoteType u) |};
    {| q_name := "createDirectory";
       q_when := is_undefined (get "createDirectory" (props g));
       q_answer := VBool (ans_createDirectory u) |} ].

(** The names of the questions [askFor] puts to the user. *)
Definition asked (u : user) (g : gen) : list string :=
  keys (prompt (prompts (resolve_name g) u)).

Definition slug (g : gen) : string :=
  kebabCase (VStr (deburr (get "name" (props g)))).

Definition relocate (g : gen) : gen :=
  if truthy (get "createDirectory" (props g))
  then destinationRoot path_resolve (root g ++ "/" ++ slug g)%string g
  else g.

Definition askFor (u : user) (g : gen) : gen :=
  let g := resolve_name g in
  let answers := prompt (prompts g u) in
  let g := emit (Prompted (keys answers)) g in
  let g := with_props g (merge (props g) answers) in
  let g := relocate g in
  config_set "serverType" (get "serverType" (props g)) g.

(** [s.replace(/\\/g, '/')]. *)
Fixpoint slashes (s : string) : string :=
  match s with
  | EmptyString => EmptyString
  | String c s' =>
      String (if Nat.eqb (nat_of_ascii c) 92 then "/"%char else c)
             (slashes s')
  end.

Definition rootConfigsToCopy (isSingleQuote : bool) : list string :=
  ["gulpfile.js"; "config"; "test"]
    ++ (if isSingleQuote then [".eslintrc"] else []).

Definition scalar_fields : list string :=
  ["name"; "version"; "description"; "homepage"; "main"; "license"].

(** [currentPkg[x] = currentPkg[x] || undefined] for each scalar
    field. *)
Definition blank_falsy (currentPkg : obj) : obj :=
  fold_left (fun o x => set x (js_or (get x o) VUndef) o)
            scalar_fields currentPkg.

(** The second argument of [_.defaultsDeep]. *)
Definition generated_defaults (g : gen) : obj :=
  [("name", VStr (kebabCase (get "name" (props g))));
   ("version", VStr "0.0.1");
   ("description", get "description" (props g));
   ("homepage", get "homepage" (props g));
   ("author",
     VObj [("name", get "authorName" (props g));
           ("email", get "authorEmail" (props g));
           ("url", get "authorUrl" (props g))]);
   ("files", VArr [VStr (opt_projectRoot (options g))]);
   ("main",
     VStr (slashes (path_join (opt_projectRoot (options g)) "index.js")));
   ("keywords", VArr [])].

(** The keywords of the prompt, put before those of the manifest.
    [this.props.keywords] is only ever set from the answer of the
    keywords question, which is an array. *)
Definition combine_keywords (g : gen) (o : obj) : obj :=
  match get "keywords" (props g) with
  | VArr ks => set "keywords" (VArr (compact (uniq (concat ks (get "keywords" o))))) o
  | _ => o
  end.

(** [sortDep]: [Object.keys] throws on [null]. *)
Definition sortDep (dep : string) (o : obj) : outcome obj :=
  let d := get dep o in
  if typeof_object d then
    match d with
    | VNull => Throw TypeError
    | _ => Ret (set dep (VObj (pick d (sort_strings (own_keys d)))) o)
    end
  else Ret o.

Definition dependency_groups : list string :=
  ["dependencies"; "devDependencies"; "peerDependencies";
   "optionalDependencies"].

Fixpoint sortDeps (deps : list string) (o : obj) : outcome obj :=
  match deps with
  | [] => Ret o
  | dep :: deps' => o' <- sortDep dep o ;; sortDeps deps' o'
  end.

(** The manifest that [writing] computes from the manifest on disk and
    the rendered template. *)
Definition manifest (g : gen) (currentPkg defaultPkg : obj)
  : outcome obj :=
  let updatePkg := defaultsDeep (blank_falsy currentPkg)
                                (generated_defaults g) in
  let merged := merge (merge [] defaultPkg) updatePkg in
  sortDeps dependency_groups (combine_keywords g merged).

Definition copyTpls (files : list string) (g : gen) : gen :=
  fold_left (fun g f => copyTpl f f [] g) files g.

Definition moves (name : string) (dirs : list string) (g : gen) : gen :=
  fold_left
    (fun g d => move (d ++ "/" ++ name) (d ++ "/." ++ name) g) dirs g.

Definition writing (g : gen) : outcome gen :=
  let isHapi := is_string HapiJS (config_get g "serverType") in
  let isExpress := is_string ExpressJS (config_get g "serverType") in
  let isPWA := get "pwa" (props g) in
  let isAutoSSR := get "autoSsr" (props g) in
  let isSingleQuote := is_string single_quote (get "quoteType" (props g)) in
  let ignore := ignoreArray isHapi isExpress in
  read <- readJSON (fs g) (destinationPath g "package.json") [] ;;
  let g := copyTpl "_package.json" "_package.json" [] g in
  let defaultPkg := render_package isHapi isExpress isPWA isAutoSSR in
  let g := delete "_package.json" g in
  currentPkg <- assignable read ;;
  pkg' <- manifest g currentPkg defaultPkg ;;
  let g := writeJSON "package.json" pkg' g in
  let g := copyTpls (rootConfigsToCopy isSingleQuote) g in
  let g := copyTpl "src/server" "src/server" ignore g in
  let g := copyTpl "src/client" "src/client"
             ["**/client/images/**";
              if truthy isPWA then "" else "**/client/sw-registration.js"]
             g in
  let g := moves "babelrc"
             ["src/client"; "src/server"; "test/client"; "test/server"] g in
  let g := moves "eslintrc" ["test/client"; "test/server"] g in
  Ret (copy "src/client/images" "src/client/images" g).

(** [install]: the dependencies are installed by the time the phase
    is over. *)
Definition install (g : gen) : gen :=
  with_fs (emit Installed g) (installDependencies (fs g)).

(** [this.spawnCommandSync(command, args)]: the command has run when
    the call returns. *)
Definition spawn (command : string) (args : list string) (g : gen) : gen :=
  with_fs (emit (Spawned command args) g)
          (spawnCommandSync command args (fs g)).

(** [end]: the formatter, then the closing message. *)
Definition finish (g : gen) : gen :=
  let g :=
    if is_string single_quote (get "quoteType" (props g))
    then spawn "node_modules/.bin/eslint"
               ["--fix"; "src"; "test"; "config"; "--ext"; ".js,.jsx"] g
    else g in
  let chdir :=
    if truthy (get "createDirectory" (props g))
    then ("'cd " ++ slug g ++ "' then ")%string else "" in
  emit (Logged (nl ++ "Your new Electrode application is ready!" ++ nl
                ++ nl ++ "Type " ++ chdir ++ "'gulp dev' to start the server."
                ++ nl)) g.

(** [prompting.askForGithubAccount]: the option, when it is given, is
    taken without a question; otherwise the account of the author's
    address is looked up, and once the lookup has called back the
    account is asked for, with what was found as the default of the
    question. *)
Definition askForGithubAccount (answer : string) (g : gen) : outcome gen :=
  if truthy (opt_value (opt_githubAccount (options g)))
  then Ret (with_props g
              (set "githubAccount"
                   (opt_value (opt_githubAccount (options g))) (props g)))
  else
    username <- githubUsername (get "authorEmail" (props g)) ;;
    let g := emit (Prompted ["githubAccount"]) g in
    Ret (with_props g (set "githubAccount" (VStr answer) (props g))).

(** [default]: the sub-generators composed with, in order, each with the
    options handed to it.  The run loop calls this phase after the
    questions and before [writing]; the phases are [initializing],
    [askFor], [askForGithubAccount], [default], [writing], [install]
    and [end], in that order. *)
Definition default (g : gen) : list (string * obj) :=
  (if opt_travis (options g) then [("travis", [])] else [])
  ++ [("electrode:editorconfig", []);
      ("electrode:git",
       [("name", get "name" (props g));
        ("githubAccount", get "githubAccount" (props g))])]
  ++ (if opt_license (options g) && negb (truthy (get "license" (pkg g)))
      then [("license",
             [("name", get "authorName" (props g));
              ("email", get "authorEmail" (props g));
              ("website", get "authorUrl" (props g))])]
      else [])
  ++ (if fs_exists (fs g) (destinationPath g "README.md") then []
      else [("electrode:readme",
             [("name", get "name" (props g));
              ("description", get "description" (props g));
              ("githubAccount", get "githubAccount" (props g));
              ("authorName", get "authorName" (props g));
              ("authorUrl", get "authorUrl" (props g));
              ("content", opt_value (opt_readme (options g)))])])
  ++ (if fs_exists (fs g) (destinationPath g "config/default.js") then []
      else [("electrode:config",
             [("name", get "name" (props g));
              ("pwa", get "pwa" (props g));
              ("serverType", get "serverType" (props g));
              ("isAutoSsr", get "autoSsr" (props g))])])
  ++ (if fs_exists (fs g) (destinationPath g "server/plugins/webapp")
      then []
      else [("electrode:webapp",
             [("pwa", get "pwa" (props g));
              ("isAutoSsr", get "autoSsr" (props g))])]).

End Phases.

End Generator.

(** ** An instance of the library functions

    Concrete versions of the functions the phases are parameterised by,
    for ASCII text.  [kebabCase] is lodash's on the strings it splits
    with its ASCII word pattern (letters, digits and spaces only, with
    no change of case or of letter and digit inside a word): the words
    are the maximal runs of letters and digits, put in lower case and
    joined by [-].  [deburr] changes no ASCII character. *)

Module Ascii_instance.
Import JS Generator.

Definition to_string (v : value) : string :=
  match v with
  | VStr s => s
  | VBool true => "true"
  | VBool false => "false"
  | VNum n => NilEmpty.string_of_int (Z.to_int n)
  | _ => ""
  end.

Definition is_word_char (c : ascii) : bool :=
  let n := nat_of_ascii c in
  (Nat.leb 48 n && Nat.leb n 57) || (Nat.leb 65 n && Nat.leb n 90)
  || (Nat.leb 97 n && Nat.leb n 122) || Nat.leb 128 n.

Definition lower (c : ascii) : ascii :=
  let n := nat_of_ascii c in
  if Nat.leb 65 n && Nat.leb n 90 then ascii_of_nat (n + 32) else c.

(** The words of [s], in lower case; [cur] is the word being read. *)
Fixpoint words_go (s cur : string) : list string :=
  match s with
  | EmptyString => if String.eqb cur "" then [] else [cur]
  | String c s' =>
      if Nat.eqb (nat_of_ascii c) 39 then words_go s' cur
      else if is_word_char c
      then words_go s' (cur ++ String (lower c) "")%string
      else if String.eqb cur "" then words_go s' ""
      else cur :: words_go s' ""
  end.

Definition kebabCase (v : value) : string :=
  String.concat "-" (words_go (to_string v) "").

Definition deburr (v : value) : string := to_string v.

(** A person string with a name only. *)
Definition parseAuthor (s : string) : obj :=
  if String.eqb s "" then [] else [("name", VStr s)].

Definition path_join (a b : string) : string := (a ++ "/" ++ b)%string.

(** The segments of a path between its [/]; [cur] is the segment being
    read. *)
Fixpoint segments_go (s cur : string) : list string :=
  match s with
  | EmptyString => [cur]
  | String c s' =>
      if Nat.eqb (nat_of_ascii c) 47 then cur :: segments_go s' ""
      else segments_go s' (cur ++ String c "")%string
  end.

(** The segments that remain once the empty ones and [.] are dropped
    and each [..] has taken back the segment before it; [acc] holds
    the segments kept, last first. *)
Fixpoint resolve_go (segs acc : list string) : list string :=
  match segs with
  | [] => rev acc
  | seg :: segs' =>
      if String.eqb seg "" || String.eqb seg "." then resolve_go segs' acc
      else if String.eqb seg ".." then resolve_go segs' (tl acc)
      else resolve_go segs' (seg :: acc)
  end.

(** [path.resolve] of one absolute POSIX path. *)
Definition path_resolve (p : string) : string :=
  ("/" ++ String.concat "/" (resolve_go (segments_go p "") []))%string.

(** A template that carries nothing but its own name and version. *)
Definition render_package (isHapi isExpress : bool) (isPWA isAutoSSR : value)
  : obj :=
  [("name", VStr "electrode-app"); ("version", VStr "0.0.0")].

Definition initializing := Generator.initializing parseAuthor.
Definition askFor := Generator.askFor kebabCase deburr path_resolve.
Definition writing :=
  Generator.writing kebabCase path_join render_package.
Definition manifest := Generator.manifest kebabCase path_join.

(** [github-username] 2: the call throws for what is not a string with
    an [@]; no account is found otherwise. *)
Fixpoint has_at (s : string) : bool :=
  match s with
  | EmptyString => false
  | String c s' => Nat.eqb (nat_of_ascii c) 64 || has_at s'
  end.

Definition githubUsername (email : value) : outcome string :=
  match email with
  | VStr s => if has_at s then Ret ""%string
              else Throw (Failed "`email` required")
  | _ => Throw (Failed "`email` required")
  end.

Definition askForGithubAccount :=
  Generator.askForGithubAccount githubUsername.

(** Processes that change no file the generator has written. *)
Definition installDependencies (files : filesystem) : filesystem := files.
Definition spawnCommandSync (command : string) (args : list string)
           (files : filesystem) : filesystem := files.

Definition install := Generator.install installDependencies.
Definition finish := Generator.finish kebabCase deburr spawnCommandSync.

Definition no_options : cli :=
  {| opt_travis := true; opt_license := true; opt_name := None;
     opt_githubAccount := None; opt_projectRoot := "server";
     opt_readme := None |}.

Definition fresh (files : filesystem) (o : cli) : gen :=
  {| fs := files; root := "/work"; templates := "/tpl"; options := o;
     pkg := []; props := []; config := []; log := [] |}.

Definition someone : user :=
  {| ans_name := "My Cool App"; ans_description := "a demo";
     ans_homepage := "http://example.org"; ans_serverType := KoaJS;
     ans_authorName := "Ann"; ans_authorEmail := "ann@example.org";
     ans_authorUrl := "http://ann.example.org";
     ans_keywords := "ui, cache, cache"; ans_pwa := true;
     ans_autoSsr := false; ans_quoteType := single_quote;
     ans_createDirectory := true |}.

(** The same answers, for a name without a letter or a digit. *)
Definition unnamed : user :=
  {| ans_name := "!!!"; ans_description := "a demo";
     ans_homepage := "http://example.org"; ans_serverType := KoaJS;
     ans_authorName := "Ann"; ans_authorEmail := "ann@example.org";
     ans_authorUrl := "http://ann.example.org";
     ans_keywords := "ui, cache, cache"; ans_pwa := true;
     ans_autoSsr := false; ans_quoteType := single_quote;
     ans_createDirectory := true |}.


Definition asked := Generator.asked kebabCase.

Definition cli_named (n : string) : cli :=
  {| opt_travis := true; opt_license := true; opt_name := Some n;
     opt_githubAccount := None; opt_projectRoot := "server";
     opt_readme := None |}.

(** A destination whose manifest is [o]. *)
Definition with_manifest (o : obj) : filesystem :=
  [("/work/package.json", FJson (JObject o))].

(** A destination with the KoaJS entry file and a manifest whose
    author is an object. *)
Definition koa_project : gen :=
  fresh [("/work/package.json",
          FJson (JObject [("name", VStr "shop");
                          ("author", VObj [("name", VStr "Ann")])]));
         ("/work/src/server/koa-server.js", FOther)]
        no_options.

(** A destination with the ExpressJS entry file and no manifest. *)
Definition express_files : gen :=
  fresh [("/work/src/server/express-server.js", FOther)] no_options.

(** A destination whose manifest names its author in a string. *)
Definition ann_project : gen :=
  fresh (with_manifest [("author", VStr "Ann")]) no_options.

(** A manifest with a name, a flag, keywords and unsorted
    dependencies. *)
Definition shop_manifest : obj :=
  [("name", VStr "shop"); ("private", VBool false);
   ("keywords", VArr [VStr "web"; VStr "ui"]);
   ("dependencies",
     VObj [("zeta", VStr "1.0.0"); ("alpha", VStr "2.0.0");
           ("mu", VStr "3.0.0")])].

(** A destination whose manifest has [null] for its dependencies. *)
Definition null_dependencies : gen :=
  fresh (with_manifest [("dependencies", VNull)]) no_options.

(** A destination holding [shop_manifest]. *)
Definition shop_project : gen :=
  fresh (with_manifest shop_manifest) no_options.

(** A fresh destination for which the quote style is resolved. *)
Definition styled (quoteType : string) : gen :=
  with_props (fresh [] no_options) [("quoteType", VStr quoteType)].

(** A generator whose keywords question was answered
    [ui, cache, cache]. *)
Definition answered : gen :=
  with_props (fresh [] no_options)
             [("keywords", keywords_filter "ui, cache, cache")].

(** The generator after [initializing], on the files and options
    given. *)
Definition initialized (files : filesystem) (o : cli) : gen :=
  match initializing (fresh files o) with
  | Ret g => g
  | Throw _ => fresh files o
  end.

End Ascii_instance.

(** * Properties of the generator *)

Import JS Generator.

(** ** Objects and the deep merges *)

Lemma get_set_same (k : string) (v : value) (o : obj) :
  get k (set k v o) = v.
Proof.
  unfold get. induction o as [|[k' v'] o IH]; cbn [set lookup].
  - now rewrite String.eqb_refl.
  - destruct (String.eqb k k') eqn:E; cbn [lookup].
    + now rewrite String.eqb_refl.
    + now rewrite E.
Qed.

Lemma get_set_other (k k' : string) (v : value) (o : obj) :
  k' <> k -> get k' (set k v o) = get k' o.
Proof.
  intros Hk. apply String.eqb_neq in Hk. unfold get.
  induction o as [|[k0 v0] o IH]; cbn [set lookup].
  - now rewrite Hk.
  - destruct (String.eqb k k0) eqn:E; cbn [lookup].
    + apply String.eqb_eq in E. subst k0. now rewrite Hk.
    + destruct (String.eqb k' k0); [ reflexivity | exact IH ].
Qed.

Lemma has_set_other (k k' : string) (v : value) (o : obj) :
  k' <> k -> has k' (set k v o) = has k' o.
Proof.
  intros Hk. apply String.eqb_neq in Hk. unfold has.
  induction o as [|[k0 v0] o IH]; cbn [set lookup].
  - now rewrite Hk.
  - destruct (String.eqb k k0) eqn:E; cbn [lookup].
    + apply String.eqb_eq in E. subst k0. now rewrite Hk.
    + destruct (String.eqb k' k0); [ reflexivity | exact IH ].
Qed.

Lemma has_set_same (k : string) (v : value) (o : obj) :
  has k (set k v o) = true.
Proof.
  unfold has. induction o as [|[k' v'] o IH]; cbn [set lookup].
  - now rewrite String.eqb_refl.
  - destruct (String.eqb k k') eqn:E; cbn [lookup].
    + now rewrite String.eqb_refl.
    + now rewrite E.
Qed.

Lemma get_not_in (k : string) (o : obj) :
  ~ In k (keys o) -> get k o = VUndef.
Proof.
  unfold get. induction o as [|[k' v'] o IH]; cbn [keys map lookup In fst];
    intros H; [ reflexivity | ].
  destruct (String.eqb k k') eqn:E.
  - apply String.eqb_eq in E. subst. tauto.
  - apply IH. tauto.
Qed.

Lemma get_in (k : string) (v : value) (o : obj) :
  NoDup (keys o) -> In (k, v) o -> get k o = v.
Proof.
  unfold get. induction o as [|[k' v'] o IH]; cbn [keys map lookup In fst];
    intros Hn Hi; [ tauto | ].
  inversion Hn as [|? ? Hk Hn']; subst.
  destruct Hi as [Hi|Hi].
  - injection Hi as -> ->. now rewrite String.eqb_refl.
  - destruct (String.eqb k k') eqn:E.
    + apply String.eqb_eq in E. subst k'. exfalso. apply Hk.
      change k with (fst (k, v)). now apply in_map.
    + now apply IH.
Qed.

Lemma same_value_eq (a b : value) : same_value a b = true -> a = b.
Proof.
  destruct a, b; cbn [same_value]; try discriminate; intros H;
    try reflexivity.
  - apply Bool.eqb_prop in H. now subst.
  - apply Z.eqb_eq in H. now subst.
  - apply String.eqb_eq in H. now subst.
Qed.

(** [baseMerge] is the fold of its step over the source. *)
Lemma baseMerge_obj (deflt : bool) (object : value) (kvs : obj) :
  baseMerge deflt object (VObj kvs)
  = fold_left (merge_prop deflt) kvs object.
Proof.
  cbn [baseMerge]. revert object.
  induction kvs as [|[k sv] rest IH]; intros object; cbn [fold_left].
  - reflexivity.
  - rewrite <- IH. reflexivity.
Qed.

Lemma baseMerge_arr (deflt : bool) (object : value) (xs : list value) :
  baseMerge deflt object (VArr xs) = merge_elems deflt xs 0 object.
Proof.
  cbn [baseMerge]. generalize 0. revert object.
  induction xs as [|sv rest IH]; intros object i; cbn [merge_elems].
  - reflexivity.
  - rewrite <- IH. reflexivity.
Qed.

(** A step of a merge into a plain object writes at most the property
    it is about. *)
Lemma merge_prop_shape (deflt : bool) (o : obj) (k : string) (sv : value) :
  merge_prop deflt (VObj o) (k, sv) = VObj o
  \/ exists x, merge_prop deflt (VObj o) (k, sv) = VObj (set k x o).
Proof.
  unfold merge_prop, assignMergeValue. cbn [vget vhas vset].
  repeat match goal with
         | |- context [if ?b then _ else _] => destruct b
         end; eauto.
Qed.

Lemma merge_prop_scalar (o : obj) (k : string) (sv : value) :
  is_scalar sv = true ->
  exists o', merge_prop false (VObj o) (k, sv) = VObj o' /\ get k o' = sv.
Proof.
  intros Hs. unfold merge_prop, assignMergeValue. cbn [vget vhas vset andb].
  replace (isObject sv) with false by now destruct sv.
  replace (is_undefined sv) with false by now destruct sv.
  destruct (same_value (get k o) sv) eqn:E.
  - exists o. split; [ reflexivity | now apply same_value_eq ].
  - exists (set k sv o). split; [ reflexivity | apply get_set_same ].
Qed.

Lemma merge_fold_frame (deflt : bool) (kvs o : obj) :
  exists o',
    fold_left (merge_prop deflt) kvs (VObj o) = VObj o'
    /\ forall k, ~ In k (keys kvs) -> get k o' = get k o /\ has k o' = has k o.
Proof.
  revert o. induction kvs as [|[k0 v0] kvs IH]; intros o; cbn [fold_left].
  - exists o. now split.
  - destruct (merge_prop_shape deflt o k0 v0) as [-> | [x ->]].
    + destruct (IH o) as (o' & -> & Hf). exists o'. split; [ reflexivity | ].
      intros k Hk. apply Hf. cbn in Hk. tauto.
    + destruct (IH (set k0 x o)) as (o' & -> & Hf).
      exists o'. split; [ reflexivity | ].
      intros k Hk. cbn [keys map In fst] in Hk.
      destruct (Hf k) as [Hg Hh]; [ unfold keys; tauto | ].
      rewrite Hg, Hh.
      split; [ apply get_set_other | apply has_set_other ]; intuition.
Qed.

Lemma merge_fold_scalar (kvs o : obj) (k : string) (v : value) :
  NoDup (keys kvs) -> In (k, v) kvs -> is_scalar v = true ->
  exists o',
    fold_left (merge_prop false) kvs (VObj o) = VObj o' /\ get k o' = v.
Proof.
  revert o. induction kvs as [|[k0 v0] kvs IH]; intros o Hn Hi Hs;
    [ destruct Hi | ].
  cbn [keys map fst] in Hn. inversion Hn as [|? ? Hk Hn']; subst.
  cbn [fold_left]. destruct Hi as [Hi|Hi].
  - injection Hi as -> ->.
    destruct (merge_prop_scalar o k v Hs) as (o1 & -> & Hg).
    destruct (merge_fold_frame false kvs o1) as (o' & -> & Hf).
    exists o'. split; [ reflexivity | ].
    destruct (Hf k Hk) as [-> _]. exact Hg.
  - destruct (merge_prop_shape false o k0 v0) as [-> | [x ->]];
      now apply IH.
Qed.

(** [_.merge] leaves alone the properties the source does not have. *)
Lemma merge_frame (o src : obj) (k : string) :
  ~ In k (keys src) -> get k (merge o src) = get k o.
Proof.
  intros Hk. unfold merge. rewrite baseMerge_obj.
  destruct (merge_fold_frame false src o) as (o' & -> & Hf).
  now apply Hf.
Qed.

(** [_.merge] copies the scalar properties of the source. *)
Lemma merge_scalar (o src : obj) (k : string) (v : value) :
  NoDup (keys src) -> In (k, v) src -> is_scalar v = true ->
  get k (merge o src) = v.
Proof.
  intros Hn Hi Hs. unfold merge. rewrite baseMerge_obj.
  now destruct (merge_fold_scalar src o k v Hn Hi Hs) as (o' & -> & Hg).
Qed.

(** ** The template exclusions *)

Lemma ends_with_suffix (suf s : string) :
  ends_with suf s = true <-> exists pre, s = (pre ++ suf)%string.
Proof.
  split.
  - induction s as [|c s IH]; cbn [ends_with]; intros H.
    + rewrite orb_false_r in H. apply String.eqb_eq in H.
      exists ""%string. now subst.
    + apply orb_true_iff in H. destruct H as [H|H].
      * apply String.eqb_eq in H. exists ""%string. now subst.
      * destruct (IH H) as [pre ->]. now exists (String c pre).
  - intros [pre ->]. induction pre as [|c pre IH]; cbn [append].
    + destruct suf; cbn [ends_with]; now rewrite String.eqb_refl.
    + cbn [ends_with]. rewrite IH. apply orb_true_r.
Qed.

Lemma common_end (p1 p2 a b : string) :
  (p1 ++ a = p2 ++ b)%string ->
  ends_with a b = true \/ ends_with b a = true.
Proof.
  revert p2. induction p1 as [|c p1 IH]; intros p2 H; cbn [append] in H.
  - right. apply ends_with_suffix. now exists p2.
  - destruct p2 as [|c' p2]; cbn [append] in H.
    + left. apply ends_with_suffix. now exists (String c p1).
    + injection H as _ H. now apply IH with p2.
Qed.

(** A pattern [**/literal] leaves alone every path whose end differs
    from the literal's. *)
Lemma glob_ignores_other (literal dir file : string) :
  ends_with literal file = false ->
  ends_with file literal = false ->
  glob_ignores ("**/" ++ literal) (dir ++ "/" ++ file) = false.
Proof.
  intros H1 H2. cbn [glob_ignores append].
  destruct (_ || _) eqn:E; [ exfalso | reflexivity ].
  assert (exists pre, (dir ++ String "/" file = pre ++ literal)%string)
    as [pre Hp].
  { apply orb_true_iff in E. destruct E as [E|E].
    - apply String.eqb_eq in E. exists ""%string. now rewrite <- E.
    - apply ends_with_suffix in E. destruct E as [pre ->].
      exists (pre ++ "/")%string.
      clear. induction pre as [|c pre IH]; cbn [append]; congruence. }
  assert (Hq : ((dir ++ "/") ++ file = pre ++ literal)%string).
  { rewrite <- Hp. clear.
    induction dir as [|c dir IH]; cbn [append]; congruence. }
  destruct (common_end _ _ _ _ Hq); congruence.
Qed.

Lemma glob_ignores_own (literal dir : string) :
  glob_ignores ("**/" ++ literal) (dir ++ "/" ++ literal) = true.
Proof.
  cbn [glob_ignores append]. apply orb_true_iff. right.
  apply ends_with_suffix. now exists dir.
Qed.

(** C3, as amended.  The rule set excludes the ExpressJS and KoaJS
    entry files for HapiJS, the KoaJS entry file alone for ExpressJS
    and the ExpressJS entry file alone for KoaJS; it never excludes the
    entry file of the chosen framework.  The generator names no entry
    file for HapiJS: of a tree holding the ExpressJS and the KoaJS entry
    files, the copy keeps the file of the chosen framework, and neither
    for HapiJS. *)
Theorem exclusion_rules :
  (ignore_of (VStr HapiJS)
     = ["**/" ++ express_entry; "**/" ++ koa_entry]%string
   /\ ignore_of (VStr ExpressJS) = ["**/" ++ koa_entry]%string
   /\ ignore_of (VStr KoaJS) = ["**/" ++ express_entry]%string)
  /\ (forall dir : string,
        ignored (ignore_of (VStr ExpressJS))
                (dir ++ "/" ++ express_entry) = false
        /\ ignored (ignore_of (VStr KoaJS))
                   (dir ++ "/" ++ koa_entry) = false)
  /\ (forall dir : string,
        let tree := [dir ++ "/" ++ express_entry;
                     dir ++ "/" ++ koa_entry]%string in
        copied (ignore_of (VStr HapiJS)) tree = []
        /\ copied (ignore_of (VStr ExpressJS)) tree
           = [dir ++ "/" ++ express_entry]%string
        /\ copied (ignore_of (VStr KoaJS)) tree
           = [dir ++ "/" ++ koa_entry]%string).
Proof.
  assert (Hek : forall dir,
             glob_ignores ("**/" ++ koa_entry) (dir ++ "/" ++ express_entry)
             = false)
    by (intros; now apply glob_ignores_other).
  assert (Hke : forall dir,
             glob_ignores ("**/" ++ express_entry) (dir ++ "/" ++ koa_entry)
             = false)
    by (intros; now apply glob_ignores_other).
  pose proof (glob_ignores_own express_entry) as Hee.
  pose proof (glob_ignores_own koa_entry) as Hkk.
  split; [ repeat split | split ].
  - intros dir. unfold ignored. cbn [ignore_of is_string HapiJS ExpressJS KoaJS].
    change (ignore_of (VStr ExpressJS)) with ["**/" ++ koa_entry]%string.
    change (ignore_of (VStr KoaJS)) with ["**/" ++ express_entry]%string.
    cbn [existsb]. now rewrite Hek, Hke.
  - intros dir tree. subst tree. unfold copied, ignored.
    change (ignore_of (VStr HapiJS))
      with ["**/" ++ express_entry; "**/" ++ koa_entry]%string.
    change (ignore_of (VStr ExpressJS)) with ["**/" ++ koa_entry]%string.
    change (ignore_of (VStr KoaJS)) with ["**/" ++ express_entry]%string.
    cbn [filter existsb].
    now rewrite Hek, Hke, Hee, Hkk.
Qed.

(** C3 as stated fails whatever file is taken for the HapiJS entry: no
    choice of it makes the copy keep exactly one of the three entry
    files for each of the three server types. *)
Lemma exclusion_rules_three_entries :
  ~ exists hapi_entry : string,
      forall serverType : string,
        In serverType [HapiJS; ExpressJS; KoaJS] ->
        List.length
          (copied (ignore_of (VStr serverType))
                  [hapi_entry; express_entry; koa_entry]) = 1.
Proof.
  intros [h H].
  pose proof (H HapiJS (or_introl eq_refl)) as Hh.
  pose proof (H ExpressJS (or_intror (or_introl eq_refl))) as He.
  revert Hh He. unfold copied, ignored.
  change (ignore_of (VStr HapiJS))
    with ["**/" ++ express_entry; "**/" ++ koa_entry]%string.
  change (ignore_of (VStr ExpressJS)) with ["**/" ++ koa_entry]%string.
  cbn [filter existsb].
  destruct (glob_ignores ("**/" ++ express_entry) h);
    destruct (glob_ignores ("**/" ++ koa_entry) h);
    vm_compute; congruence.
Qed.

(** ** What [writing] and [end] do *)

Section Writing.

Variable kebabCase : value -> string.
Variable deburr : value -> string.
Variable path_join : string -> string -> string.
Variable render_package : bool -> bool -> value -> value -> obj.
Variable installDependencies : filesystem -> filesystem.
Variable spawnCommandSync : string -> list string -> filesystem -> filesystem.

Let writing := Generator.writing kebabCase path_join render_package.
Let manifest := Generator.manifest kebabCase path_join.
Let install := Generator.install installDependencies.
Let finish := Generator.finish kebabCase deburr spawnCommandSync.

Lemma copyTpl_spec (from to : string) (ignore : list string) (g : gen) :
  same_frame g (copyTpl from to ignore g)
  /\ log (copyTpl from to ignore g)
     = log g ++ [CopyTpl (templatePath g from) (destinationPath g to) ignore].
Proof. repeat split. Qed.

Lemma move_spec (from to : string) (g : gen) :
  same_frame g (move from to g)
  /\ log (move from to g)
     = log g ++ [Moved (destinationPath g from) (destinationPath g to)].
Proof. repeat split. Qed.

Lemma same_frame_paths (g g' : gen) (p : string) :
  same_frame g g' ->
  templatePath g' p = templatePath g p
  /\ destinationPath g' p = destinationPath g p.
Proof.
  intros (Hr & Ht & _). unfold templatePath, destinationPath.
  now rewrite Hr, Ht.
Qed.

Lemma same_frame_trans (g1 g2 g3 : gen) :
  same_frame g1 g2 -> same_frame g2 g3 -> same_frame g1 g3.
Proof.
  unfold same_frame. intros (? & ? & ? & ? & ?) (? & ? & ? & ? & ?).
  repeat split; congruence.
Qed.

Lemma copyTpls_spec (files : list string) (g : gen) :
  same_frame g (copyTpls files g)
  /\ log (copyTpls files g)
     = log g
       ++ map (fun f => CopyTpl (templatePath g f) (destinationPath g f) [])
              files.
Proof.
  unfold copyTpls. revert g.
  induction files as [|f files IH]; intros g; cbn [fold_left map].
  - split; [ repeat split | now rewrite app_nil_r ].
  - destruct (IH (copyTpl f f [] g)) as [Hf Hl].
    destruct (copyTpl_spec f f [] g) as [Hf1 Hl1].
    split; [ now apply same_frame_trans with (copyTpl f f [] g) | ].
    rewrite Hl, Hl1, <- app_assoc. reflexivity.
Qed.

Lemma moves_spec (name : string) (dirs : list string) (g : gen) :
  same_frame g (moves name dirs g)
  /\ exists evs,
      log (moves name dirs g) = log g ++ evs
      /\ Forall (fun e => match e with
                          | CopyTpl _ _ _ | Moved _ _ | Copied _ _ => True
                          | _ => False
                          end) evs.
Proof.
  unfold moves. revert g.
  induction dirs as [|d dirs IH]; intros g; cbn [fold_left].
  - split; [ repeat split | ]. exists []. now rewrite app_nil_r.
  - destruct (IH (move (d ++ "/" ++ name) (d ++ "/." ++ name) g))
      as (Hf & evs & Hl & Ha).
    destruct (move_spec (d ++ "/" ++ name) (d ++ "/." ++ name) g)
      as [Hf1 Hl1].
    split; [ eapply same_frame_trans; eassumption | ].
    eexists. split.
    + rewrite Hl, Hl1, <- app_assoc. reflexivity.
    + constructor; [ exact I | exact Ha ].
Qed.

(** The manifest computed depends on the answers and the options
    only. *)
Lemma manifest_ext (g1 g2 : gen) (currentPkg defaultPkg : obj) :
  props g1 = props g2 -> options g1 = options g2 ->
  manifest g1 currentPkg defaultPkg = manifest g2 currentPkg defaultPkg.
Proof.
  intros Hp Ho.
  unfold manifest, Generator.manifest, combine_keywords, generated_defaults.
  now rewrite Hp, Ho.
Qed.

(** The effects of a [writing] that returns: the manifest is computed
    from the file on disk and written once, then the root configuration
    files are rendered, then the server and client trees. *)
Lemma writing_inv (g g' : gen) :
  writing g = Ret g' ->
  exists currentPkg pkg',
    readJSON (fs g) (destinationPath g "package.json") []
    = Ret (JObject currentPkg)
    /\ manifest g currentPkg
         (render_package
            (is_string HapiJS (config_get g "serverType"))
            (is_string ExpressJS (config_get g "serverType"))
            (get "pwa" (props g)) (get "autoSsr" (props g)))
       = Ret pkg'
    /\ root g' = root g /\ config g' = config g /\ props g' = props g
    /\ exists rest,
        log g'
        = log g
          ++ [CopyTpl (templatePath g "_package.json")
                      (destinationPath g "_package.json") [];
              Deleted (destinationPath g "_package.json");
              WroteJSON (destinationPath g "package.json") pkg']
          ++ map (fun f => CopyTpl (templatePath g f) (destinationPath g f) [])
                 (rootConfigsToCopy
                    (is_string single_quote (get "quoteType" (props g))))
          ++ CopyTpl (templatePath g "src/server")
                     (destinationPath g "src/server")
                     (ignore_of (config_get g "serverType"))
          :: rest
        /\ Forall (fun e => match e with
                            | CopyTpl _ _ _ | Moved _ _ | Copied _ _ => True
                            | _ => False
                            end) rest.
Proof.
  unfold writing, Generator.writing. intros H.
  destruct (readJSON (fs g) (destinationPath g "package.json") [])
    as [[currentPkg| |]|] eqn:Hr; cbn [bind assignable] in H;
    try discriminate H.
  match type of H with
  | context [Generator.manifest _ _ ?ge ?c ?d] =>
      let E := fresh "E" in
      pose proof (manifest_ext ge g c d eq_refl eq_refl) as E;
      unfold manifest in E; rewrite E in H; clear E; fold manifest in H
  end.
  match type of H with
  | context [manifest g ?c ?d] =>
      destruct (manifest g c d) as [pkg'|] eqn:Hm; cbn [bind] in H;
      [ | discriminate ]
  end.
  exists currentPkg, pkg'. split; [ reflexivity | ].
  split; [ exact Hm | ].
  assert (H' := f_equal (fun o => match o with Ret x => x | Throw _ => g end)
                        H).
  cbv beta iota in H'. subst g'. clear H Hm Hr.
  set (g1 := writeJSON "package.json" pkg'
               (delete "_package.json"
                  (copyTpl "_package.json" "_package.json" [] g))).
  assert (Hf1 : same_frame g g1) by (repeat split).
  assert (Hl1 : log g1
                = log g
                  ++ [CopyTpl (templatePath g "_package.json")
                              (destinationPath g "_package.json") [];
                      Deleted (destinationPath g "_package.json");
                      WroteJSON (destinationPath g "package.json") pkg']).
  { subst g1. cbn [log writeJSON delete copyTpl emit].
    now rewrite <- !app_assoc. }
  clearbody g1.
  destruct (copyTpls_spec
              (rootConfigsToCopy
                 (is_string single_quote (get "quoteType" (props g)))) g1)
    as [Hf2 Hl2].
  set (g2 := copyTpls _ g1) in *. clearbody g2.
  pose proof (same_frame_trans g g1 g2 Hf1 Hf2) as Hf12.
  match goal with
  | |- context [copyTpl "src/client" "src/client" ?ig ?g3] =>
      destruct (copyTpl_spec "src/client" "src/client" ig g3) as [Hf4 Hl4];
      destruct (copyTpl_spec "src/server" "src/server"
                  (ignoreArray (is_string HapiJS (config_get g "serverType"))
                     (is_string ExpressJS (config_get g "serverType"))) g2)
        as [Hf3 Hl3];
      set (g4 := copyTpl "src/client" "src/client" ig g3) in *
  end.
  destruct (same_frame_paths g g2 "src/server" Hf12) as [Et Ed].
  rewrite Et, Ed in Hl3. clear Et Ed.
  rewrite Hl3 in Hl4. clear Hl3.
  pose proof (same_frame_trans _ _ _ Hf12 (same_frame_trans _ _ _ Hf3 Hf4))
    as Hf14.
  clearbody g4. clear Hf3 Hf4.
  destruct (moves_spec "babelrc"
              ["src/client"; "src/server"; "test/client"; "test/server"] g4)
    as (Hf5 & evs5 & Hl5 & Ha5).
  set (g5 := moves "babelrc" _ g4) in *. clearbody g5.
  destruct (moves_spec "eslintrc" ["test/client"; "test/server"] g5)
    as (Hf6 & evs6 & Hl6 & Ha6).
  set (g6 := moves "eslintrc" _ g5) in *. clearbody g6.
  pose proof (same_frame_trans _ _ _ Hf14 (same_frame_trans _ _ _ Hf5 Hf6))
    as (Hro & _ & Hc & Hp & _).
  cbn [root config props log copy emit].
  repeat (split; [ assumption | ]).
  eexists. split.
  - rewrite Hl6, Hl5, Hl4, Hl2, Hl1.
    rewrite (map_ext _ (fun f => CopyTpl (templatePath g f)
                                         (destinationPath g f) []))
      by (intros f; now destruct (same_frame_paths g g1 f Hf1) as [-> ->]).
    repeat rewrite <- app_assoc. cbn [app]. reflexivity.
  - constructor; [ exact I | ].
    apply Forall_app. split; [ exact Ha5 | ].
    apply Forall_app. split; [ exact Ha6 | ].
    repeat constructor.
Qed.

(** The whole trace of a [writing] that returns. *)
Lemma writing_log (g g' : gen) :
  writing g = Ret g' ->
  exists pkg',
    log g'
    = log g
      ++ [CopyTpl (templatePath g "_package.json")
                  (destinationPath g "_package.json") [];
          Deleted (destinationPath g "_package.json");
          WroteJSON (destinationPath g "package.json") pkg']
      ++ map (fun f => CopyTpl (templatePath g f) (destinationPath g f) [])
             (rootConfigsToCopy
                (is_string single_quote (get "quoteType" (props g))))
      ++ [CopyTpl (templatePath g "src/server")
                  (destinationPath g "src/server")
                  (ignore_of (config_get g "serverType"));
          CopyTpl (templatePath g "src/client")
                  (destinationPath g "src/client")
                  ["**/client/images/**";
                   if truthy (get "pwa" (props g)) then ""
                   else "**/client/sw-registration.js"]]
      ++ map (fun d => Moved (destinationPath g (d ++ "/babelrc"))
                             (destinationPath g (d ++ "/.babelrc")))
             ["src/client"; "src/server"; "test/client"; "test/server"]
      ++ map (fun d => Moved (destinationPath g (d ++ "/eslintrc"))
                             (destinationPath g (d ++ "/.eslintrc")))
             ["test/client"; "test/server"]
      ++ [Copied (templatePath g "src/client/images")
                 (destinationPath g "src/client/images")].
Proof.
  unfold writing, Generator.writing. intros H.
  destruct (readJSON (fs g) (destinationPath g "package.json") [])
    as [[currentPkg| |]|] eqn:Hr; cbn [bind assignable] in H;
    try discriminate H.
  match type of H with
  | context [Generator.manifest _ _ ?ge ?c ?d] =>
      destruct (Generator.manifest kebabCase path_join ge c d)
        as [pkg'|] eqn:Hm; cbn [bind] in H; [ | discriminate H ]
  end.
  exists pkg'.
  assert (H' := f_equal (fun o => match o with Ret x => x | Throw _ => g end)
                        H).
  cbv beta iota in H'. subst g'. clear H Hm Hr.
  unfold ignore_of.
  destruct (is_string single_quote (get "quoteType" (props g)));
    cbn [log root templates props copy moves fold_left move copyTpl copyTpls
         rootConfigsToCopy app emit writeJSON delete destinationPath
         templatePath map];
    rewrite <- ?app_assoc; reflexivity.
Qed.

Lemma ruleset_name (x y : string) :
  ".eslintrc"%string <> (x ++ "/" ++ y)%string.
Proof.
  intros E.
  repeat (destruct x as [|? x]; cbn [append] in E;
          [ discriminate E | injection E as _ E ]).
  destruct x; discriminate E.
Qed.

(** Whether a path of the destination names a ruleset file does not
    depend on the destination root. *)
Lemma ends_with_ruleset (r b : string) :
  ends_with "/.eslintrc" (r ++ "/" ++ b)
  = ends_with "/.eslintrc" ("/" ++ b).
Proof.
  induction r as [|c r IH]; [ reflexivity | ].
  change (String c r ++ "/" ++ b)%string
    with (String c (r ++ "/" ++ b)).
  change (ends_with "/.eslintrc" (String c (r ++ "/" ++ b)))
    with (String.eqb "/.eslintrc" (String c (r ++ "/" ++ b))
          || ends_with "/.eslintrc" (r ++ "/" ++ b)).
  rewrite IH.
  replace (String.eqb "/.eslintrc" (String c (r ++ "/" ++ b))) with false;
    [ reflexivity | ].
  symmetry. apply String.eqb_neq. intros E. injection E as _ E.
  exact (ruleset_name r b E).
Qed.

Lemma rulesets_under (r : string) (ps : list string) :
  filter (ends_with "/.eslintrc") (map (fun p => r ++ "/" ++ p)%string ps)
  = map (fun p => r ++ "/" ++ p)%string
        (filter (fun p => ends_with "/.eslintrc" ("/" ++ p)) ps).
Proof.
  induction ps as [|p ps IH]; cbn [map filter]; [ reflexivity | ].
  rewrite ends_with_ruleset, IH.
  now destruct (ends_with "/.eslintrc" ("/" ++ p)).
Qed.

Lemma spawned_app (l1 l2 : list event) :
  spawned (l1 ++ l2) = spawned l1 ++ spawned l2.
Proof. apply filter_app. Qed.

(** C7, as amended.  Of the paths [writing] puts something at, those
    of a ruleset file are the [.eslintrc] of the destination root, put
    there with the single-quote style only, and the [.eslintrc] of
    [test/client] and of [test/server], put there whatever the style.
    [writing] spawns nothing; after the installation, [end] spawns the
    formatter with [--fix] for the single-quote style, and nothing for
    the double-quote style or any other value. *)
Theorem quote_style_ruleset_and_formatter (g g' : gen) :
  writing g = Ret g' ->
  let single := is_string single_quote (get "quoteType" (props g)) in
  exists written,
    log g' = log g ++ written
    /\ rulesets_put written
       = (if single then [destinationPath g ".eslintrc"] else [])
         ++ [destinationPath g "test/client/.eslintrc";
             destinationPath g "test/server/.eslintrc"]
    /\ spawned written = []
    /\ spawned (log (finish (install g')))
       = spawned (log g) ++ (if single then [eslint_fix] else []).
Proof.
  intros Hw single.
  destruct (writing_log g g' Hw) as (pkg' & Hl).
  destruct (writing_inv g g' Hw) as (_ & _ & _ & _ & _ & _ & Hp & _).
  eexists. split; [ exact Hl | ].
  assert (Hs : spawned (log g') = spawned (log g)).
  { rewrite Hl. fold single. rewrite spawned_app.
    destruct single; cbn; apply app_nil_r. }
  split; [ | split ].
  - fold single. unfold rulesets_put.
    set (under := fun p => (root g ++ "/" ++ p)%string).
    destruct single.
    + match goal with
      | |- filter _ ?l = _ =>
          change l
            with (map under
                      ["_package.json"; "package.json"; "gulpfile.js";
                       "config"; "test"; ".eslintrc"; "src/server";
                       "src/client"; "src/client/.babelrc";
                       "src/server/.babelrc"; "test/client/.babelrc";
                       "test/server/.babelrc"; "test/client/.eslintrc";
                       "test/server/.eslintrc"; "src/client/images"]%string)
      end.
      unfold under. rewrite rulesets_under. reflexivity.
    + match goal with
      | |- filter _ ?l = _ =>
          change l
            with (map under
                      ["_package.json"; "package.json"; "gulpfile.js";
                       "config"; "test"; "src/server";
                       "src/client"; "src/client/.babelrc";
                       "src/server/.babelrc"; "test/client/.babelrc";
                       "test/server/.babelrc"; "test/client/.eslintrc";
                       "test/server/.eslintrc"; "src/client/images"]%string)
      end.
      unfold under. rewrite rulesets_under. reflexivity.
  - fold single. destruct single; reflexivity.
  - unfold finish, Generator.finish, install, Generator.install, spawn.
    cbn [props with_fs emit]. rewrite Hp. fold single.
    destruct single; cbn [log with_fs emit];
      rewrite !spawned_app, Hs; cbn; now rewrite ?app_nil_r.
Qed.

End Writing.

Lemma quote_style_ruleset_and_formatter_witness :
  exists g',
    Ascii_instance.writing (Ascii_instance.styled single_quote) = Ret g'
    /\ rulesets_put (log g')
       = ["/work/.eslintrc"; "/work/test/client/.eslintrc";
          "/work/test/server/.eslintrc"]%string
    /\ spawned (log (Ascii_instance.finish (Ascii_instance.install g')))
       = [eslint_fix].
Proof.
  unfold Ascii_instance.writing, Ascii_instance.finish,
    Ascii_instance.install.
  destruct (Generator.writing
              Ascii_instance.kebabCase Ascii_instance.path_join
              Ascii_instance.render_package
              (Ascii_instance.styled single_quote)) as [g'|e] eqn:Hw;
    [ | vm_compute in Hw; discriminate Hw ].
  exists g'. split; [ reflexivity | ].
  destruct (quote_style_ruleset_and_formatter
              Ascii_instance.kebabCase Ascii_instance.deburr
              Ascii_instance.path_join Ascii_instance.render_package
              Ascii_instance.installDependencies
              Ascii_instance.spawnCommandSync
              (Ascii_instance.styled single_quote) g' Hw)
    as (written & Hl & Hr & _ & Hf).
  change (log g' = written) in Hl. rewrite Hl, Hf.
  split; [ rewrite Hr | ]; reflexivity.
Defined.

(** C7 as stated fails for both styles: [writing] puts a ruleset file
    at three paths with the single-quote style and at two with the
    double-quote style, never at exactly one. *)
Lemma no_style_puts_exactly_one_ruleset :
  ~ (exists quoteType : string,
        In quoteType [single_quote; double_quote]
        /\ forall g' : gen,
             Ascii_instance.writing (Ascii_instance.styled quoteType)
             = Ret g' ->
             List.length (rulesets_put (log g')) = 1).
Proof.
  intros (q & Hq & H). cbn [In] in Hq.
  destruct Hq as [<-|[<-|[]]];
    match type of H with
    | forall g', ?w = _ -> _ =>
        destruct w as [g'|e] eqn:Hw;
        [ specialize (H g' eq_refl); vm_compute in Hw;
          injection Hw as <-; vm_compute in H; discriminate H
        | vm_compute in Hw; discriminate Hw ]
    end.
Qed.

(** ** What [askFor] asks and resolves *)

(** The answers of a prompt carry distinct names when the questions
    do. *)
Lemma prompt_NoDup (qs : list question) :
  NoDup (map q_name qs) -> NoDup (keys (prompt qs)).
Proof.
  unfold keys, prompt. rewrite map_map. cbn [fst].
  induction qs as [|q qs IH]; intros Hqs; cbn [map filter].
  - constructor.
  - apply NoDup_cons_iff in Hqs. destruct Hqs as [Hq Hqs].
    destruct (q_when q); cbn [map]; [ | now apply IH ].
    apply NoDup_cons; [ | now apply IH ].
    contradict Hq. apply in_map_iff in Hq.
    destruct Hq as (q' & Hname & Hin).
    apply filter_In in Hin. rewrite <- Hname. apply in_map. tauto.
Qed.

Lemma NoDup_map_same {A B : Type} (f : A -> B) (l : list A) (a b : A) :
  NoDup (map f l) -> In a l -> In b l -> f a = f b -> a = b.
Proof.
  induction l as [|x l IH]; cbn [map In]; intros H Ha Hb E; [ tauto | ].
  inversion H as [|? ? Hx Hl]; subst.
  destruct Ha as [->|Ha], Hb as [->|Hb]; auto.
  - exfalso. apply Hx. rewrite E. now apply in_map.
  - exfalso. apply Hx. rewrite <- E. now apply in_map.
Qed.

Section Prompting.

Variable kebabCase : value -> string.
Variable deburr : value -> string.
Variable path_resolve : string -> string.

Let askFor := Generator.askFor kebabCase deburr path_resolve.
Let resolve_name := Generator.resolve_name kebabCase.
Let asked := Generator.asked kebabCase.
Let relocate := Generator.relocate kebabCase deburr path_resolve.
Let slug := Generator.slug kebabCase deburr.

Lemma prompts_names (g : gen) (u : user) :
  map q_name (prompts g u)
  = ["name"; "description"; "homepage"; "serverType"; "authorName";
     "authorEmail"; "authorUrl"; "keywords"; "pwa"; "autoSsr";
     "quoteType"; "createDirectory"].
Proof. reflexivity. Qed.

Lemma prompts_NoDup (g : gen) (u : user) :
  NoDup (map q_name (prompts g u)).
Proof using.
  rewrite prompts_names.
  repeat (constructor;
          [ cbn [In]; intros H;
            repeat (destruct H as [H|H]; [ discriminate H | ]); exact H | ]).
  constructor.
Qed.

Lemma prompt_keys (qs : list question) :
  keys (prompt qs) = map q_name (filter q_when qs).
Proof. unfold keys, prompt. now rewrite map_map. Qed.

(** A question is put exactly when its [when] holds. *)
Lemma asked_iff (g : gen) (u : user) (q : question) :
  In q (prompts (resolve_name g) u) ->
  (In (q_name q) (asked u g) <-> q_when q = true).
Proof using Type.
  intros Hq. unfold asked, Generator.asked. rewrite prompt_keys. split.
  - intros Hin. apply in_map_iff in Hin. destruct Hin as (q' & E & Hin).
    apply filter_In in Hin. destruct Hin as [Hin Hw].
    rewrite <- (NoDup_map_same q_name _ q' q
                  (prompts_NoDup (resolve_name g) u) Hin Hq E).
    exact Hw.
  - intros Hw. apply in_map. apply filter_In. now split.
Qed.

Lemma askFor_props (u : user) (g : gen) :
  props (askFor u g)
  = merge (props (resolve_name g)) (prompt (prompts (resolve_name g) u)).
Proof.
  unfold askFor, Generator.askFor, Generator.relocate.
  match goal with
  | |- context [if ?b then _ else _] => destruct b
  end; reflexivity.
Qed.

(** What a question resolves its field to: the answer when it is put
    (for the answers a merge copies as they are), the value the field
    already had when it is not. *)
Lemma askFor_resolves (u : user) (g : gen) (q : question) :
  In q (prompts (resolve_name g) u) ->
  is_scalar (q_answer q) = true ->
  get (q_name q) (props (askFor u g))
  = if q_when q then q_answer q
    else get (q_name q) (props (resolve_name g)).
Proof.
  intros Hq Hs. rewrite askFor_props.
  destruct (q_when q) eqn:Hw.
  - apply merge_scalar; [ | | exact Hs ].
    + apply prompt_NoDup, prompts_NoDup.
    + unfold prompt.
      change (q_name q, q_answer q)
        with ((fun q => (q_name q, q_answer q)) q).
      apply in_map. apply filter_In. now split.
  - apply merge_frame. intros Hin.
    apply (asked_iff g u q Hq) in Hin. congruence.
Qed.

Lemma resolve_name_frame (g : gen) :
  log (resolve_name g) = log g /\ root (resolve_name g) = root g
  /\ pkg (resolve_name g) = pkg g /\ config (resolve_name g) = config g.
Proof.
  unfold resolve_name, Generator.resolve_name.
  destruct (_ || _); repeat split.
Qed.

Lemma relocate_spec (g : gen) :
  props (relocate g) = props g
  /\ log (relocate g)
     = log g ++ (if truthy (get "createDirectory" (props g))
                 then [Relocated (path_resolve (root g ++ "/" ++ slug g))]
                 else [])
  /\ root (relocate g)
     = if truthy (get "createDirectory" (props g))
       then path_resolve (root g ++ "/" ++ slug g) else root g.
Proof.
  unfold relocate, Generator.relocate.
  destruct (truthy (get "createDirectory" (props g))); repeat split.
  cbn [log]. now rewrite app_nil_r.
Qed.

(** The trace of [askFor]: the questions, the relocation if a new
    directory is wanted, then the write to the store. *)
Lemma askFor_log (u : user) (g : gen) :
  log (askFor u g)
  = log g ++ [Prompted (asked u g)]
    ++ (if truthy (get "createDirectory" (props (askFor u g)))
        then [Relocated (root (askFor u g))] else [])
    ++ [ConfigSet (root (askFor u g)) "serverType"
          (get "serverType" (props (askFor u g)))].
Proof.
  unfold askFor, Generator.askFor. cbn zeta.
  match goal with
  | |- context [Generator.relocate _ _ _ ?g2] =>
      destruct (relocate_spec g2) as (Hp & Hl & Hr);
      fold (relocate g2); generalize dependent (relocate g2)
  end.
  intros g3 Hp Hl Hr.
  cbn [log root props config_set emit]. rewrite Hl, Hp, Hr.
  destruct (resolve_name_frame g) as (Hl1 & _).
  cbn [log root props with_props emit].
  fold (resolve_name g). rewrite Hl1.
  destruct (truthy _); repeat rewrite <- app_assoc; reflexivity.
Qed.

Lemma askFor_root (u : user) (g : gen) :
  root (askFor u g)
  = if truthy (get "createDirectory" (props (askFor u g)))
    then path_resolve
           (root g ++ "/"
              ++ kebabCase (VStr (deburr (get "name" (props (askFor u g))))))
    else root g.
Proof.
  unfold askFor, Generator.askFor. cbn zeta.
  match goal with
  | |- context [Generator.relocate _ _ _ ?g2] =>
      destruct (relocate_spec g2) as (Hp & Hl & Hr);
      fold (relocate g2); generalize dependent (relocate g2)
  end.
  intros g3 Hp Hl Hr.
  cbn [log root props config_set emit]. rewrite Hp, Hr.
  destruct (resolve_name_frame g) as (_ & Hr1 & _).
  unfold slug, Generator.slug.
  cbn [log root props with_props emit].
  fold (resolve_name g). now rewrite Hr1.
Qed.

(** The store [askFor] leaves: the server type written under the root
    of the end. *)
Lemma askFor_config (u : user) (g : gen) :
  config (askFor u g)
  = store_update (root (askFor u g)) "serverType"
      (get "serverType" (props (askFor u g))) (config g).
Proof.
  unfold askFor, Generator.askFor. cbn zeta.
  cbn [config root props config_set emit].
  f_equal.
  unfold Generator.relocate.
  destruct (truthy _); cbn [config destinationRoot emit with_props];
    apply resolve_name_frame.
Qed.

Lemma askFor_templates (u : user) (g : gen) :
  templates (askFor u g) = templates g.
Proof.
  unfold askFor, Generator.askFor. cbn zeta.
  cbn [templates config_set emit]. unfold Generator.relocate.
  destruct (truthy _); cbn [templates destinationRoot emit with_props];
    unfold Generator.resolve_name; destruct (_ || _); reflexivity.
Qed.

Lemma resolve_name_other (g : gen) (k : string) :
  k <> "name" -> get k (props (resolve_name g)) = get k (props g).
Proof.
  intros Hk. unfold resolve_name, Generator.resolve_name.
  destruct (_ || _); cbn [props with_props]; [ | reflexivity ].
  now apply get_set_other.
Qed.

(** C1, as amended.  A name in the manifest is the resolved name,
    whatever the command line says; the name of the command line, in
    kebab case, is the resolved name only when the manifest has none.
    The name is not asked when the manifest has one, nor when the
    command line has one whose kebab-case form is not empty. *)
Theorem name_resolution (u : user) (g : gen) :
  (truthy (get "name" (pkg g)) = true ->
   get "name" (props (askFor u g)) = get "name" (pkg g)
   /\ ~ In "name" (asked u g))
  /\ (forall n : string,
        truthy (get "name" (pkg g)) = false ->
        opt_name (options g) = Some n -> n <> ""%string ->
        kebabCase (VStr n) <> ""%string ->
        get "name" (props (askFor u g)) = VStr (kebabCase (VStr n))
        /\ ~ In "name" (asked u g)).
Proof.
  set (q := {| q_name := "name";
               q_when := negb (truthy (get "name" (props (resolve_name g))));
               q_answer := VStr (ans_name u) |}).
  assert (Hq : In q (prompts (resolve_name g) u)) by (left; reflexivity).
  pose proof (askFor_resolves u g q Hq eq_refl) as Hres.
  pose proof (asked_iff g u q Hq) as Hask.
  cbn [q q_name q_when q_answer] in Hres, Hask.
  split.
  - intros Hm.
    assert (Hn : get "name" (props (resolve_name g)) = get "name" (pkg g)).
    { unfold resolve_name, Generator.resolve_name. rewrite Hm.
      cbn [orb props with_props]. rewrite get_set_same.
      unfold js_or. now rewrite Hm. }
    rewrite Hn, Hm in Hres, Hask. cbn [negb] in Hres, Hask.
    split; [ exact Hres | rewrite Hask; discriminate ].
  - intros n Hm Ho Hne Hk.
    assert (Ht : truthy (VStr (kebabCase (VStr n))) = true).
    { cbn [truthy]. apply negb_true_iff. now apply String.eqb_neq. }
    assert (Hn : get "name" (props (resolve_name g))
                 = VStr (kebabCase (VStr n))).
    { unfold resolve_name, Generator.resolve_name. rewrite Hm, Ho.
      cbn [opt_value truthy orb].
      replace (negb (String.eqb n "")) with true
        by (symmetry; apply negb_true_iff; now apply String.eqb_neq).
      cbn [props with_props]. rewrite get_set_same.
      unfold js_or. now rewrite Hm. }
    rewrite Hn, Ht in Hres, Hask. cbn [negb] in Hres, Hask.
    split; [ exact Hres | rewrite Hask; discriminate ].
Qed.

End Prompting.

Lemma name_resolution_witness :
  get "name"
      (props (Ascii_instance.askFor Ascii_instance.someone
                (Ascii_instance.initialized
                   (Ascii_instance.with_manifest
                      [("name", VStr "from-manifest")])
                   (Ascii_instance.cli_named "from-cli"))))
  = VStr "from-manifest"
  /\ get "name"
         (props (Ascii_instance.askFor Ascii_instance.someone
                   (Ascii_instance.initialized []
                      (Ascii_instance.cli_named "From Cli"))))
     = VStr "from-cli".
Proof.
  split.
  - refine (proj1 (proj1 (name_resolution Ascii_instance.kebabCase
                            Ascii_instance.deburr
                            Ascii_instance.path_resolve
                            Ascii_instance.someone _)
                         _)).
    reflexivity.
  - refine (proj1 (proj2 (name_resolution Ascii_instance.kebabCase
                            Ascii_instance.deburr
                            Ascii_instance.path_resolve
                            Ascii_instance.someone _)
                         "From Cli"%string _ _ _ _));
      [ reflexivity | reflexivity | discriminate | discriminate ].
Defined.

(** C1 as stated fails twice.  With a name in the manifest and one on
    the command line, the resolved name is the manifest's, not the
    command line's; and a command-line name with no letter or digit has
    an empty kebab-case form, so that the name is asked although the
    command line supplies one. *)
Lemma cli_name_does_not_outrank_manifest :
  (let g := Ascii_instance.initialized
              (Ascii_instance.with_manifest [("name", VStr "from-manifest")])
              (Ascii_instance.cli_named "from-cli") in
   get "name" (pkg g) = VStr "from-manifest"
   /\ opt_name (options g) = Some "from-cli"%string
   /\ get "name" (props (Ascii_instance.askFor Ascii_instance.someone g))
      = VStr "from-manifest"
   /\ get "name" (props (Ascii_instance.askFor Ascii_instance.someone g))
      <> VStr "from-cli")
  /\ (let g := Ascii_instance.initialized []
                 (Ascii_instance.cli_named " ") in
      opt_name (options g) = Some " "%string
      /\ In "name" (Ascii_instance.asked Ascii_instance.someone g)).
Proof.
  vm_compute. repeat split; try discriminate. now left.
Qed.

(** ** What [initializing] presets *)

Section Initializing.

Variable kebabCase : value -> string.
Variable deburr : value -> string.
Variable path_resolve : string -> string.
Variable parseAuthor : string -> obj.

Let initializing := Generator.initializing parseAuthor.
Let askFor := Generator.askFor kebabCase deburr path_resolve.
Let resolve_name := Generator.resolve_name kebabCase.
Let asked := Generator.asked kebabCase.

(** The fields preset from the manifest alone. *)
Let props0 (o : obj) : obj :=
  [("name", get "name" o); ("description", get "description" o);
   ("version", get "version" o); ("homepage", get "homepage" o)].

Lemma filter_keywords_author (pkg0 pkg1 : obj) :
  filter_keywords pkg0 = Ret pkg1 -> get "author" pkg1 = get "author" pkg0.
Proof.
  unfold filter_keywords.
  destruct (truthy (get "keywords" pkg0)); [ | now intros [= <-] ].
  destruct (get "keywords" pkg0); try discriminate.
  intros [= <-]. now apply get_set_other.
Qed.

(** [initializing] returns as soon as the manifest parses and its
    keywords, if any, are an array; the state it returns differs from
    the one it starts from by [pkg] and [props] only. *)
Lemma initializing_returns (g0 : gen) (read : json) (pkg0 pkg1 : obj) :
  readJSON (fs g0) (destinationPath g0 "package.json") [] = Ret read ->
  properties read = Ret pkg0 ->
  filter_keywords pkg0 = Ret pkg1 ->
  exists g,
    initializing g0 = Ret g
    /\ pkg g = pkg1 /\ root g = root g0 /\ log g = log g0
    /\ config g = config g0 /\ options g = options g0 /\ fs g = fs g0
    /\ props g
       = if isObject (get "author" pkg0)
         then detect g0 (author_props (get "author" pkg0) (props0 pkg1))
         else match get "author" pkg0 with
              | VStr s => author_props (VObj (parseAuthor s)) (props0 pkg1)
              | _ => props0 pkg1
              end.
Proof.
  intros Hr Hpr Hk. unfold initializing, Generator.initializing.
  rewrite Hr. cbn [bind]. rewrite Hpr. cbn [bind]. rewrite Hk. cbn [bind].
  rewrite (filter_keywords_author _ _ Hk).
  eexists. split; [ reflexivity | ].
  cbn [pkg root log config options fs props with_props with_pkg].
  repeat split.
Qed.

Ltac get_set :=
  repeat first [ rewrite get_set_same
               | rewrite get_set_other by discriminate ].

(** A question of the array, with what it resolves and whether it is
    put. *)
Ltac question u g q Hres Hask :=
  let Hq := fresh "Hq" in
  assert (Hq : In q (prompts (resolve_name g) u))
    by (repeat first [ left; reflexivity | right ]);
  pose proof (askFor_resolves kebabCase deburr path_resolve u g q Hq
                              eq_refl) as Hres;
  pose proof (asked_iff kebabCase g u q Hq) as Hask;
  cbn [q_name q_when q_answer] in Hres, Hask;
  unfold resolve_name in Hres, Hask;
  rewrite ?(resolve_name_other kebabCase g) in Hres, Hask by discriminate;
  clear Hq.

(** Without an author object in the manifest nothing but the manifest
    presets a field: the five detected fields are [undefined]. *)
Lemma undetected (info : value) (o : obj) (k : string) :
  In k ["serverType"; "pwa"; "autoSsr"; "quoteType"; "createDirectory"] ->
  get k (author_props info (props0 o)) = VUndef /\ get k (props0 o) = VUndef.
Proof.
  cbn [In]. intros H.
  repeat (destruct H as [<-|H]; [ split; reflexivity | ]). destruct H.
Qed.

(** C10.  Detection from the files of the destination, and the forcing
    of [createDirectory] to [false], happen only under an author object.
    When the author of the manifest is not an object (absent, or a
    string), the fields preset do not depend on the other files, and
    the server type, [pwa], [autoSsr], the quote style and
    [createDirectory] are each asked and resolved to the answer.  When
    it is an object, [createDirectory] is [false], is not asked, and
    the destination root is not relocated. *)
Theorem detection_gated_by_author (g0 : gen) (read : json)
  (pkg0 pkg1 : obj) (u : user) :
  readJSON (fs g0) (destinationPath g0 "package.json") [] = Ret read ->
  properties read = Ret pkg0 ->
  filter_keywords pkg0 = Ret pkg1 ->
  exists g,
    initializing g0 = Ret g
    /\ (isObject (get "author" pkg0) = false ->
        (forall files : filesystem,
            readJSON files (destinationPath g0 "package.json") [] = Ret read ->
            exists g', initializing (with_fs g0 files) = Ret g'
                       /\ props g' = props g)
        /\ (In "serverType" (asked u g)
            /\ get "serverType" (props (askFor u g))
               = VStr (ans_serverType u))
        /\ (In "pwa" (asked u g)
            /\ get "pwa" (props (askFor u g)) = VBool (ans_pwa u))
        /\ (In "autoSsr" (asked u g)
            /\ get "autoSsr" (props (askFor u g)) = VBool (ans_autoSsr u))
        /\ (In "quoteType" (asked u g)
            /\ get "quoteType" (props (askFor u g))
               = VStr (ans_quoteType u))
        /\ (In "createDirectory" (asked u g)
            /\ get "createDirectory" (props (askFor u g))
               = VBool (ans_createDirectory u)))
    /\ (isObject (get "author" pkg0) = true ->
        ~ In "createDirectory" (asked u g)
        /\ get "createDirectory" (props (askFor u g)) = VBool false
        /\ root (askFor u g) = root g0
        /\ log (askFor u g)
           = log g0 ++ [Prompted (asked u g);
                        ConfigSet (root g0) "serverType"
                          (get "serverType" (props (askFor u g)))]).
Proof.
  intros Hr Hpr Hk.
  destruct (initializing_returns g0 read pkg0 pkg1 Hr Hpr Hk)
    as (g & Hg & Hpkg & Hroot & Hlog & _ & _ & _ & Hprops).
  exists g. split; [ exact Hg | ]. split.
  - intros Ha. rewrite Ha in Hprops.
    assert (Hu : forall k,
               In k ["serverType"; "pwa"; "autoSsr"; "quoteType";
                     "createDirectory"] ->
               get k (props g) = VUndef).
    { intros k Hin. rewrite Hprops.
      destruct (get "author" pkg0);
        first [ exact (proj2 (undetected VUndef pkg1 k Hin))
              | exact (proj1 (undetected _ pkg1 k Hin))
              | discriminate Ha ]. }
    split; [ | repeat split ].
    + intros files Hr'.
      destruct (initializing_returns (with_fs g0 files) read pkg0 pkg1
                  Hr' Hpr Hk)
        as (g' & Hg' & _ & _ & _ & _ & _ & _ & Hprops').
      exists g'. split; [ exact Hg' | ].
      rewrite Hprops', Hprops, Ha. reflexivity.
    + question u g {| q_name := "serverType";
                      q_when := negb (truthy (get "serverType"
                                                (props (resolve_name g))));
                      q_answer := VStr (ans_serverType u) |} Hres Hask.
      rewrite Hu in Hask by (cbn; tauto). now apply Hask.
    + question u g {| q_name := "serverType";
                      q_when := negb (truthy (get "serverType"
                                                (props (resolve_name g))));
                      q_answer := VStr (ans_serverType u) |} Hres Hask.
      rewrite Hu in Hres by (cbn; tauto). exact Hres.
    + question u g {| q_name := "pwa";
                      q_when := is_undefined (get "pwa"
                                                (props (resolve_name g)));
                      q_answer := VBool (ans_pwa u) |} Hres Hask.
      rewrite Hu in Hask by (cbn; tauto). now apply Hask.
    + question u g {| q_name := "pwa";
                      q_when := is_undefined (get "pwa"
                                                (props (resolve_name g)));
                      q_answer := VBool (ans_pwa u) |} Hres Hask.
      rewrite Hu in Hres by (cbn; tauto). exact Hres.
    + question u g {| q_name := "autoSsr";
                      q_when := is_undefined (get "autoSsr"
                                                (props (resolve_name g)));
                      q_answer := VBool (ans_autoSsr u) |} Hres Hask.
      rewrite Hu in Hask by (cbn; tauto). now apply Hask.
    + question u g {| q_name := "autoSsr";
                      q_when := is_undefined (get "autoSsr"
                                                (props (resolve_name g)));
                      q_answer := VBool (ans_autoSsr u) |} Hres Hask.
      rewrite Hu in Hres by (cbn; tauto). exact Hres.
    + question u g {| q_name := "quoteType";
                      q_when := is_undefined (get "quoteType"
                                                (props (resolve_name g)));
                      q_answer := VStr (ans_quoteType u) |} Hres Hask.
      rewrite Hu in Hask by (cbn; tauto). now apply Hask.
    + question u g {| q_name := "quoteType";
                      q_when := is_undefined (get "quoteType"
                                                (props (resolve_name g)));
                      q_answer := VStr (ans_quoteType u) |} Hres Hask.
      rewrite Hu in Hres by (cbn; tauto). exact Hres.
    + question u g {| q_name := "createDirectory";
                      q_when := is_undefined (get "createDirectory"
                                                (props (resolve_name g)));
                      q_answer := VBool (ans_createDirectory u) |} Hres Hask.
      rewrite Hu in Hask by (cbn; tauto). now apply Hask.
    + question u g {| q_name := "createDirectory";
                      q_when := is_undefined (get "createDirectory"
                                                (props (resolve_name g)));
                      q_answer := VBool (ans_createDirectory u) |} Hres Hask.
      rewrite Hu in Hres by (cbn; tauto). exact Hres.
  - intros Ha. rewrite Ha in Hprops.
    question u g {| q_name := "createDirectory";
                    q_when := is_undefined (get "createDirectory"
                                              (props (resolve_name g)));
                    q_answer := VBool (ans_createDirectory u) |} Hres Hask.
    assert (Hc : get "createDirectory" (props g) = VBool false).
    { rewrite Hprops. unfold detect. now get_set. }
    rewrite Hc in Hres, Hask. cbv beta iota delta [is_undefined] in Hres, Hask.
    pose proof (askFor_root kebabCase deburr path_resolve u g) as Hro.
    pose proof (askFor_log kebabCase deburr path_resolve u g) as Hl.
    unfold askFor, asked in *. rewrite Hres in Hro, Hl.
    cbn [truthy app] in Hro, Hl. rewrite Hroot in Hro. rewrite Hro, Hlog in Hl.
    repeat split; try assumption.
    rewrite Hask. discriminate.
Qed.

(** C2, as amended.  When the author of the manifest is an object,
    [initializing] returns whatever marker files are missing, and the
    server type is resolved from the entry files of the destination
    without being asked: ExpressJS when the ExpressJS entry file exists,
    else KoaJS when the KoaJS one exists, else HapiJS. *)
Theorem server_type_detection (g0 : gen) (read : json)
  (pkg0 pkg1 : obj) (u : user) :
  readJSON (fs g0) (destinationPath g0 "package.json") [] = Ret read ->
  properties read = Ret pkg0 ->
  filter_keywords pkg0 = Ret pkg1 ->
  isObject (get "author" pkg0) = true ->
  exists g,
    initializing g0 = Ret g
    /\ get "serverType" (props (askFor u g))
       = (if fs_exists (fs g0) (destinationPath g0 express_entry)
          then VStr ExpressJS
          else if fs_exists (fs g0) (destinationPath g0 koa_entry)
               then VStr KoaJS else VStr HapiJS)
    /\ ~ In "serverType" (asked u g).
Proof.
  intros Hr Hpr Hk Ha.
  destruct (initializing_returns g0 read pkg0 pkg1 Hr Hpr Hk)
    as (g & Hg & _ & _ & _ & _ & _ & _ & Hprops).
  exists g. split; [ exact Hg | ]. rewrite Ha in Hprops.
  question u g {| q_name := "serverType";
                  q_when := negb (truthy (get "serverType"
                                            (props (resolve_name g))));
                  q_answer := VStr (ans_serverType u) |} Hres Hask.
  assert (Hs : get "serverType" (props g)
               = if fs_exists (fs g0) (destinationPath g0 express_entry)
                 then VStr ExpressJS
                 else if fs_exists (fs g0) (destinationPath g0 koa_entry)
                      then VStr KoaJS else VStr HapiJS).
  { rewrite Hprops. unfold detect. now get_set. }
  assert (Ht : truthy (get "serverType" (props g)) = true).
  { rewrite Hs. now repeat destruct (fs_exists _ _). }
  rewrite Ht in Hres, Hask. cbn [negb] in Hres, Hask.
  unfold askFor, asked. rewrite Hres, Hask. split; [ exact Hs | discriminate ].
Qed.

(** C9.  When the author of the manifest is a string, [initializing]
    returns, with the three author fields set to what the parser
    produced.  A field the parser produced (and that is not empty) is
    kept and not asked; a field it did not produce is asked and resolved
    to the answer. *)
Theorem author_string_resolution (g0 : gen) (read : json)
  (pkg0 pkg1 : obj) (u : user) (s : string) :
  readJSON (fs g0) (destinationPath g0 "package.json") [] = Ret read ->
  properties read = Ret pkg0 ->
  filter_keywords pkg0 = Ret pkg1 ->
  get "author" pkg0 = VStr s ->
  exists g,
    initializing g0 = Ret g
    /\ forall (field prop answer : string),
        In (field, prop, answer)
           [("name", "authorName", ans_authorName u);
            ("email", "authorEmail", ans_authorEmail u);
            ("url", "authorUrl", ans_authorUrl u)]%string ->
        let v := get field (parseAuthor s) in
        get prop (props g) = v
        /\ (truthy v = true ->
            ~ In prop (asked u g) /\ get prop (props (askFor u g)) = v)
        /\ (truthy v = false ->
            In prop (asked u g)
            /\ get prop (props (askFor u g)) = VStr answer).
Proof.
  intros Hr Hpr Hk Ha.
  destruct (initializing_returns g0 read pkg0 pkg1 Hr Hpr Hk)
    as (g & Hg & _ & _ & _ & _ & _ & _ & Hprops).
  exists g. split; [ exact Hg | ].
  rewrite Ha in Hprops. cbn [isObject] in Hprops.
  unfold askFor, asked.
  intros field prop answer Hin. cbv zeta. cbn [In] in Hin.
  destruct Hin as [E|[E|[E|[]]]]; injection E as <- <- <-.
  - question u g {| q_name := "authorName";
                    q_when := negb (truthy (get "authorName"
                                              (props (resolve_name g))));
                    q_answer := VStr (ans_authorName u) |} Hres Hask.
    assert (Hs : get "authorName" (props g) = get "name" (parseAuthor s))
      by (rewrite Hprops; unfold author_props; now get_set).
    rewrite Hs in Hres, Hask. split; [ exact Hs | ].
    split; intros Ht; rewrite Ht in Hres, Hask; cbn [negb] in Hres, Hask;
      (split; [ rewrite Hask; auto; discriminate | exact Hres ]).
  - question u g {| q_name := "authorEmail";
                    q_when := negb (truthy (get "authorEmail"
                                              (props (resolve_name g))));
                    q_answer := VStr (ans_authorEmail u) |} Hres Hask.
    assert (Hs : get "authorEmail" (props g) = get "email" (parseAuthor s))
      by (rewrite Hprops; unfold author_props; now get_set).
    rewrite Hs in Hres, Hask. split; [ exact Hs | ].
    split; intros Ht; rewrite Ht in Hres, Hask; cbn [negb] in Hres, Hask;
      (split; [ rewrite Hask; auto; discriminate | exact Hres ]).
  - question u g {| q_name := "authorUrl";
                    q_when := negb (truthy (get "authorUrl"
                                              (props (resolve_name g))));
                    q_answer := VStr (ans_authorUrl u) |} Hres Hask.
    assert (Hs : get "authorUrl" (props g) = get "url" (parseAuthor s))
      by (rewrite Hprops; unfold author_props; now get_set).
    rewrite Hs in Hres, Hask. split; [ exact Hs | ].
    split; intros Ht; rewrite Ht in Hres, Hask; cbn [negb] in Hres, Hask;
      (split; [ rewrite Hask; auto; discriminate | exact Hres ]).
Qed.

End Initializing.

Lemma server_type_detection_witness :
  exists g,
    Ascii_instance.initializing Ascii_instance.koa_project = Ret g
    /\ get "serverType"
           (props (Ascii_instance.askFor Ascii_instance.someone g))
       = VStr KoaJS
    /\ ~ In "serverType" (Ascii_instance.asked Ascii_instance.someone g).
Proof.
  exact (server_type_detection
           Ascii_instance.kebabCase Ascii_instance.deburr
           Ascii_instance.path_resolve Ascii_instance.parseAuthor
           Ascii_instance.koa_project
           (JObject [("name", VStr "shop");
                     ("author", VObj [("name", VStr "Ann")])])
           [("name", VStr "shop"); ("author", VObj [("name", VStr "Ann")])]
           [("name", VStr "shop"); ("author", VObj [("name", VStr "Ann")])]
           Ascii_instance.someone eq_refl eq_refl eq_refl eq_refl).
Defined.

(** C2 as stated fails when the manifest has no author object: the
    ExpressJS entry file exists, yet the server type is asked and
    resolved to the answer. *)
Lemma entry_file_without_author_is_asked :
  let g0 := Ascii_instance.express_files in
  exists g,
    Ascii_instance.initializing g0 = Ret g
    /\ fs_exists (fs g0) (destinationPath g0 express_entry) = true
    /\ In "serverType" (Ascii_instance.asked Ascii_instance.someone g)
    /\ get "serverType"
           (props (Ascii_instance.askFor Ascii_instance.someone g))
       = VStr KoaJS.
Proof.
  eexists. split; [ reflexivity | ].
  vm_compute. repeat split. tauto.
Qed.

Lemma author_string_resolution_witness :
  exists g,
    Ascii_instance.initializing Ascii_instance.ann_project = Ret g
    /\ forall (field prop answer : string),
        In (field, prop, answer)
           [("name", "authorName", "Ann");
            ("email", "authorEmail", "ann@example.org");
            ("url", "authorUrl", "http://ann.example.org")]%string ->
        let v := get field (Ascii_instance.parseAuthor "Ann") in
        get prop (props g) = v
        /\ (truthy v = true ->
            ~ In prop (Ascii_instance.asked Ascii_instance.someone g)
            /\ get prop (props (Ascii_instance.askFor
                                  Ascii_instance.someone g)) = v)
        /\ (truthy v = false ->
            In prop (Ascii_instance.asked Ascii_instance.someone g)
            /\ get prop (props (Ascii_instance.askFor
                                  Ascii_instance.someone g))
               = VStr answer).
Proof.
  exact (author_string_resolution
           Ascii_instance.kebabCase Ascii_instance.deburr
           Ascii_instance.path_resolve Ascii_instance.parseAuthor
           Ascii_instance.ann_project
           (JObject [("author", VStr "Ann")])
           [("author", VStr "Ann")] [("author", VStr "Ann")]
           Ascii_instance.someone "Ann" eq_refl eq_refl eq_refl eq_refl).
Defined.

Lemma detection_gated_by_author_witness :
  (exists g,
      Ascii_instance.initializing Ascii_instance.ann_project = Ret g
      /\ In "serverType" (Ascii_instance.asked Ascii_instance.someone g)
      /\ get "createDirectory"
             (props (Ascii_instance.askFor Ascii_instance.someone g))
         = VBool true)
  /\ (exists g,
         Ascii_instance.initializing Ascii_instance.koa_project = Ret g
         /\ get "createDirectory"
                (props (Ascii_instance.askFor Ascii_instance.someone g))
            = VBool false
         /\ root (Ascii_instance.askFor Ascii_instance.someone g)
            = "/work"%string).
Proof.
  split.
  - destruct (detection_gated_by_author
                Ascii_instance.kebabCase Ascii_instance.deburr
                Ascii_instance.path_resolve Ascii_instance.parseAuthor
                Ascii_instance.ann_project
                (JObject [("author", VStr "Ann")])
                [("author", VStr "Ann")] [("author", VStr "Ann")]
                Ascii_instance.someone eq_refl eq_refl eq_refl)
      as (g & Hg & Hstring & _).
    exists g. split; [ exact Hg | ].
    destruct (Hstring eq_refl) as (_ & [Hs _] & _ & _ & _ & [_ Hc]).
    split; [ exact Hs | exact Hc ].
  - destruct (detection_gated_by_author
                Ascii_instance.kebabCase Ascii_instance.deburr
                Ascii_instance.path_resolve Ascii_instance.parseAuthor
                Ascii_instance.koa_project
                (JObject [("name", VStr "shop");
                          ("author", VObj [("name", VStr "Ann")])])
                [("name", VStr "shop");
                 ("author", VObj [("name", VStr "Ann")])]
                [("name", VStr "shop");
                 ("author", VObj [("name", VStr "Ann")])]
                Ascii_instance.someone eq_refl eq_refl eq_refl)
      as (g & Hg & _ & Hobject).
    exists g. split; [ exact Hg | ].
    destruct (Hobject eq_refl) as (_ & Hc & Hr & _).
    split; [ exact Hc | exact Hr ].
Defined.

(** ** Relocation of the destination root *)

Lemma store_update_find (r k : string) (v : value) (c : list (string * obj)) :
  get k (store_find r (store_update r k v c)) = v.
Proof.
  induction c as [|[r' o] c IH]; cbn [store_update store_find].
  - rewrite String.eqb_refl. cbn [get lookup]. unfold get. cbn [lookup].
    now rewrite String.eqb_refl.
  - destruct (String.eqb r r') eqn:E; cbn [store_find]; rewrite E.
    + apply get_set_same.
    + exact IH.
Qed.

Section Relocation.

Variable kebabCase : value -> string.
Variable deburr : value -> string.
Variable path_resolve : string -> string.
Variable path_join : string -> string -> string.
Variable render_package : bool -> bool -> value -> value -> obj.

Let askFor := Generator.askFor kebabCase deburr path_resolve.
Let asked := Generator.asked kebabCase.
Let writing := Generator.writing kebabCase path_join render_package.

(** C4, as amended.  When [createDirectory] resolves to a true value,
    [askFor] moves the destination root to what [path.resolve] gives
    for the kebab-case form of the deburred project name under the root
    it starts from, and only then writes the server type to the store,
    which is the store of the new root.  The manifest is written later,
    by [writing], under the new root. *)
Theorem relocation_precedes_store_and_manifest (u : user) (g g' : gen) :
  truthy (get "createDirectory" (props (askFor u g))) = true ->
  writing (askFor u g) = Ret g' ->
  let name := get "name" (props (askFor u g)) in
  let serverType := get "serverType" (props (askFor u g)) in
  let newRoot :=
    path_resolve (root g ++ "/" ++ kebabCase (VStr (deburr name))) in
  root (askFor u g) = newRoot
  /\ config (askFor u g)
     = store_update newRoot "serverType" serverType (config g)
  /\ config_get (askFor u g) "serverType" = serverType
  /\ root g' = newRoot
  /\ exists pkg' rest,
      log g'
      = log g
        ++ [Prompted (asked u g);
            Relocated newRoot;
            ConfigSet newRoot "serverType" serverType;
            CopyTpl (templates g ++ "/_package.json")
                    (newRoot ++ "/_package.json") [];
            Deleted (newRoot ++ "/_package.json");
            WroteJSON (newRoot ++ "/package.json") pkg']
        ++ rest
      /\ Forall (fun e => match e with
                          | CopyTpl _ _ _ | Moved _ _ | Copied _ _ => True
                          | _ => False
                          end) rest.
Proof.
  intros Hc Hw name serverType newRoot.
  pose proof (askFor_root kebabCase deburr path_resolve u g) as Hroot.
  pose proof (askFor_log kebabCase deburr path_resolve u g) as Hlog.
  pose proof (askFor_config kebabCase deburr path_resolve u g) as Hconf.
  fold askFor asked in Hroot, Hlog, Hconf.
  rewrite Hc in Hroot, Hlog. fold name newRoot in Hroot.
  rewrite Hroot in Hlog, Hconf. fold serverType in Hlog, Hconf.
  split; [ exact Hroot | ]. split; [ exact Hconf | ].
  split.
  { unfold config_get. rewrite Hconf, Hroot. apply store_update_find. }
  destruct (writing_inv kebabCase path_join render_package _ _ Hw)
    as (currentPkg & pkg' & _ & _ & Hr' & _ & _ & rest & Hl' & Hrest).
  split; [ now rewrite Hr' | ].
  exists pkg'. eexists. split.
  - rewrite Hl', Hlog. unfold destinationPath, templatePath.
    rewrite Hroot.
    unfold askFor.
    rewrite !(askFor_templates kebabCase deburr path_resolve u g).
    repeat rewrite <- app_assoc. cbn [app]. reflexivity.
  - apply Forall_app. split.
    + apply Forall_forall. intros e He. apply in_map_iff in He.
      now destruct He as (f & <- & _).
    + constructor; [ exact I | exact Hrest ].
Qed.

End Relocation.

Lemma relocation_precedes_store_and_manifest_witness :
  exists g',
    Ascii_instance.writing
      (Ascii_instance.askFor Ascii_instance.someone
         (Ascii_instance.fresh [] Ascii_instance.no_options)) = Ret g'
    /\ root g' = "/work/my-cool-app"%string
    /\ config_get (Ascii_instance.askFor Ascii_instance.someone
                     (Ascii_instance.fresh [] Ascii_instance.no_options))
                  "serverType" = VStr KoaJS.
Proof.
  unfold Ascii_instance.writing, Ascii_instance.askFor.
  destruct (Generator.writing _ _ _ _) as [g'|e] eqn:Hw;
    [ | vm_compute in Hw; discriminate Hw ].
  exists g'. split; [ reflexivity | ].
  pose proof (fun Hc =>
                relocation_precedes_store_and_manifest
                  Ascii_instance.kebabCase Ascii_instance.deburr
                  Ascii_instance.path_resolve Ascii_instance.path_join
                  Ascii_instance.render_package
                  Ascii_instance.someone
                  (Ascii_instance.fresh [] Ascii_instance.no_options)
                  g' Hc Hw) as H.
  destruct H as (_ & _ & Hs & Hr & _); [ vm_compute; reflexivity | ].
  split; [ rewrite Hr | rewrite Hs ]; vm_compute; reflexivity.
Defined.

(** C4 as stated fails for a name without a letter or a digit: its
    kebab-case form is empty, and the root that [path.resolve] gives is
    the root [askFor] started from, not a sub-directory of it. *)
Lemma nameless_project_is_not_relocated :
  let g := Ascii_instance.fresh [] Ascii_instance.no_options in
  let g' := Ascii_instance.askFor Ascii_instance.unnamed g in
  truthy (get "createDirectory" (props g')) = true
  /\ get "name" (props g') = VStr "!!!"
  /\ Ascii_instance.kebabCase
       (VStr (Ascii_instance.deburr (get "name" (props g')))) = ""%string
  /\ root g' = root g
  /\ root g' <> (root g ++ "/")%string.
Proof.
  vm_compute. repeat split. discriminate.
Qed.

(** * Further properties *)

(** ** Objects, key by key *)

Lemma get_set (k k' : string) (v : value) (o : obj) :
  get k' (set k v o) = if String.eqb k' k then v else get k' o.
Proof.
  destruct (String.eqb k' k) eqn:E.
  - apply String.eqb_eq in E. subst. apply get_set_same.
  - apply String.eqb_neq in E. now apply get_set_other.
Qed.

Lemma has_in (k : string) (o : obj) : has k o = true <-> In k (keys o).
Proof.
  unfold has. induction o as [|[k' v] o IH]; cbn [lookup keys map fst In].
  - split; [ discriminate | tauto ].
  - destruct (String.eqb k k') eqn:E.
    + apply String.eqb_eq in E. subst. tauto.
    + apply String.eqb_neq in E. rewrite IH. unfold keys.
      split; [ tauto | intros [H|H]; congruence ].
Qed.

Lemma lookup_get (k : string) (v : value) (o : obj) :
  lookup k o = Some v -> get k o = v /\ has k o = true /\ In (k, v) o.
Proof.
  unfold get, has. intros H. rewrite H. repeat split.
  induction o as [|[k' v'] o IH]; cbn [lookup] in H; [ discriminate | ].
  destruct (String.eqb k k') eqn:E.
  - apply String.eqb_eq in E. injection H as ->. subst. now left.
  - right. now apply IH.
Qed.

Lemma lookup_none (k : string) (o : obj) :
  lookup k o = None -> ~ In k (keys o).
Proof.
  intros H Hin. apply has_in in Hin. unfold has in Hin.
  now rewrite H in Hin.
Qed.

Lemma keys_set (k : string) (v : value) (o : obj) :
  keys (set k v o) = if has k o then keys o else keys o ++ [k].
Proof.
  unfold has. induction o as [|[k' v'] o IH]; cbn [set lookup keys map fst app].
  - reflexivity.
  - destruct (String.eqb k k') eqn:E; cbn [map fst].
    + apply String.eqb_eq in E. now subst.
    + fold (keys (set k v o)). rewrite IH. fold (keys o).
      now destruct (lookup k o).
Qed.

(** Writing a property keeps the names of an object distinct. *)
Lemma NoDup_set (k : string) (v : value) (o : obj) :
  NoDup (keys o) -> NoDup (keys (set k v o)).
Proof.
  intros Hn. rewrite keys_set. destruct (has k o) eqn:E; [ exact Hn | ].
  apply NoDup_app; [ exact Hn | repeat constructor; cbn; tauto | ]. 
  intros x Hx [<-|[]]. apply has_in in Hx. congruence.
Qed.

(** ** The deep merges, key by key *)

Lemma vset_isObject (object : value) (k : string) (x : value) :
  isObject (vset object k x) = isObject object.
Proof.
  destruct object; cbn [vset isObject]; try reflexivity.
  now destruct (index_of_key k).
Qed.

Lemma merge_prop_isObject (deflt : bool) (object : value)
  (ksv : string * value) :
  isObject (merge_prop deflt object ksv) = isObject object.
Proof.
  destruct ksv as [k sv]. unfold merge_prop, assignMergeValue.
  repeat match goal with
         | |- context [if ?b then _ else _] => destruct b
         end; try reflexivity; apply vset_isObject.
Qed.

(** A merge into an array or an object gives an array or an object. *)
Lemma baseMerge_isObject (deflt : bool) (object source : value) :
  isObject (baseMerge deflt object source) = isObject object.
Proof.
  destruct source; try reflexivity.
  - rewrite baseMerge_arr. generalize 0. revert object.
    induction l as [|sv xs IH]; intros object i; cbn [merge_elems].
    + reflexivity.
    + now rewrite IH, merge_prop_isObject.
  - rewrite baseMerge_obj. revert object.
    induction l as [|ksv kvs IH]; intros object; cbn [fold_left].
    + reflexivity.
    + now rewrite IH, merge_prop_isObject.
Qed.

Lemma merge_start_isObject (ov sv : value) :
  isObject (merge_start ov sv) = true.
Proof.
  unfold merge_start. destruct sv; try (now destruct ov).
Qed.

(** The names of the result of a merge are distinct when those of the
    target are. *)
Lemma merge_fold_NoDup (deflt : bool) (kvs o : obj) :
  NoDup (keys o) ->
  exists o',
    fold_left (merge_prop deflt) kvs (VObj o) = VObj o' /\ NoDup (keys o').
Proof.
  revert o. induction kvs as [|[k0 v0] kvs IH]; intros o Hn; cbn [fold_left].
  - now exists o.
  - destruct (merge_prop_shape deflt o k0 v0) as [-> | [x ->]].
    + now apply IH.
    + apply IH. now apply NoDup_set.
Qed.

(** With distinct names in the source, the property [k] of the result
    is the one written by the step for [k], run on an object that still
    has the target's property [k]. *)
Lemma merge_fold_at (deflt : bool) (kvs o : obj) (k : string) (sv : value) :
  NoDup (keys kvs) -> In (k, sv) kvs ->
  exists o1 o2 o',
    fold_left (merge_prop deflt) kvs (VObj o) = VObj o'
    /\ get k o1 = get k o /\ has k o1 = has k o
    /\ merge_prop deflt (VObj o1) (k, sv) = VObj o2
    /\ get k o' = get k o2.
Proof.
  revert o. induction kvs as [|[k0 v0] kvs IH]; intros o Hn Hi;
    [ destruct Hi | ].
  cbn [keys map fst] in Hn. inversion Hn as [|? ? Hk Hn']; subst.
  cbn [fold_left]. destruct Hi as [Hi|Hi].
  - injection Hi as -> ->.
    destruct (merge_prop_shape deflt o k sv) as [E | [x E]]; rewrite E;
      match goal with
      | |- context [fold_left _ kvs (VObj ?o2)] =>
          destruct (merge_fold_frame deflt kvs o2) as (o' & -> & Hf);
          exists o, o2, o'
      end; repeat split; auto; now apply Hf.
  - assert (Hne : k <> k0).
    { intros ->. apply Hk. change k0 with (fst (k0, sv)). now apply in_map. }
    destruct (merge_prop_shape deflt o k0 v0) as [-> | [x ->]].
    + now apply IH.
    + destruct (IH (set k0 x o) Hn' Hi) as (o1 & o2 & o' & E & Hg & Hh & Hs).
      exists o1, o2, o'. split; [ exact E | ].
      rewrite Hg, Hh, get_set_other, has_set_other by exact Hne. auto.
Qed.

Lemma assign_object (o : obj) (k : string) (x : value) :
  isObject x = true -> assignMergeValue (VObj o) k x = VObj (set k x o).
Proof.
  intros Hx. unfold assignMergeValue. cbn [vget vhas vset].
  destruct x; try discriminate Hx; cbn [is_undefined];
    now destruct (get k o).
Qed.

(** The property [k] after [_.merge(o, src)]: a source value that is
    not an object replaces it unless it is [undefined]; an array or an
    object in the source leaves an array or an object. *)
Lemma merge_get (o src : obj) (k : string) (sv : value) :
  NoDup (keys src) -> lookup k src = Some sv ->
  (isObject sv = false ->
   get k (merge o src) = if is_undefined sv then get k o else sv)
  /\ (isObject sv = true -> isObject (get k (merge o src)) = true).
Proof.
  intros Hn Hl. apply lookup_get in Hl. destruct Hl as (_ & _ & Hi).
  unfold merge. rewrite baseMerge_obj.
  destruct (merge_fold_at false src o k sv Hn Hi)
    as (o1 & o2 & o' & -> & Hg & Hh & Hs & ->).
  unfold merge_prop in Hs. cbn [vget andb] in Hs.
  split; intros Hsv; rewrite Hsv in Hs.
  - unfold assignMergeValue in Hs. cbn [vget vhas vset] in Hs.
    destruct (is_undefined sv) eqn:Eu.
    + destruct (has k o1) eqn:Eh; injection Hs as <-; [ exact Hg | ].
      rewrite get_set_same. destruct sv; try discriminate.
      rewrite <- Hg. symmetry. apply get_not_in.
      intros Hin. apply has_in in Hin. congruence.
    + destruct (same_value (get k o1) sv) eqn:Es; injection Hs as <-.
      * now apply same_value_eq.
      * apply get_set_same.
  - rewrite assign_object in Hs
      by (now rewrite baseMerge_isObject, merge_start_isObject).
    injection Hs as <-. rewrite get_set_same.
    now rewrite baseMerge_isObject, merge_start_isObject.
Qed.

Lemma defaultsDeep_frame (o d : obj) (k : string) :
  ~ In k (keys d) -> get k (defaultsDeep o d) = get k o.
Proof.
  intros Hk. unfold defaultsDeep. rewrite baseMerge_obj.
  destruct (merge_fold_frame true d o) as (o' & -> & Hf).
  now apply Hf.
Qed.

(** The property [k] after [_.defaultsDeep(o, d)]: a value of [o] that
    is neither [undefined] nor an object is kept; where [o] has
    [undefined], a default that is not an object is taken. *)
Lemma defaultsDeep_get (o d : obj) (k : string) (sv : value) :
  NoDup (keys d) -> lookup k d = Some sv ->
  (is_undefined (get k o) = false -> isObject (get k o) = false ->
   get k (defaultsDeep o d) = get k o)
  /\ (get k o = VUndef -> isObject sv = false ->
      get k (defaultsDeep o d) = sv).
Proof.
  intros Hn Hl. apply lookup_get in Hl. destruct Hl as (_ & _ & Hi).
  unfold defaultsDeep. rewrite baseMerge_obj.
  destruct (merge_fold_at true d o k sv Hn Hi)
    as (o1 & o2 & o' & -> & Hg & Hh & Hs & ->).
  unfold merge_prop in Hs. cbn [vget andb] in Hs. rewrite Hg in Hs.
  split.
  - intros Hu Ho. rewrite Hu, Ho in Hs. cbn [negb] in Hs.
    destruct (isObject sv); injection Hs as <-; exact Hg.
  - intros Hu Ho. rewrite Hu, Ho in Hs. cbn [is_undefined negb] in Hs.
    unfold assignMergeValue in Hs. cbn [vget vhas vset] in Hs.
    rewrite Hg, Hu in Hs.
    destruct (is_undefined sv) eqn:Eu.
    + destruct sv; try discriminate Eu.
      destruct (has k o1); injection Hs as <-;
        [ now rewrite Hg | apply get_set_same ].
    + replace (same_value VUndef sv) with false in Hs
        by (now destruct sv).
      injection Hs as <-. apply get_set_same.
Qed.

Lemma defaultsDeep_NoDup (o d : obj) :
  NoDup (keys o) -> NoDup (keys (defaultsDeep o d)).
Proof.
  intros Hn. unfold defaultsDeep. rewrite baseMerge_obj.
  now destruct (merge_fold_NoDup true d o Hn) as (o' & -> & Hn').
Qed.

Lemma merge_NoDup (o src : obj) :
  NoDup (keys o) -> NoDup (keys (merge o src)).
Proof.
  intros Hn. unfold merge. rewrite baseMerge_obj.
  now destruct (merge_fold_NoDup false src o Hn) as (o' & -> & Hn').
Qed.

(** ** The manifest that [writing] computes *)

Lemma blank_fold (fields : list string) (o : obj) (k : string) :
  NoDup fields ->
  get k (fold_left (fun o x => set x (js_or (get x o) VUndef) o) fields o)
  = if existsb (String.eqb k) fields then js_or (get k o) VUndef
    else get k o.
Proof.
  revert o. induction fields as [|x fields IH]; intros o Hn;
    cbn [fold_left existsb]; [ reflexivity | ].
  inversion Hn as [|? ? Hx Hn']; subst.
  rewrite IH by exact Hn'. rewrite get_set.
  destruct (String.eqb k x) eqn:E; cbn [orb]; [ | reflexivity ].
  apply String.eqb_eq in E. subst x.
  replace (existsb (String.eqb k) fields) with false; [ reflexivity | ].
  symmetry. apply not_true_is_false. intros He.
  apply existsb_exists in He. destruct He as (y & Hy & Ey).
  apply String.eqb_eq in Ey. now subst.
Qed.

Lemma scalar_fields_NoDup : NoDup scalar_fields.
Proof.
  unfold scalar_fields.
  repeat (constructor; [ cbn [In]; intuition discriminate | ]).
  constructor.
Qed.

(** Blanking turns the falsy scalar fields into [undefined] and leaves
    everything else as it is. *)
Lemma blank_falsy_get (o : obj) (k : string) :
  get k (blank_falsy o)
  = if existsb (String.eqb k) scalar_fields then js_or (get k o) VUndef
    else get k o.
Proof. unfold blank_falsy. apply blank_fold, scalar_fields_NoDup. Qed.

Lemma blank_falsy_NoDup (o : obj) :
  NoDup (keys o) -> NoDup (keys (blank_falsy o)).
Proof.
  unfold blank_falsy. generalize scalar_fields. intros fields. revert o.
  induction fields as [|x fields IH]; intros o Hn; cbn [fold_left].
  - exact Hn.
  - apply IH. now apply NoDup_set.
Qed.

Lemma get_lookup (k : string) (v : value) (o : obj) :
  get k o = v -> v <> VUndef -> lookup k o = Some v.
Proof.
  unfold get. destruct (lookup k o); intros H Hv; congruence.
Qed.

Lemma sortDep_get (dep k : string) (o o' : obj) :
  sortDep dep o = Ret o' ->
  (k = dep -> typeof_object (get k o) = false) ->
  get k o' = get k o.
Proof.
  unfold sortDep. intros H Hk.
  destruct (String.eqb k dep) eqn:E.
  - apply String.eqb_eq in E. subst k. rewrite (Hk eq_refl) in H.
    now injection H as <-.
  - apply String.eqb_neq in E.
    destruct (typeof_object (get dep o)); [ | now injection H as <- ].
    destruct (get dep o); try discriminate; injection H as <-;
      now apply get_set_other.
Qed.

(** Sorting the dependency groups leaves alone every property that is
    not an array or an object. *)
Lemma sortDeps_get (deps : list string) (k : string) (o o' : obj) :
  sortDeps deps o = Ret o' ->
  (In k deps -> typeof_object (get k o) = false) ->
  get k o' = get k o.
Proof.
  revert o. induction deps as [|dep deps IH]; intros o H Hk;
    cbn [sortDeps] in H.
  - now injection H as <-.
  - destruct (sortDep dep o) as [o1|] eqn:E; cbn [bind] in H;
      [ | discriminate ].
    assert (H1 : get k o1 = get k o).
    { apply (sortDep_get dep k o o1 E). intros ->. apply Hk. now left. }
    rewrite <- H1. apply IH; [ exact H | ].
    intros Hin. rewrite H1. apply Hk. now right.
Qed.

Section Manifest.

Variable kebabCase : value -> string.
Variable path_join : string -> string -> string.

Let manifest := Generator.manifest kebabCase path_join.
Let generated_defaults := Generator.generated_defaults kebabCase path_join.

Lemma generated_defaults_NoDup (g : gen) : NoDup (keys (generated_defaults g)).
Proof.
  cbn [generated_defaults Generator.generated_defaults keys map fst].
  repeat (constructor; [ cbn [In]; intuition discriminate | ]).
  constructor.
Qed.

Lemma combine_keywords_other (g : gen) (o : obj) (k : string) :
  k <> "keywords"%string -> get k (combine_keywords g o) = get k o.
Proof.
  intros Hk. unfold combine_keywords.
  destruct (get "keywords" (props g)); try reflexivity.
  now apply get_set_other.
Qed.

(** The fields of the user's manifest are not overwritten: a property
    of the manifest on disk whose value is a string, a number, a
    boolean or [null] is written back as it is, whatever the template
    and the answers hold.  (For the six fields that [writing] blanks
    when falsy, the value has to be truthy; [keywords] is combined
    separately; a [null] dependency group makes [writing] throw.) *)
Theorem manifest_keeps_user_fields (g : gen) (currentPkg defaultPkg pkg' : obj)
  (k : string) (v : value) :
  NoDup (keys currentPkg) ->
  get k currentPkg = v -> is_scalar v = true ->
  k <> "keywords"%string ->
  (In k scalar_fields -> truthy v = true) ->
  (In k dependency_groups -> v <> VNull) ->
  manifest g currentPkg defaultPkg = Ret pkg' ->
  get k pkg' = v.
Proof.
  intros Hn Hv Hs Hkw Ht Hd Hm.
  unfold manifest, Generator.manifest in Hm.
  assert (Hu : v <> VUndef) by (intros ->; discriminate).
  assert (Hb : get k (blank_falsy currentPkg) = v).
  { rewrite blank_falsy_get, Hv.
    destruct (existsb (String.eqb k) scalar_fields) eqn:E; [ | reflexivity ].
    unfold js_or. rewrite Ht; [ reflexivity | ].
    apply existsb_exists in E. destruct E as (x & Hx & E).
    apply String.eqb_eq in E. now subst. }
  set (d := Generator.generated_defaults kebabCase path_join g) in *.
  assert (Hup : get k (defaultsDeep (blank_falsy currentPkg) d) = v).
  { destruct (lookup k d) as [sv|] eqn:El.
    - destruct (defaultsDeep_get (blank_falsy currentPkg) d k sv
                  (generated_defaults_NoDup g) El) as [H _].
      rewrite Hb in H. apply H; now destruct v.
    - rewrite defaultsDeep_frame; [ exact Hb | now apply lookup_none ]. }
  set (upd := defaultsDeep (blank_falsy currentPkg) d) in *.
  assert (Hnu : NoDup (keys upd))
    by (apply defaultsDeep_NoDup, blank_falsy_NoDup, Hn).
  assert (Hme : get k (merge (merge [] defaultPkg) upd) = v).
  { destruct (merge_get (merge [] defaultPkg) upd k v Hnu
                (get_lookup k v upd Hup Hu)) as [H _].
    rewrite H by (now destruct v). now destruct v. }
  rewrite (sortDeps_get _ k _ _ Hm);
    rewrite combine_keywords_other, Hme by exact Hkw; [ reflexivity | ].
  intros Hin. specialize (Hd Hin). now destruct v.
Qed.

End Manifest.

(** ** Arrays under a merge *)

Lemma index_of_key_of_nat (n : nat) : index_of_key (key_of_nat n) = Some n.
Proof.
  unfold index_of_key, key_of_nat.
  rewrite NilEmpty.usu, DecimalNat.Unsigned.of_to.
  now rewrite String.eqb_refl.
Qed.

Lemma list_set_at (i : nat) (sv : value) (cur : list value) :
  i <= List.length cur ->
  list_set i sv cur = firstn i cur ++ sv :: skipn (S i) cur.
Proof.
  revert cur. induction i as [|i IH]; intros cur Hi.
  - destruct cur; reflexivity.
  - destruct cur as [|x cur]; cbn [List.length] in Hi; [ lia | ].
    cbn [list_set firstn skipn app]. f_equal. apply IH. lia.
Qed.

Lemma nth_split_at (i : nat) (sv : value) (cur : list value) :
  i < List.length cur -> nth i cur VUndef = sv ->
  cur = firstn i cur ++ sv :: skipn (S i) cur.
Proof.
  revert cur. induction i as [|i IH]; intros cur Hi Hn;
    destruct cur as [|x cur]; cbn [List.length] in Hi; try lia.
  - cbn in Hn. now subst.
  - cbn [firstn skipn app nth] in *. f_equal. apply IH; [ lia | exact Hn ].
Qed.

(** A scalar of the source written over position [i] of an array. *)
Lemma merge_prop_element (i : nat) (sv : value) (cur : list value) :
  is_scalar sv = true -> i <= List.length cur ->
  merge_prop false (VArr cur) (key_of_nat i, sv)
  = VArr (firstn i cur ++ sv :: skipn (S i) cur).
Proof.
  intros Hs Hi. unfold merge_prop, assignMergeValue.
  cbn [vget vhas vset andb]. rewrite index_of_key_of_nat.
  replace (isObject sv) with false by now destruct sv.
  replace (is_undefined sv) with false by now destruct sv.
  destruct (same_value (nth i cur VUndef) sv) eqn:E.
  - apply same_value_eq in E. f_equal. apply nth_split_at; [ | exact E ].
    destruct (Nat.eq_dec i (List.length cur)) as [->|]; [ | lia ].
    rewrite nth_overflow in E by lia. subst. discriminate.
  - f_equal. now apply list_set_at.
Qed.

(** An array of scalars merged over an array replaces its first
    elements and keeps the others. *)
Lemma merge_elems_overlay (xs : list value) (i : nat) (cur : list value) :
  Forall (fun v => is_scalar v = true) xs -> i <= List.length cur ->
  merge_elems false xs i (VArr cur)
  = VArr (firstn i cur ++ xs ++ skipn (i + List.length xs) cur).
Proof.
  revert i cur. induction xs as [|sv xs IH]; intros i cur Hx Hi;
    cbn [merge_elems List.length app].
  - now rewrite Nat.add_0_r, firstn_skipn.
  - inversion Hx as [|? ? Hs Hx']; subst.
    rewrite merge_prop_element by assumption.
    assert (Hl : List.length (firstn i cur) = i)
      by (rewrite length_firstn; lia).
    rewrite IH; [ | exact Hx' | rewrite length_app; cbn; lia ].
    f_equal.
    rewrite firstn_app, Hl, firstn_all2 by lia.
    replace (S i - i) with 1 by lia. cbn [firstn].
    rewrite <- app_assoc. cbn [app]. do 3 f_equal.
    rewrite skipn_app, Hl, (skipn_all2 (firstn i cur)) by lia.
    replace (S i + List.length xs - i) with (S (List.length xs)) by lia.
    cbn [app]. rewrite skipn_cons, skipn_skipn. f_equal. lia.
Qed.

(** What [_.merge] leaves at a property whose source value is an array
    of scalars: the array, followed by what the target held beyond its
    length when the target held an array. *)
Lemma merge_get_array (o src : obj) (k : string) (xs : list value) :
  NoDup (keys src) -> lookup k src = Some (VArr xs) ->
  Forall (fun v => is_scalar v = true) xs ->
  get k (merge o src)
  = VArr (xs ++ match get k o with
                | VArr ts => skipn (List.length xs) ts
                | _ => []
                end).
Proof.
  intros Hn Hl Hx. apply lookup_get in Hl. destruct Hl as (_ & _ & Hi).
  unfold merge. rewrite baseMerge_obj.
  destruct (merge_fold_at false src o k (VArr xs) Hn Hi)
    as (o1 & o2 & o' & -> & Hg & Hh & Hs & ->).
  unfold merge_prop in Hs. cbn [vget andb isObject] in Hs.
  rewrite baseMerge_arr in Hs.
  assert (Hm : merge_elems false xs 0 (merge_start (get k o1) (VArr xs))
               = VArr (xs ++ match get k o with
                             | VArr ts => skipn (List.length xs) ts
                             | _ => []
                             end)).
  { rewrite Hg. unfold merge_start.
    destruct (get k o); rewrite merge_elems_overlay by (assumption || (cbn; lia));
      cbn [firstn app Nat.add]; try rewrite skipn_nil; reflexivity. }
  rewrite Hm in Hs. rewrite assign_object in Hs by reflexivity.
  injection Hs as <-. apply get_set_same.
Qed.

Section Manifest_defaults.

Variable kebabCase : value -> string.
Variable path_join : string -> string -> string.

Let manifest := Generator.manifest kebabCase path_join.

(** Where the manifest on disk has no name, version or entry point (or
    a falsy one), the manifest written takes the generated one: the
    kebab-case form of the resolved name, [0.0.1], the [index.js] of
    the project root.  The values of the template never show. *)
Theorem manifest_fills_missing_fields (g : gen)
  (currentPkg defaultPkg pkg' : obj) (k : string) (v : value) :
  NoDup (keys currentPkg) ->
  In (k, v)
     [("name", VStr (kebabCase (get "name" (props g))));
      ("version", VStr "0.0.1");
      ("main",
        VStr (slashes (path_join (opt_projectRoot (options g)) "index.js")))]
     %string ->
  truthy (get k currentPkg) = false ->
  manifest g currentPkg defaultPkg = Ret pkg' ->
  get k pkg' = v.
Proof.
  intros Hn Hin Hf Hm. unfold manifest, Generator.manifest in Hm.
  set (d := Generator.generated_defaults kebabCase path_join g) in *.
  assert (Hfacts : lookup k d = Some v /\ In k scalar_fields
                   /\ k <> "keywords"%string /\ ~ In k dependency_groups
                   /\ exists s, v = VStr s).
  { cbn [In] in Hin.
    destruct Hin as [E|[E|[E|[]]]]; injection E as <- <-;
      (split; [ reflexivity | ]);
      (split; [ cbn; tauto | ]);
      (split; [ discriminate | ]);
      (split; [ cbn; intuition discriminate | eauto ]). }
  destruct Hfacts as (Hl & Hsf & Hkw & Hnd & s & ->).
  assert (Hb : get k (blank_falsy currentPkg) = VUndef).
  { rewrite blank_falsy_get.
    replace (existsb (String.eqb k) scalar_fields) with true.
    - unfold js_or. now rewrite Hf.
    - symmetry. apply existsb_exists. exists k.
      split; [ exact Hsf | apply String.eqb_refl ]. }
  assert (Hup : get k (defaultsDeep (blank_falsy currentPkg) d) = VStr s).
  { now apply (defaultsDeep_get (blank_falsy currentPkg) d k (VStr s)
                 (generated_defaults_NoDup kebabCase path_join g) Hl). }
  set (upd := defaultsDeep (blank_falsy currentPkg) d) in *.
  assert (Hnu : NoDup (keys upd))
    by (apply defaultsDeep_NoDup, blank_falsy_NoDup, Hn).
  assert (Hme : get k (merge (merge [] defaultPkg) upd) = VStr s).
  { apply (merge_get (merge [] defaultPkg) upd k (VStr s) Hnu);
      [ apply get_lookup; [ exact Hup | discriminate ] | reflexivity ]. }
  rewrite (sortDeps_get _ k _ _ Hm);
    rewrite combine_keywords_other, Hme by exact Hkw; [ reflexivity | ].
  intros Hin'. contradiction.
Qed.

End Manifest_defaults.

Lemma manifest_keeps_user_fields_witness :
  exists pkg',
    Ascii_instance.manifest
      (Ascii_instance.fresh [] Ascii_instance.no_options)
      Ascii_instance.shop_manifest
      (Ascii_instance.render_package false false VUndef VUndef) = Ret pkg'
    /\ get "name" pkg' = VStr "shop"
    /\ get "private" pkg' = VBool false.
Proof.
  unfold Ascii_instance.manifest.
  destruct (Generator.manifest _ _ _ _ _) as [pkg'|e] eqn:Hm;
    [ | vm_compute in Hm; discriminate Hm ].
  assert (Hn : NoDup (keys Ascii_instance.shop_manifest)).
  { cbn. repeat (constructor; [ cbn [In]; intuition discriminate | ]).
    constructor. }
  exists pkg'. split; [ reflexivity | ].
  split.
  - apply (manifest_keeps_user_fields
             Ascii_instance.kebabCase Ascii_instance.path_join
             (Ascii_instance.fresh [] Ascii_instance.no_options)
             Ascii_instance.shop_manifest
             (Ascii_instance.render_package false false VUndef VUndef) pkg'
             "name" (VStr "shop") Hn);
      [ reflexivity | reflexivity | discriminate | reflexivity
      | discriminate | exact Hm ].
  - apply (manifest_keeps_user_fields
             Ascii_instance.kebabCase Ascii_instance.path_join
             (Ascii_instance.fresh [] Ascii_instance.no_options)
             Ascii_instance.shop_manifest
             (Ascii_instance.render_package false false VUndef VUndef) pkg'
             "private" (VBool false) Hn);
      [ reflexivity | reflexivity | discriminate
      | cbn; intuition discriminate | discriminate | exact Hm ].
Defined.

Lemma manifest_fills_missing_fields_witness :
  exists pkg',
    Ascii_instance.manifest
      (Ascii_instance.fresh [] Ascii_instance.no_options)
      Ascii_instance.shop_manifest
      (Ascii_instance.render_package false false VUndef VUndef) = Ret pkg'
    /\ get "version" pkg' = VStr "0.0.1".
Proof.
  unfold Ascii_instance.manifest.
  destruct (Generator.manifest _ _ _ _ _) as [pkg'|e] eqn:Hm;
    [ | vm_compute in Hm; discriminate Hm ].
  assert (Hn : NoDup (keys Ascii_instance.shop_manifest)).
  { cbn. repeat (constructor; [ cbn [In]; intuition discriminate | ]).
    constructor. }
  exists pkg'. split; [ reflexivity | ].
  apply (manifest_fills_missing_fields
           Ascii_instance.kebabCase Ascii_instance.path_join
             (Ascii_instance.fresh [] Ascii_instance.no_options)
             Ascii_instance.shop_manifest
             (Ascii_instance.render_package false false VUndef VUndef) pkg'
           "version" (VStr "0.0.1") Hn);
    [ right; left; reflexivity | reflexivity | exact Hm ].
Defined.

(** ** Keywords *)

Lemma uniq_acc_In (seen xs : list value) (v : value) :
  In v (uniq_acc seen xs) -> In v xs.
Proof.
  revert seen. induction xs as [|x xs IH]; intros seen; cbn [uniq_acc In];
    [ tauto | ].
  destruct (existsb (same_value x) seen); cbn [In]; intros H.
  - right. now apply IH with seen.
  - destruct H as [H|H]; [ now left | right; now apply IH with (x :: seen) ].
Qed.

Lemma uniq_acc_fresh (seen xs : list value) (v s : value) :
  In v (uniq_acc seen xs) -> In s seen -> same_value v s = false.
Proof.
  revert seen. induction xs as [|x xs IH]; intros seen; cbn [uniq_acc In];
    [ tauto | ].
  destruct (existsb (same_value x) seen) eqn:E; cbn [In]; intros H Hs.
  - now apply IH with seen.
  - destruct H as [<-|H].
    + destruct (same_value x s) eqn:Ex; [ | reflexivity ].
      rewrite <- E. symmetry. apply existsb_exists. now exists s.
    + apply IH with (x :: seen); [ exact H | now right ].
Qed.

Lemma same_value_sym (a b : value) : same_value a b = same_value b a.
Proof.
  destruct a, b; cbn [same_value]; try reflexivity.
  - now destruct b, b0.
  - apply Z.eqb_sym.
  - apply String.eqb_sym.
Qed.

Lemma uniq_acc_distinct (seen xs : list value) :
  ForallOrdPairs (fun a b => same_value a b = false) (uniq_acc seen xs).
Proof.
  revert seen. induction xs as [|x xs IH]; intros seen; cbn [uniq_acc].
  - constructor.
  - destruct (existsb (same_value x) seen); [ apply IH | ].
    constructor; [ | apply IH ].
    apply Forall_forall. intros v Hv. rewrite same_value_sym.
    apply (uniq_acc_fresh (x :: seen) xs v x Hv). now left.
Qed.

Lemma uniq_acc_complete (seen xs : list value) (v : value) :
  In v xs ->
  In v (uniq_acc seen xs) \/ exists s, In s seen /\ same_value v s = true.
Proof.
  revert seen. induction xs as [|x xs IH]; intros seen; cbn [uniq_acc In];
    [ tauto | ].
  intros [->|H].
  - destruct (existsb (same_value v) seen) eqn:E.
    + right. apply existsb_exists in E. destruct E as (s & Hs & E). eauto.
    + left. now left.
  - destruct (existsb (same_value x) seen) eqn:E.
    + now apply IH.
    + destruct (IH (x :: seen) H) as [Hin | (s & [<-|Hs] & Es)].
      * left. now right.
      * left. left. symmetry. now apply same_value_eq.
      * right. eauto.
Qed.

(** [_.uniq] keeps exactly the values of its argument, each once. *)
Lemma uniq_spec (xs : list value) :
  (forall v, In v (uniq xs) <-> In v xs)
  /\ ForallOrdPairs (fun a b => same_value a b = false) (uniq xs).
Proof.
  split; [ | apply uniq_acc_distinct ].
  intros v. split; [ apply uniq_acc_In | ].
  intros H. destruct (uniq_acc_complete [] xs v H) as [Hin | (s & [] & _)].
  exact Hin.
Qed.

Lemma compact_distinct (xs : list value) :
  ForallOrdPairs (fun a b => same_value a b = false) xs ->
  ForallOrdPairs (fun a b => same_value a b = false) (compact xs).
Proof.
  unfold compact. induction 1 as [|x xs Hx Hxs IH]; cbn [filter].
  - constructor.
  - destruct (truthy x); [ | exact IH ].
    constructor; [ | exact IH ].
    apply Forall_forall. intros v Hv. apply filter_In in Hv.
    rewrite Forall_forall in Hx. now apply Hx.
Qed.

(** Where both [o] and the defaults hold an array or an object,
    [_.defaultsDeep] fills the one of [o] from the one of the
    defaults. *)
Lemma defaultsDeep_get_object (o d : obj) (k : string) (sv : value) :
  NoDup (keys d) -> lookup k d = Some sv ->
  isObject (get k o) = true -> isObject sv = true ->
  get k (defaultsDeep o d) = baseMerge true (get k o) sv.
Proof.
  intros Hn Hl Ho Hsv. apply lookup_get in Hl. destruct Hl as (_ & _ & Hi).
  unfold defaultsDeep. rewrite baseMerge_obj.
  destruct (merge_fold_at true d o k sv Hn Hi)
    as (o1 & o2 & o' & -> & Hg & Hh & Hs & ->).
  unfold merge_prop in Hs. cbn [vget andb] in Hs.
  rewrite Hg, Hsv, Ho in Hs.
  replace (is_undefined (get k o)) with false in Hs
    by (now destruct (get k o)).
  cbn [negb] in Hs.
  rewrite assign_object in Hs by (now rewrite baseMerge_isObject).
  injection Hs as <-. apply get_set_same.
Qed.

Section Keywords.

Variable kebabCase : value -> string.
Variable path_join : string -> string -> string.

Let manifest := Generator.manifest kebabCase path_join.

(** The keywords after the two merges, when the manifest on disk holds
    an array of scalars: that array, then what the template holds
    beyond its length. *)
Lemma merged_keywords (g : gen) (currentPkg defaultPkg : obj)
  (ms : list value) :
  NoDup (keys currentPkg) ->
  get "keywords" currentPkg = VArr ms ->
  Forall (fun v => is_scalar v = true) ms ->
  get "keywords"
      (merge (merge [] defaultPkg)
             (defaultsDeep (blank_falsy currentPkg)
                (generated_defaults kebabCase path_join g)))
  = VArr (ms ++ match get "keywords" (merge [] defaultPkg) with
                | VArr ts => skipn (List.length ms) ts
                | _ => []
                end).
Proof.
  intros Hn Hk Hs.
  set (d := generated_defaults kebabCase path_join g).
  assert (Hb : get "keywords" (blank_falsy currentPkg) = VArr ms)
    by (now rewrite blank_falsy_get).
  assert (Hup : get "keywords" (defaultsDeep (blank_falsy currentPkg) d)
                = VArr ms).
  { rewrite (defaultsDeep_get_object (blank_falsy currentPkg) d "keywords"
               (VArr []) (generated_defaults_NoDup kebabCase path_join g)
               eq_refl); rewrite ?Hb; reflexivity. }
  apply merge_get_array; [ | | exact Hs ].
  - apply defaultsDeep_NoDup, blank_falsy_NoDup, Hn.
  - apply get_lookup; [ exact Hup | discriminate ].
Qed.

(** Sorting the dependency groups does not touch the keywords. *)
Lemma sortDeps_keywords (o o' : obj) :
  sortDeps dependency_groups o = Ret o' ->
  get "keywords" o' = get "keywords" o.
Proof.
  intros H. apply (sortDeps_get _ "keywords" _ _ H).
  cbn [dependency_groups In]. intuition discriminate.
Qed.

Lemma combined_keywords (g : gen) (merged pkg' : obj) (ks : list value) :
  get "keywords" (props g) = VArr ks ->
  sortDeps dependency_groups (combine_keywords g merged) = Ret pkg' ->
  get "keywords" pkg'
  = VArr (compact (uniq (concat ks (get "keywords" merged)))).
Proof.
  intros Hk Hm. rewrite (sortDeps_keywords _ _ Hm).
  unfold combine_keywords. rewrite Hk. apply get_set_same.
Qed.

Lemma uncombined_keywords (g : gen) (merged pkg' : obj) :
  get "keywords" (props g) = VUndef ->
  sortDeps dependency_groups (combine_keywords g merged) = Ret pkg' ->
  get "keywords" pkg' = get "keywords" merged.
Proof.
  intros Hk Hm. rewrite (sortDeps_keywords _ _ Hm).
  unfold combine_keywords. now rewrite Hk.
Qed.

Lemma combined_spec (ks : list value) (mk : value) :
  Forall (fun v => truthy v = true) (compact (uniq (concat ks mk)))
  /\ ForallOrdPairs (fun a b => same_value a b = false)
                    (compact (uniq (concat ks mk)))
  /\ (forall v, In v ks -> truthy v = true ->
                In v (compact (uniq (concat ks mk))))
  /\ (forall v, In v (compact (uniq (concat ks mk))) ->
                In v (concat ks mk)).
Proof.
  destruct (uniq_spec (concat ks mk)) as [Hin Hd].
  split; [ | split; [ | split ] ].
  - apply Forall_forall. intros v Hv. unfold compact in Hv.
    apply filter_In in Hv. exact (proj2 Hv).
  - apply compact_distinct. exact Hd.
  - intros v Hv Ht. apply filter_In. split; [ | exact Ht ].
    apply Hin. unfold concat.
    destruct mk; apply in_or_app; left; exact Hv.
  - intros v Hv. unfold compact in Hv. apply filter_In in Hv.
    apply Hin. exact (proj1 Hv).
Qed.

(** When the keywords question was answered, the keywords written hold
    no falsy entry and no value twice, hold every truthy keyword of the
    answer, and hold nothing but keywords of the answer and of the
    merged manifest. *)
Theorem written_keywords (g : gen) (currentPkg defaultPkg pkg' : obj)
  (ks : list value) :
  get "keywords" (props g) = VArr ks ->
  manifest g currentPkg defaultPkg = Ret pkg' ->
  exists l,
    get "keywords" pkg' = VArr l
    /\ Forall (fun v => truthy v = true) l
    /\ ForallOrdPairs (fun a b => same_value a b = false) l
    /\ (forall v, In v ks -> truthy v = true -> In v l)
    /\ (forall v, In v l ->
        In v (concat ks
                (get "keywords"
                   (merge (merge [] defaultPkg)
                      (defaultsDeep (blank_falsy currentPkg)
                         (generated_defaults kebabCase path_join g)))))).
Proof.
  intros Hk Hm. eexists. split.
  - exact (combined_keywords g _ pkg' ks Hk Hm).
  - apply combined_spec.
Qed.

(** With keywords (scalars) in the manifest on disk and an answer to
    the keywords question, the keywords written are the truthy ones of
    the answer, then of the manifest, then of what the template holds
    beyond the manifest's length, each once. *)
Theorem written_keywords_union (g : gen) (currentPkg defaultPkg pkg' : obj)
  (ks ms : list value) :
  NoDup (keys currentPkg) ->
  get "keywords" currentPkg = VArr ms ->
  Forall (fun v => is_scalar v = true) ms ->
  get "keywords" (props g) = VArr ks ->
  manifest g currentPkg defaultPkg = Ret pkg' ->
  get "keywords" pkg'
  = VArr (compact
            (uniq (ks ++ ms
                      ++ match get "keywords" (merge [] defaultPkg) with
                         | VArr ts => skipn (List.length ms) ts
                         | _ => []
                         end))).
Proof.
  intros Hn Hms Hs Hk Hm.
  rewrite (combined_keywords g _ pkg' ks Hk Hm).
  now rewrite (merged_keywords g currentPkg defaultPkg ms Hn Hms Hs).
Qed.

(** Without an answer to the keywords question, the keywords of the
    manifest on disk go through as they are, duplicates and falsy
    entries included. *)
Theorem unanswered_keywords_pass (g : gen) (currentPkg defaultPkg pkg' : obj)
  (ms : list value) :
  NoDup (keys currentPkg) ->
  get "keywords" currentPkg = VArr ms ->
  Forall (fun v => is_scalar v = true) ms ->
  get "keywords" (props g) = VUndef ->
  manifest g currentPkg defaultPkg = Ret pkg' ->
  get "keywords" pkg'
  = VArr (ms ++ match get "keywords" (merge [] defaultPkg) with
                | VArr ts => skipn (List.length ms) ts
                | _ => []
                end).
Proof.
  intros Hn Hms Hs Hk Hm.
  rewrite (uncombined_keywords g _ pkg' Hk Hm).
  exact (merged_keywords g currentPkg defaultPkg ms Hn Hms Hs).
Qed.

End Keywords.

Lemma shop_manifest_NoDup : NoDup (keys Ascii_instance.shop_manifest).
Proof.
  cbn. repeat (constructor; [ cbn [In]; intuition discriminate | ]).
  constructor.
Qed.

Lemma written_keywords_witness :
  exists pkg' l,
    Ascii_instance.manifest Ascii_instance.answered
      Ascii_instance.shop_manifest
      (Ascii_instance.render_package false false VUndef VUndef) = Ret pkg'
    /\ get "keywords" pkg' = VArr l
    /\ Forall (fun v => truthy v = true) l
    /\ In (VStr "cache") l.
Proof.
  unfold Ascii_instance.manifest.
  destruct (Generator.manifest _ _ _ _ _) as [pkg'|e] eqn:Hm;
    [ | vm_compute in Hm; discriminate Hm ].
  destruct (written_keywords
              Ascii_instance.kebabCase Ascii_instance.path_join
              Ascii_instance.answered Ascii_instance.shop_manifest
              (Ascii_instance.render_package false false VUndef VUndef) pkg'
              [VStr "ui"; VStr "cache"; VStr "cache"] eq_refl Hm)
    as (l & Hl & Ht & _ & Hin & _).
  exists pkg', l. repeat split; try assumption.
  apply Hin; [ right; left; reflexivity | reflexivity ].
Defined.

Lemma written_keywords_union_witness :
  exists pkg',
    Ascii_instance.manifest Ascii_instance.answered
      Ascii_instance.shop_manifest
      (Ascii_instance.render_package false false VUndef VUndef) = Ret pkg'
    /\ get "keywords" pkg' = VArr [VStr "ui"; VStr "cache"; VStr "web"].
Proof.
  unfold Ascii_instance.manifest.
  destruct (Generator.manifest _ _ _ _ _) as [pkg'|e] eqn:Hm;
    [ | vm_compute in Hm; discriminate Hm ].
  exists pkg'. split; [ reflexivity | ].
  rewrite (written_keywords_union
             Ascii_instance.kebabCase Ascii_instance.path_join
             Ascii_instance.answered Ascii_instance.shop_manifest
             (Ascii_instance.render_package false false VUndef VUndef) pkg'
             [VStr "ui"; VStr "cache"; VStr "cache"]
             [VStr "web"; VStr "ui"] shop_manifest_NoDup eq_refl
             ltac:(repeat constructor) eq_refl Hm).
  reflexivity.
Defined.

Lemma unanswered_keywords_pass_witness :
  exists pkg',
    Ascii_instance.manifest
      (Ascii_instance.fresh [] Ascii_instance.no_options)
      [("keywords", VArr [VStr "a"; VStr "a"; VStr ""])]
      (Ascii_instance.render_package false false VUndef VUndef) = Ret pkg'
    /\ get "keywords" pkg' = VArr [VStr "a"; VStr "a"; VStr ""].
Proof.
  unfold Ascii_instance.manifest.
  destruct (Generator.manifest _ _ _ _ _) as [pkg'|e] eqn:Hm;
    [ | vm_compute in Hm; discriminate Hm ].
  exists pkg'. split; [ reflexivity | ].
  rewrite (unanswered_keywords_pass
             Ascii_instance.kebabCase Ascii_instance.path_join
             (Ascii_instance.fresh [] Ascii_instance.no_options)
             [("keywords", VArr [VStr "a"; VStr "a"; VStr ""])]
             (Ascii_instance.render_package false false VUndef VUndef) pkg'
             [VStr "a"; VStr "a"; VStr ""]
             ltac:(repeat constructor; cbn; tauto) eq_refl
             ltac:(repeat constructor) eq_refl Hm).
  reflexivity.
Defined.

(** ** Sorting the dependency groups *)

Section Insertion_sort.

Variable A : Type.
Variable leb : A -> A -> bool.
Hypothesis leb_total : forall a b, leb a b = true \/ leb b a = true.

Let le (a b : A) : Prop := leb a b = true.

Lemma insert_Permutation (x : A) (l : list A) :
  Permutation (insert leb x l) (x :: l).
Proof.
  induction l as [|y l IH]; cbn [insert]; [ reflexivity | ].
  destruct (leb x y); [ reflexivity | ].
  rewrite IH. apply perm_swap.
Qed.

Lemma isort_Permutation (l : list A) : Permutation (isort leb l) l.
Proof.
  induction l as [|x l IH]; cbn [isort]; [ reflexivity | ].
  rewrite insert_Permutation. now constructor.
Qed.

Lemma insert_HdRel (a x : A) (l : list A) :
  le a x -> HdRel le a l -> HdRel le a (insert leb x l).
Proof.
  intros Hax Hal. destruct l as [|y l]; cbn [insert].
  - now constructor.
  - destruct (leb x y); constructor; [ exact Hax | now inversion Hal ].
Qed.

Lemma insert_Sorted (x : A) (l : list A) :
  Sorted le l -> Sorted le (insert leb x l).
Proof.
  induction 1 as [|y l Hl IH Hy]; cbn [insert].
  - repeat constructor.
  - destruct (leb x y) eqn:E.
    + constructor; [ now constructor | now constructor ].
    + constructor; [ exact IH | ].
      apply insert_HdRel; [ | exact Hy ].
      destruct (leb_total x y) as [H|H]; [ congruence | exact H ].
Qed.

Lemma isort_Sorted (l : list A) : Sorted le (isort leb l).
Proof.
  induction l as [|x l IH]; cbn [isort]; [ constructor | ].
  now apply insert_Sorted.
Qed.

End Insertion_sort.

(** [names.sort()] gives the same names, in ascending order. *)
Lemma sort_strings_spec (l : list string) :
  Sorted (fun a b => String.leb a b = true) (sort_strings l)
  /\ Permutation (sort_strings l) l.
Proof.
  split.
  - apply isort_Sorted. exact String.leb_total.
  - apply isort_Permutation.
Qed.

Lemma set_fresh (k : string) (v : value) (acc : obj) :
  ~ In k (keys acc) -> set k v acc = acc ++ [(k, v)].
Proof.
  induction acc as [|[k' v'] acc IH]; cbn [set keys map fst In app];
    intros H; [ reflexivity | ].
  destruct (String.eqb k k') eqn:E.
  - apply String.eqb_eq in E. subst. tauto.
  - f_equal. apply IH. unfold keys. tauto.
Qed.

(** Picking distinct names that an object has lists them in the order
    asked, each with its value. *)
Lemma pick_acc_all (d : obj) (names : list string) (acc : obj) :
  (forall k, In k names -> In k (keys d)) ->
  NoDup names ->
  (forall k, In k names -> ~ In k (keys acc)) ->
  pick_acc (VObj d) names acc = acc ++ map (fun k => (k, get k d)) names.
Proof.
  revert acc. induction names as [|k names IH]; intros acc Hd Hn Ha;
    cbn [pick_acc map].
  - now rewrite app_nil_r.
  - inversion Hn as [|? ? Hk Hn']; subst. cbn [vhas vget].
    replace (has k d) with true
      by (symmetry; apply has_in, Hd; now left).
    rewrite set_fresh by (apply Ha; now left).
    rewrite IH; [ now rewrite <- app_assoc | | exact Hn' | ].
    + intros k' Hk'. apply Hd. now right.
    + intros k' Hk' Hin. unfold keys in Hin. rewrite map_app in Hin.
      apply in_app_or in Hin. destruct Hin as [Hin|[<-|[]]].
      * apply (Ha k'); [ now right | exact Hin ].
      * contradiction.
Qed.

Lemma index_props_named (o : obj) :
  Forall (fun k => is_index k = false) (keys o) -> index_props o = [].
Proof.
  induction o as [|[k v] o IH]; cbn [keys map fst index_props]; intros H;
    [ reflexivity | ].
  inversion H as [|? ? Hk Ho]; subst. unfold is_index in Hk.
  destruct (index_of_key k); [ discriminate | now apply IH ].
Qed.

Lemma named_props_named (o : obj) :
  Forall (fun k => is_index k = false) (keys o) -> named_props o = o.
Proof.
  unfold named_props.
  induction o as [|[k v] o IH]; cbn [keys map fst filter]; intros H;
    [ reflexivity | ].
  inversion H as [|? ? Hk Ho]; subst. rewrite Hk. cbn [negb].
  f_equal. now apply IH.
Qed.

(** An object without index names is enumerated in insertion order. *)
Lemma own_order_named (o : obj) :
  Forall (fun k => is_index k = false) (keys o) -> own_order o = o.
Proof.
  intros H. unfold own_order.
  now rewrite index_props_named, named_props_named.
Qed.

(** The object [sortDep] puts in place of a group without index names:
    the same names in ascending order, each with its value. *)
Lemma sorted_group (d : obj) :
  NoDup (keys d) -> Forall (fun k => is_index k = false) (keys d) ->
  keys (pick (VObj d) (sort_strings (own_keys (VObj d))))
  = sort_strings (keys d)
  /\ forall k, get k (pick (VObj d) (sort_strings (own_keys (VObj d))))
               = get k d.
Proof.
  intros Hn Hi. cbn [own_keys]. rewrite own_order_named by exact Hi.
  destruct (sort_strings_spec (keys d)) as [_ Hp].
  set (names := sort_strings (keys d)) in *.
  assert (Hnn : NoDup names)
    by (apply (Permutation_NoDup (Permutation_sym Hp)), Hn).
  assert (Hin : forall k, In k names <-> In k (keys d)).
  { intros k. split; apply Permutation_in;
      [ exact Hp | exact (Permutation_sym Hp) ]. }
  unfold pick.
  rewrite (pick_acc_all d names []); [ | apply Hin | exact Hnn | auto ].
  cbn [app].
  assert (Hk : keys (map (fun k => (k, get k d)) names) = names).
  { unfold keys. rewrite map_map. cbn [fst]. apply map_id. }
  rewrite own_order_named.
  - split; [ exact Hk | ]. intros k.
    destruct (in_dec string_dec k names) as [Hk'|Hk'].
    + apply get_in; [ now rewrite Hk | ].
      apply in_map_iff. now exists k.
    + rewrite !get_not_in; [ reflexivity | | now rewrite Hk ].
      intros H. apply Hk', Hin, H.
  - rewrite Hk. apply Forall_forall. intros k Hk'.
    rewrite Forall_forall in Hi. apply Hi, Hin, Hk'.
Qed.

Lemma sortDeps_at (deps : list string) (dep : string) (o o' : obj)
  (d : obj) :
  NoDup deps -> In dep deps -> get dep o = VObj d ->
  sortDeps deps o = Ret o' ->
  get dep o' = VObj (pick (VObj d) (sort_strings (own_keys (VObj d)))).
Proof.
  revert o. induction deps as [|dep0 deps IH]; intros o Hn Hin Hd H;
    [ destruct Hin | ].
  inversion Hn as [|? ? Hk Hn']; subst. cbn [sortDeps] in H.
  destruct (sortDep dep0 o) as [o1|] eqn:E; cbn [bind] in H;
    [ | discriminate ].
  destruct (string_dec dep0 dep) as [->|Hne].
  - rewrite (sortDeps_get deps dep o1 o' H) by (intros; contradiction).
    unfold sortDep in E. rewrite Hd in E. cbn [typeof_object] in E.
    injection E as <-. apply get_set_same.
  - destruct Hin as [->|Hin]; [ contradiction | ].
    apply (IH o1 Hn' Hin); [ | exact H ].
    rewrite (sortDep_get dep0 dep o o1 E); [ exact Hd | ].
    intros ->. contradiction.
Qed.

Lemma dependency_groups_NoDup : NoDup dependency_groups.
Proof.
  unfold dependency_groups.
  repeat (constructor; [ cbn [In]; intuition discriminate | ]).
  constructor.
Qed.

(** Each of the four dependency groups that is an object (with distinct
    names, none an array index) comes out with the same names and
    values, the names in ascending order. *)
Theorem sortDeps_sorts (o o' : obj) (dep : string) (d : obj) :
  In dep dependency_groups ->
  get dep o = VObj d ->
  NoDup (keys d) -> Forall (fun k => is_index k = false) (keys d) ->
  sortDeps dependency_groups o = Ret o' ->
  exists d',
    get dep o' = VObj d'
    /\ Sorted (fun a b => String.leb a b = true) (keys d')
    /\ Permutation (keys d') (keys d)
    /\ forall k, get k d' = get k d.
Proof.
  intros Hin Hd Hn Hi H.
  exists (pick (VObj d) (sort_strings (own_keys (VObj d)))).
  destruct (sorted_group d Hn Hi) as [Hk Hg].
  destruct (sort_strings_spec (keys d)) as [Hs Hp].
  split; [ exact (sortDeps_at _ dep o o' d dependency_groups_NoDup Hin Hd H) | ].
  rewrite Hk. auto.
Qed.

Lemma sortDeps_sorts_witness :
  exists o',
    sortDeps dependency_groups Ascii_instance.shop_manifest = Ret o'
    /\ exists d',
        get "dependencies" o' = VObj d'
        /\ keys d' = ["alpha"; "mu"; "zeta"]%string.
Proof.
  destruct (sortDeps dependency_groups Ascii_instance.shop_manifest)
    as [o'|e] eqn:H; [ | vm_compute in H; discriminate H ].
  exists o'. split; [ reflexivity | ].
  destruct (sortDeps_sorts Ascii_instance.shop_manifest o' "dependencies"
              [("zeta", VStr "1.0.0"); ("alpha", VStr "2.0.0");
               ("mu", VStr "3.0.0")]
              ltac:(left; reflexivity) eq_refl
              ltac:(cbn; repeat (constructor;
                                 [ cbn [In]; intuition discriminate | ]);
                    constructor)
              ltac:(repeat constructor) H)
    as (d' & Hd & _ & _ & _).
  exists d'. split; [ exact Hd | ].
  vm_compute in H. injection H as <-. vm_compute in Hd.
  injection Hd as <-. reflexivity.
Defined.

(** ** When [writing] throws *)

Lemma sortDep_error (dep : string) (o : obj) (e : error) :
  sortDep dep o = Throw e -> e = TypeError /\ get dep o = VNull.
Proof.
  unfold sortDep. destruct (typeof_object (get dep o)); [ | discriminate ].
  destruct (get dep o); try discriminate. now intros [= <-].
Qed.

Lemma sortDeps_null (deps : list string) (dep : string) (o : obj) :
  In dep deps -> get dep o = VNull -> sortDeps deps o = Throw TypeError.
Proof.
  revert o. induction deps as [|dep0 deps IH]; intros o Hin Hd;
    [ destruct Hin | ].
  cbn [sortDeps]. destruct (sortDep dep0 o) as [o1|e] eqn:E; cbn [bind].
  - destruct (string_dec dep0 dep) as [->|Hne].
    + unfold sortDep in E. rewrite Hd in E. discriminate E.
    + destruct Hin as [->|Hin]; [ contradiction | ].
      apply IH; [ exact Hin | ].
      rewrite (sortDep_get dep0 dep o o1 E); [ exact Hd | ].
      intros ->. contradiction.
  - now destruct (sortDep_error dep0 o e E) as [-> _].
Qed.

Lemma sortDeps_returns (deps : list string) (o : obj) :
  (forall dep, In dep deps -> get dep o <> VNull) ->
  exists o', sortDeps deps o = Ret o'.
Proof.
  revert o. induction deps as [|dep0 deps IH]; intros o H; cbn [sortDeps].
  - now exists o.
  - destruct (sortDep dep0 o) as [o1|e] eqn:E; cbn [bind].
    + apply IH. intros dep Hin Hd.
      destruct (string_dec dep dep0) as [->|Hne].
      * unfold sortDep in E.
        destruct (typeof_object (get dep0 o)) eqn:Et.
        -- destruct (get dep0 o); try discriminate; injection E as <-;
             rewrite get_set_same in Hd; discriminate.
        -- injection E as <-. apply (H dep0); [ now left | exact Hd ].
      * rewrite (sortDep_get dep0 dep o o1 E) in Hd by (intros; contradiction).
        apply (H dep); [ now right | exact Hd ].
    + destruct (sortDep_error dep0 o e E) as [_ Hd].
      exfalso. apply (H dep0); [ now left | exact Hd ].
Qed.

(** The first merge of [writing], into an empty object, leaves [null]
    only where the template has it. *)
Lemma template_not_null (defaultPkg : obj) (k : string) :
  NoDup (keys defaultPkg) -> get k defaultPkg <> VNull ->
  get k (merge [] defaultPkg) <> VNull.
Proof.
  intros Hn Hk. destruct (lookup k defaultPkg) as [sv|] eqn:El.
  - destruct (merge_get [] defaultPkg k sv Hn El) as [Hs Ho].
    destruct (lookup_get k sv defaultPkg El) as (Hg & _).
    destruct (isObject sv) eqn:E.
    + specialize (Ho eq_refl). intros H. rewrite H in Ho. discriminate Ho.
    + rewrite (Hs eq_refl). destruct (is_undefined sv); [ discriminate | ].
      congruence.
  - rewrite merge_frame by (now apply lookup_none). discriminate.
Qed.

Section Writing_errors.

Variable kebabCase : value -> string.
Variable path_join : string -> string -> string.
Variable render_package : bool -> bool -> value -> value -> obj.

Let writing := Generator.writing kebabCase path_join render_package.
Let manifest := Generator.manifest kebabCase path_join.

Lemma manifest_group (g : gen) (currentPkg : obj) (dep : string) :
  In dep dependency_groups ->
  get dep (defaultsDeep (blank_falsy currentPkg)
             (generated_defaults kebabCase path_join g))
  = get dep currentPkg.
Proof.
  intros Hin. rewrite defaultsDeep_frame, blank_falsy_get.
  - replace (existsb (String.eqb dep) scalar_fields) with false;
      [ reflexivity | ].
    cbn [dependency_groups In] in Hin.
    destruct Hin as [<-|[<-|[<-|[<-|[]]]]]; reflexivity.
  - cbn [dependency_groups In] in Hin.
    destruct Hin as [<-|[<-|[<-|[<-|[]]]]]; cbn; intros H;
      repeat (destruct H as [H|H]; [ discriminate H | ]); exact H.
Qed.

Lemma manifest_null_group (g : gen) (currentPkg defaultPkg : obj)
  (dep : string) :
  NoDup (keys currentPkg) -> In dep dependency_groups ->
  get dep currentPkg = VNull ->
  manifest g currentPkg defaultPkg = Throw TypeError.
Proof.
  intros Hn Hin Hd. unfold manifest, Generator.manifest.
  apply (sortDeps_null _ dep); [ exact Hin | ].
  rewrite combine_keywords_other
    by (cbn [dependency_groups In] in Hin;
        destruct Hin as [<-|[<-|[<-|[<-|[]]]]]; discriminate).
  apply (merge_get _ _ dep VNull).
  - apply defaultsDeep_NoDup, blank_falsy_NoDup, Hn.
  - apply get_lookup; [ | discriminate ].
    now rewrite manifest_group.
  - reflexivity.
Qed.

(** A manifest on disk with [null] for one of the four dependency
    groups makes [writing] throw a [TypeError]. *)
Theorem writing_throws_on_null_group (g : gen) (currentPkg : obj)
  (dep : string) :
  readJSON (fs g) (destinationPath g "package.json") []
  = Ret (JObject currentPkg) ->
  NoDup (keys currentPkg) -> In dep dependency_groups ->
  get dep currentPkg = VNull ->
  writing g = Throw TypeError.
Proof.
  intros Hr Hn Hin Hd. unfold writing, Generator.writing.
  rewrite Hr. cbn [bind assignable].
  match goal with
  | |- context [Generator.manifest _ _ ?ge ?c ?d] =>
      pose proof (manifest_null_group ge c d dep Hn Hin Hd) as E;
      unfold manifest in E; rewrite E
  end.
  reflexivity.
Qed.

(** The manifest is computed without an exception when neither the
    object read from disk nor the rendered template has [null] for a
    dependency group. *)
Theorem manifest_returns (g : gen) (currentPkg defaultPkg : obj) :
  NoDup (keys currentPkg) -> NoDup (keys defaultPkg) ->
  (forall dep, In dep dependency_groups ->
               get dep currentPkg <> VNull /\ get dep defaultPkg <> VNull) ->
  exists pkg', manifest g currentPkg defaultPkg = Ret pkg'.
Proof.
  clear writing.
  intros Hn Hnt Hd. unfold manifest, Generator.manifest.
  apply sortDeps_returns.
  intros dep Hin. destruct (Hd dep Hin) as [Hc Ht].
  rewrite combine_keywords_other
    by (cbn [dependency_groups In] in Hin;
        destruct Hin as [<-|[<-|[<-|[<-|[]]]]]; discriminate).
  match goal with
  | |- get dep (merge ?t ?upd) <> VNull =>
      assert (Hnu : NoDup (keys upd))
        by (apply defaultsDeep_NoDup, blank_falsy_NoDup, Hn);
      assert (Hu : get dep upd = get dep currentPkg)
        by (now apply manifest_group);
      assert (Htn : get dep t <> VNull)
        by (apply template_not_null; [ apply Hnt | apply Ht ]);
      destruct (lookup dep upd) as [sv|] eqn:El;
      [ destruct (merge_get t upd dep sv Hnu El) as [Hs Ho];
        destruct (lookup_get dep sv upd El) as (Hg & _)
      | rewrite merge_frame by (now apply lookup_none); exact Htn ]
  end.
  destruct (isObject sv) eqn:E.
  - specialize (Ho eq_refl). intros H. rewrite H in Ho. discriminate Ho.
  - rewrite (Hs eq_refl). destruct (is_undefined sv); [ exact Htn | ].
    congruence.
Qed.

End Writing_errors.

Lemma writing_throws_on_null_group_witness :
  Ascii_instance.writing Ascii_instance.null_dependencies = Throw TypeError.
Proof.
  apply (writing_throws_on_null_group
           Ascii_instance.kebabCase Ascii_instance.path_join
           Ascii_instance.render_package Ascii_instance.null_dependencies
           [("dependencies", VNull)] "dependencies").
  - reflexivity.
  - cbn. repeat constructor. cbn. tauto.
  - now left.
  - reflexivity.
Defined.

Lemma manifest_returns_witness :
  exists pkg',
    Ascii_instance.manifest
      Ascii_instance.shop_project Ascii_instance.shop_manifest
      (Ascii_instance.render_package false false VUndef VUndef)
    = Ret pkg'.
Proof.
  apply (manifest_returns
           Ascii_instance.kebabCase Ascii_instance.path_join
           Ascii_instance.shop_project Ascii_instance.shop_manifest
           (Ascii_instance.render_package false false VUndef VUndef)).
  - exact shop_manifest_NoDup.
  - cbn. repeat (constructor; [ cbn [In]; intuition discriminate | ]).
    constructor.
  - intros dep Hin. cbn [dependency_groups In] in Hin.
    destruct Hin as [<-|[<-|[<-|[<-|[]]]]]; split; discriminate.
Defined.

(** ** Errors of [initializing] *)

Section Initializing_errors.

Variable parseAuthor : string -> obj.

Let initializing := Generator.initializing parseAuthor.

(** [initializing] throws in three cases only: a manifest that is not
    JSON ([ParseError]), a manifest that is the JSON [null]
    ([TypeError]: [null] has no properties), and a manifest whose
    keywords are truthy but not an array ([TypeError]: a string or an
    object has no [filter]).  In every other case, a manifest that is
    a number, a string or a boolean included, it returns, with the
    falsy keywords removed from [this.pkg]. *)
Theorem initializing_outcome (g0 : gen) :
  match fs_find (destinationPath g0 "package.json") (fs g0) with
  | Some FOther => initializing g0 = Throw ParseError
  | Some (FJson JNull) => initializing g0 = Throw TypeError
  | found =>
      let pkg0 :=
        match found with Some (FJson (JObject o)) => o | _ => [] end in
      match get "keywords" pkg0 with
      | VArr ks =>
          exists g, initializing g0 = Ret g
                    /\ get "keywords" (pkg g) = VArr (compact ks)
      | v =>
          if truthy v then initializing g0 = Throw TypeError
          else exists g, initializing g0 = Ret g /\ pkg g = pkg0
      end
  end.
Proof.
  unfold initializing, Generator.initializing, readJSON.
  destruct (fs_find (destinationPath g0 "package.json") (fs g0))
    as [[[pkg0| |]|]|]; cbn [bind properties]; try reflexivity;
    unfold filter_keywords.
  - destruct (get "keywords" pkg0) as [| |[|]|n|s|ks|o] eqn:E;
      cbn [truthy];
      try destruct (Z.eqb n 0); try destruct (String.eqb s "");
      cbn [negb bind];
      first [ reflexivity
            | eexists; split;
              [ reflexivity
              | first [ reflexivity
                      | cbn [pkg with_props with_pkg]; apply get_set_same ] ] ].
  - cbn. eexists. split; reflexivity.
  - cbn. eexists. split; reflexivity.
Qed.

End Initializing_errors.

(** ** More on what [askFor] asks *)

Lemma ordered_names (qs : list question) :
  NoDup (map q_name qs) ->
  map q_name (filter q_when qs)
  = filter (fun n => existsb (String.eqb n) (map q_name (filter q_when qs)))
           (map q_name qs).
Proof.
  induction qs as [|q qs IH]; intros Hn; cbn [map filter]; [ reflexivity | ].
  inversion Hn as [|? ? Hq Hn']; subst. specialize (IH Hn').
  assert (Hout : existsb (String.eqb (q_name q))
                         (map q_name (filter q_when qs)) = false).
  { apply not_true_is_false. intros He.
    apply existsb_exists in He. destruct He as (x & Hx & Ex).
    apply String.eqb_eq in Ex. subst x. apply Hq.
    apply in_map_iff in Hx. destruct Hx as (q' & <- & Hq').
    apply filter_In in Hq'. apply in_map. tauto. }
  destruct (q_when q); cbn [map existsb].
  - rewrite String.eqb_refl. cbn [orb]. f_equal.
    rewrite IH at 1. apply filter_ext_in. intros n Hin.
    replace (String.eqb n (q_name q)) with false; [ reflexivity | ].
    symmetry. apply String.eqb_neq. intros ->. contradiction.
  - rewrite Hout. exact IH.
Qed.

Section More_prompting.

Variable kebabCase : value -> string.
Variable deburr : value -> string.
Variable path_resolve : string -> string.
Variable parseAuthor : string -> obj.

Let initializing := Generator.initializing parseAuthor.
Let askFor := Generator.askFor kebabCase deburr path_resolve.
Let resolve_name := Generator.resolve_name kebabCase.
Let asked := Generator.asked kebabCase.

(** The questions are always put in the order of the array: what is
    asked is the list [name], [description], ..., [createDirectory]
    with some names left out, none twice. *)
Theorem asked_in_order (u : user) (g : gen) :
  asked u g
  = filter (fun n => existsb (String.eqb n) (asked u g)) question_names.
Proof.
  unfold asked, Generator.asked, question_names. rewrite prompt_keys.
  rewrite <- (prompts_names (Generator.resolve_name kebabCase g) u).
  apply ordered_names. exact (prompts_NoDup _ u).
Qed.

(** In a destination without a manifest, and without a name on the
    command line, [initializing] returns and every question is asked;
    each field whose answer is a string or a boolean resolves to the
    answer. *)
Theorem fresh_destination_asks_everything (u : user) (g0 : gen) :
  fs_find (destinationPath g0 "package.json") (fs g0) = None ->
  opt_name (options g0) = None ->
  exists g,
    initializing g0 = Ret g
    /\ asked u g = question_names
    /\ forall q, In q (prompts g u) -> is_scalar (q_answer q) = true ->
                 get (q_name q) (props (askFor u g)) = q_answer q.
Proof.
  intros Hf Ho.
  assert (Hr : readJSON (fs g0) (destinationPath g0 "package.json") []
               = Ret (JObject [])) by (unfold readJSON; now rewrite Hf).
  destruct (initializing_returns parseAuthor g0 (JObject []) [] [] Hr
              eq_refl eq_refl)
    as (g & Hg & Hpkg & _ & _ & _ & Hopt & _ & Hprops).
  cbn in Hprops. exists g. split; [ exact Hg | ].
  assert (Hres : Generator.resolve_name kebabCase g = g).
  { unfold Generator.resolve_name. now rewrite Hpkg, Hopt, Ho. }
  assert (Hall : asked u g = question_names).
  { unfold asked, Generator.asked. rewrite Hres. unfold prompts.
    rewrite Hprops, Hpkg. reflexivity. }
  split; [ exact Hall | ].
  intros q Hq Hs. rewrite <- Hres in Hq.
  unfold askFor.
  rewrite (askFor_resolves kebabCase deburr path_resolve u g q Hq Hs).
  replace (q_when q) with true; [ reflexivity | ].
  symmetry. apply (asked_iff kebabCase g u q Hq).
  fold asked. rewrite Hall. unfold question_names.
  rewrite <- (prompts_names g u).
  rewrite Hres in Hq. now apply in_map.
Qed.

End More_prompting.

Ltac get_sets :=
  repeat first [ rewrite get_set_same
               | rewrite get_set_other by discriminate ].

(** A question of the array, with what it resolves and whether it is
    put, after [initializing]. *)
Ltac ask kebabCase deburr path_resolve u g q Hres Hask :=
  let Hq := fresh "Hq" in
  assert (Hq : In q (prompts (Generator.resolve_name kebabCase g) u))
    by (repeat first [ left; reflexivity | right ]);
  pose proof (askFor_resolves kebabCase deburr path_resolve u g q Hq
                              eq_refl) as Hres;
  pose proof (asked_iff kebabCase g u q Hq) as Hask;
  cbn [q_name q_when q_answer] in Hres, Hask;
  rewrite ?(resolve_name_other kebabCase g) in Hres, Hask by discriminate;
  clear Hq.

Section More_resolution.

Variable kebabCase : value -> string.
Variable deburr : value -> string.
Variable path_resolve : string -> string.
Variable parseAuthor : string -> obj.

Let initializing := Generator.initializing parseAuthor.
Let askFor := Generator.askFor kebabCase deburr path_resolve.
Let resolve_name := Generator.resolve_name kebabCase.
Let asked := Generator.asked kebabCase.

Lemma filter_keywords_other (pkg0 pkg1 : obj) (k : string) :
  filter_keywords pkg0 = Ret pkg1 -> k <> "keywords"%string ->
  get k pkg1 = get k pkg0.
Proof.
  unfold filter_keywords. intros H Hk.
  destruct (truthy (get "keywords" pkg0)); [ | now injection H as <- ].
  destruct (get "keywords" pkg0); try discriminate.
  injection H as <-. now apply get_set_other.
Qed.

(** What [initializing] presets for the four fields copied from the
    manifest, and that it presets no keywords. *)
Lemma initializing_presets (g0 g : gen) (read : json) (pkg0 pkg1 : obj) :
  readJSON (fs g0) (destinationPath g0 "package.json") [] = Ret read ->
  properties read = Ret pkg0 ->
  filter_keywords pkg0 = Ret pkg1 ->
  initializing g0 = Ret g ->
  pkg g = pkg1
  /\ get "keywords" (props g) = VUndef
  /\ forall k, In k ["name"; "description"; "version"; "homepage"]%string ->
               get k (props g) = get k pkg0.
Proof.
  intros Hr Hpr Hk Hg.
  destruct (initializing_returns parseAuthor g0 read pkg0 pkg1 Hr Hpr Hk)
    as (g' & Hg' & Hpkg & _ & _ & _ & _ & _ & Hprops).
  fold initializing in Hg'. rewrite Hg in Hg'. injection Hg' as <-.
  split; [ exact Hpkg | ].
  assert (H0 : forall k,
             In k ["name"; "description"; "version"; "homepage"]%string ->
             get k [("name", get "name" pkg1);
                    ("description", get "description" pkg1);
                    ("version", get "version" pkg1);
                    ("homepage", get "homepage" pkg1)] = get k pkg0).
  { intros k Hin. cbn [In] in Hin.
    destruct Hin as [<-|[<-|[<-|[<-|[]]]]];
      (etransitivity; [ reflexivity | ]);
      apply (filter_keywords_other pkg0 pkg1 _ Hk); discriminate. }
  rewrite Hprops.
  destruct (isObject (get "author" pkg0));
    [ | destruct (get "author" pkg0) ];
    unfold detect, author_props;
    (split;
     [ now get_sets
     | intros k Hin; rewrite <- (H0 k Hin); cbn [In] in Hin;
       destruct Hin as [<-|[<-|[<-|[<-|[]]]]]; now get_sets ]).
Qed.

(** The description and the homepage of the manifest win: a truthy
    value is kept and the question is not put; otherwise the question
    is put and the field resolves to the answer. *)
Theorem description_and_homepage (g0 g : gen) (read : json) (pkg0 : obj)
  (u : user)
  (field answer : string) :
  readJSON (fs g0) (destinationPath g0 "package.json") [] = Ret read ->
  properties read = Ret pkg0 ->
  initializing g0 = Ret g ->
  In (field, answer)
     [("description", ans_description u); ("homepage", ans_homepage u)]
     %string ->
  if truthy (get field pkg0)
  then ~ In field (asked u g)
       /\ get field (props (askFor u g)) = get field pkg0
  else In field (asked u g)
       /\ get field (props (askFor u g)) = VStr answer.
Proof.
  intros Hr Hpr Hg Hin.
  assert (Hk : exists pkg1, filter_keywords pkg0 = Ret pkg1).
  { unfold initializing, Generator.initializing in Hg. rewrite Hr in Hg.
    cbn [bind] in Hg. rewrite Hpr in Hg. cbn [bind] in Hg.
    destruct (filter_keywords pkg0); [ eauto | discriminate ]. }
  destruct Hk as [pkg1 Hk].
  destruct (initializing_presets g0 g read pkg0 pkg1 Hr Hpr Hk Hg)
    as (_ & _ & Hp).
  unfold askFor, asked. cbn [In] in Hin.
  destruct Hin as [E|[E|[]]]; injection E as <- <-.
  - ask kebabCase deburr path_resolve u g {| q_name := "description";
                    q_when := negb (truthy (get "description"
                                              (props (Generator.resolve_name
                                                        kebabCase g))));
                    q_answer := VStr (ans_description u) |} Hres Hask.
    rewrite Hp in Hres, Hask by (cbn; tauto).
    destruct (truthy (get "description" pkg0)); cbn [negb] in Hres, Hask;
      (split; [ rewrite Hask; auto; discriminate | exact Hres ]).
  - ask kebabCase deburr path_resolve u g {| q_name := "homepage";
                    q_when := negb (truthy (get "homepage"
                                              (props (Generator.resolve_name
                                                        kebabCase g))));
                    q_answer := VStr (ans_homepage u) |} Hres Hask.
    rewrite Hp in Hres, Hask by (cbn; tauto).
    destruct (truthy (get "homepage" pkg0)); cbn [negb] in Hres, Hask;
      (split; [ rewrite Hask; auto; discriminate | exact Hres ]).
Qed.

End More_resolution.

Lemma falsy_isEmpty (v : value) : truthy v = false -> isEmpty v = true.
Proof.
  destruct v; cbn [truthy isEmpty]; try reflexivity; try discriminate.
  intros H. apply negb_false_iff in H. exact H.
Qed.

Lemma keywords_filter_scalars (words : string) :
  exists xs, keywords_filter words = VArr xs
             /\ Forall (fun v => is_scalar v = true) xs.
Proof.
  unfold keywords_filter, compact. eexists. split; [ reflexivity | ].
  apply Forall_forall. intros v Hv. apply filter_In in Hv.
  destruct Hv as [Hv _]. apply in_map_iff in Hv.
  now destruct Hv as (s & <- & _).
Qed.

Section Keywords_question.

Variable kebabCase : value -> string.
Variable deburr : value -> string.
Variable path_resolve : string -> string.
Variable parseAuthor : string -> obj.

Let initializing := Generator.initializing parseAuthor.
Let askFor := Generator.askFor kebabCase deburr path_resolve.
Let asked := Generator.asked kebabCase.

(** The keywords question is put exactly when the manifest has no
    truthy keyword (none at all, or an array of falsy entries only).
    When it is put, [props.keywords] is the answer split at the commas,
    empty segments dropped; when it is not, [props.keywords] stays
    [undefined]. *)
Theorem keywords_question (g0 g : gen) (read : json) (pkg0 : obj)
  (u : user) :
  readJSON (fs g0) (destinationPath g0 "package.json") [] = Ret read ->
  properties read = Ret pkg0 ->
  initializing g0 = Ret g ->
  (In "keywords" (asked u g)
   <-> match get "keywords" pkg0 with
       | VArr ks => compact ks = []
       | v => truthy v = false
       end)
  /\ get "keywords" (props (askFor u g))
     = if existsb (String.eqb "keywords") (asked u g)
       then keywords_filter (ans_keywords u) else VUndef.
Proof.
  intros Hr Hpr Hg.
  assert (Hk : exists pkg1, filter_keywords pkg0 = Ret pkg1).
  { unfold initializing, Generator.initializing in Hg. rewrite Hr in Hg.
    cbn [bind] in Hg. rewrite Hpr in Hg. cbn [bind] in Hg.
    destruct (filter_keywords pkg0); [ eauto | discriminate ]. }
  destruct Hk as [pkg1 Hk].
  destruct (initializing_presets parseAuthor g0 g read pkg0 pkg1 Hr Hpr Hk Hg)
    as (Hpkg & Hkw & _).
  set (g1 := Generator.resolve_name kebabCase g).
  destruct (resolve_name_frame kebabCase g) as (_ & _ & Hpkg1 & _).
  fold g1 in Hpkg1.
  set (q := {| q_name := "keywords";
               q_when := isEmpty (get "keywords" (pkg g1));
               q_answer := keywords_filter (ans_keywords u) |}).
  assert (Hq : In q (prompts g1 u))
    by (repeat first [ left; reflexivity | right ]).
  pose proof (asked_iff kebabCase g u q Hq) as Hask.
  cbn [q q_name q_when] in Hask. rewrite Hpkg1, Hpkg in Hask.
  fold asked in Hask.
  assert (Hp1 : get "keywords" (props g1) = VUndef).
  { unfold g1. now rewrite resolve_name_other by discriminate. }
  split.
  - rewrite Hask. unfold filter_keywords in Hk.
    destruct (get "keywords" pkg0) as [| |b|n|s|ks|o] eqn:E;
      cbn [truthy] in Hk |- *;
      try (injection Hk as <-; rewrite E; cbn [isEmpty]; tauto).
    + destruct b; [ discriminate | ]. injection Hk as <-. now rewrite E.
    + destruct (negb (Z.eqb n 0)) eqn:En; [ discriminate | ].
      injection Hk as <-. rewrite E. cbn [isEmpty]. tauto.
    + destruct (negb (String.eqb s "")) eqn:Es; [ discriminate | ].
      injection Hk as <-. rewrite E. cbn [isEmpty].
      apply negb_false_iff in Es. tauto.
    + injection Hk as <-. rewrite get_set_same. cbn [isEmpty].
      destruct (compact ks); split; congruence.
    + discriminate.
  - unfold askFor. rewrite askFor_props. fold g1.
    destruct (existsb (String.eqb "keywords") (asked u g)) eqn:Ea.
    + assert (Hin : In "keywords" (asked u g)).
      { apply existsb_exists in Ea. destruct Ea as (x & Hx & Ex).
        apply String.eqb_eq in Ex. now subst. }
      destruct (keywords_filter_scalars (ans_keywords u)) as (xs & Ex & Hs).
      rewrite Ex.
      rewrite (merge_get_array (props g1) (prompt (prompts g1 u))
                 "keywords" xs).
      * rewrite Hp1. now rewrite app_nil_r.
      * apply prompt_NoDup, prompts_NoDup.
      * apply get_lookup; [ | discriminate ].
        apply get_in; [ apply prompt_NoDup, prompts_NoDup | ].
        rewrite <- Ex. unfold prompt.
        change ("keywords"%string, keywords_filter (ans_keywords u))
          with ((fun q => (q_name q, q_answer q)) q).
        apply in_map. apply filter_In. split; [ exact Hq | ].
        apply (asked_iff kebabCase g u q Hq). exact Hin.
      * exact Hs.
    + rewrite merge_frame; [ exact Hp1 | ].
      intros Hin. fold (Generator.asked kebabCase u g) in Hin.
      assert (existsb (String.eqb "keywords") (asked u g) = true);
        [ | congruence ].
      apply existsb_exists. exists "keywords"%string.
      split; [ exact Hin | reflexivity ].
Qed.

End Keywords_question.

Section Server_type_store.

Variable kebabCase : value -> string.
Variable deburr : value -> string.
Variable path_resolve : string -> string.
Variable path_join : string -> string -> string.
Variable render_package : bool -> bool -> value -> value -> obj.

Let askFor := Generator.askFor kebabCase deburr path_resolve.
Let writing := Generator.writing kebabCase path_join render_package.

(** The server type that [askFor] resolves is the one [writing] reads
    back from the store, whether or not the root was relocated in
    between: the [src/server] tree is copied with the exclusions of the
    resolved server type. *)
Theorem writing_uses_resolved_server_type (u : user) (g g' : gen) :
  writing (askFor u g) = Ret g' ->
  config_get (askFor u g) "serverType"
  = get "serverType" (props (askFor u g))
  /\ In (CopyTpl (templatePath (askFor u g) "src/server")
                 (destinationPath (askFor u g) "src/server")
                 (ignore_of (get "serverType" (props (askFor u g)))))
        (log g').
Proof.
  intros Hw.
  assert (Hc : config_get (askFor u g) "serverType"
               = get "serverType" (props (askFor u g))).
  { unfold config_get, askFor.
    rewrite (askFor_config kebabCase deburr path_resolve u g).
    apply store_update_find. }
  split; [ exact Hc | ].
  destruct (writing_inv kebabCase path_join render_package _ _ Hw)
    as (cur & pkg' & _ & _ & _ & _ & _ & rest & Hl & _).
  rewrite Hl, Hc. apply in_or_app. right. apply in_or_app. right.
  apply in_or_app. right. now left.
Qed.

End Server_type_store.

Lemma fresh_destination_asks_everything_witness :
  exists g,
    Ascii_instance.initializing
      (Ascii_instance.fresh [] Ascii_instance.no_options) = Ret g
    /\ Ascii_instance.asked Ascii_instance.someone g = question_names.
Proof.
  destruct (fresh_destination_asks_everything
              Ascii_instance.kebabCase Ascii_instance.deburr
              Ascii_instance.path_resolve Ascii_instance.parseAuthor
              Ascii_instance.someone
              (Ascii_instance.fresh [] Ascii_instance.no_options)
              eq_refl eq_refl)
    as (g & Hg & Ha & _).
  exists g. split; [ exact Hg | exact Ha ].
Defined.

Lemma description_and_homepage_witness :
  exists g,
    Ascii_instance.initializing Ascii_instance.shop_project = Ret g
    /\ In "description" (Ascii_instance.asked Ascii_instance.someone g)
    /\ get "description"
           (props (Ascii_instance.askFor Ascii_instance.someone g))
       = VStr "a demo".
Proof.
  unfold Ascii_instance.initializing.
  destruct (Generator.initializing _ _) as [g|e] eqn:Hg;
    [ | vm_compute in Hg; discriminate Hg ].
  exists g. split; [ reflexivity | ].
  exact (description_and_homepage
           Ascii_instance.kebabCase Ascii_instance.deburr
           Ascii_instance.path_resolve Ascii_instance.parseAuthor
           Ascii_instance.shop_project g
           (JObject Ascii_instance.shop_manifest)
           Ascii_instance.shop_manifest Ascii_instance.someone
           "description" "a demo" eq_refl eq_refl Hg (or_introl eq_refl)).
Defined.

Lemma keywords_question_witness :
  exists g,
    Ascii_instance.initializing
      (Ascii_instance.fresh
         (Ascii_instance.with_manifest [("keywords", VArr [VStr ""])])
         Ascii_instance.no_options) = Ret g
    /\ In "keywords" (Ascii_instance.asked Ascii_instance.someone g).
Proof.
  unfold Ascii_instance.initializing.
  destruct (Generator.initializing _ _) as [g|e] eqn:Hg;
    [ | vm_compute in Hg; discriminate Hg ].
  exists g. split; [ reflexivity | ].
  apply (keywords_question
           Ascii_instance.kebabCase Ascii_instance.deburr
           Ascii_instance.path_resolve Ascii_instance.parseAuthor
           (Ascii_instance.fresh
              (Ascii_instance.with_manifest [("keywords", VArr [VStr ""])])
              Ascii_instance.no_options)
           g (JObject [("keywords", VArr [VStr ""])])
           [("keywords", VArr [VStr ""])] Ascii_instance.someone
           eq_refl eq_refl Hg).
  reflexivity.
Defined.

Lemma writing_uses_resolved_server_type_witness :
  exists g',
    Ascii_instance.writing
      (Ascii_instance.askFor Ascii_instance.someone
         (Ascii_instance.fresh [] Ascii_instance.no_options)) = Ret g'
    /\ In (CopyTpl "/tpl/src/server" "/work/my-cool-app/src/server"
                   ["**/src/server/express-server.js"])
          (log g').
Proof.
  unfold Ascii_instance.writing, Ascii_instance.askFor.
  destruct (Generator.writing _ _ _ _) as [g'|e] eqn:Hw;
    [ | vm_compute in Hw; discriminate Hw ].
  exists g'. split; [ reflexivity | ].
  destruct (writing_uses_resolved_server_type
              Ascii_instance.kebabCase Ascii_instance.deburr
              Ascii_instance.path_resolve Ascii_instance.path_join
              Ascii_instance.render_package
              Ascii_instance.someone
              (Ascii_instance.fresh [] Ascii_instance.no_options) g' Hw)
    as [_ Hin].
  vm_compute in Hin. vm_compute. exact Hin.
Defined.

(** ** Splitting the keywords at the commas *)

Lemma chars_append (a b : string) :
  list_ascii_of_string (a ++ b)
  = list_ascii_of_string a ++ list_ascii_of_string b.
Proof.
  induction a as [|c a IH]; cbn [append list_ascii_of_string app];
    [ reflexivity | now rewrite IH ].
Qed.

Lemma split_go_no_comma (s cur pend : string) (skip : bool) (seg : string) :
  Forall (fun c => is_comma c = false) (list_ascii_of_string cur) ->
  Forall (fun c => is_comma c = false) (list_ascii_of_string pend) ->
  In seg (split_go s cur pend skip) ->
  Forall (fun c => is_comma c = false) (list_ascii_of_string seg).
Proof.
  revert cur pend skip.
  induction s as [|c s IH]; intros cur pend skip Hc Hp; cbn [split_go In].
  - intros [<-|[]]. rewrite chars_append. now apply Forall_app.
  - destruct (is_comma c) eqn:Ec; cbn [In].
    + intros [<-|H]; [ exact Hc | ].
      apply (IH ""%string ""%string true); [ constructor | constructor | exact H ].
    + destruct (is_space c).
      * destruct skip; [ now apply IH | ].
        apply IH; [ exact Hc | ].
        rewrite chars_append. apply Forall_app. split; [ exact Hp | ].
        cbn. now repeat constructor.
      * apply IH; [ | constructor ].
        rewrite !chars_append. apply Forall_app. split; [ exact Hc | ].
        apply Forall_app. split; [ exact Hp | ].
        cbn. now repeat constructor.
Qed.

(** The keywords that the filter of the question returns are strings,
    none empty and none holding a comma. *)
Theorem keywords_filter_entries (words : string) :
  exists segs,
    keywords_filter words = VArr (map VStr segs)
    /\ Forall (fun seg =>
                 seg <> ""%string
                 /\ Forall (fun c => is_comma c = false)
                           (list_ascii_of_string seg)) segs.
Proof.
  exists (filter (fun seg => negb (String.eqb seg "")) (split_commas words)).
  split.
  - unfold keywords_filter, compact. f_equal.
    induction (split_commas words) as [|seg segs IH]; cbn [map filter truthy];
      [ reflexivity | ].
    destruct (negb (String.eqb seg "")); cbn [map]; now rewrite IH.
  - apply Forall_forall. intros seg Hin. apply filter_In in Hin.
    destruct Hin as [Hin Hne]. split.
    + apply negb_true_iff in Hne. now apply String.eqb_neq.
    + apply (split_go_no_comma words ""%string ""%string false seg);
        [ constructor | constructor | exact Hin ].
Qed.

Lemma append_empty (s : string) : (s ++ "")%string = s.
Proof. induction s as [|c s IH]; cbn [append]; congruence. Qed.

Lemma append_three (a b c : string) :
  ((a ++ b) ++ c)%string = (a ++ b ++ c)%string.
Proof. induction a as [|x a IH]; cbn [append]; congruence. Qed.

(** A run of characters without a comma that ends on a character other
    than white space is taken whole into the current segment. *)
Lemma split_go_word (w rest cur pend : string) :
  w <> ""%string ->
  Forall (fun c => is_comma c = false) (list_ascii_of_string w) ->
  (forall w' c, w = (w' ++ String c "")%string -> is_space c = false) ->
  split_go (w ++ rest) cur pend false
  = split_go rest (cur ++ pend ++ w) "" false.
Proof.
  revert cur pend. induction w as [|c w IH]; intros cur pend Hne Hc Hl;
    [ congruence | ].
  cbn [list_ascii_of_string] in Hc. inversion Hc as [|? ? Hcc Hcw]; subst.
  cbn [append split_go]. rewrite Hcc.
  destruct w as [|c' w].
  - rewrite (Hl ""%string c eq_refl). reflexivity.
  - assert (Hl' : forall w' x, String c' w = (w' ++ String x "")%string ->
                               is_space x = false).
    { intros w' x E. apply (Hl (String c w') x). cbn [append]. now rewrite E. }
    destruct (is_space c).
    + rewrite IH by (assumption || discriminate).
      f_equal. rewrite append_three. reflexivity.
    + rewrite IH by (assumption || discriminate).
      f_equal. rewrite !append_three. reflexivity.
Qed.

(** The same from any state, for a run that also starts on a character
    other than white space. *)
Lemma split_go_clean (w rest : string) (skip : bool) :
  w <> ""%string ->
  Forall (fun c => is_comma c = false) (list_ascii_of_string w) ->
  (forall c w', w = String c w' -> is_space c = false) ->
  (forall w' c, w = (w' ++ String c "")%string -> is_space c = false) ->
  split_go (w ++ rest) "" "" skip = split_go rest w "" false.
Proof.
  intros Hne Hc Hf Hl. destruct w as [|c w]; [ congruence | ].
  cbn [list_ascii_of_string] in Hc. inversion Hc as [|? ? Hcc Hcw]; subst.
  cbn [append split_go]. rewrite Hcc, (Hf c w eq_refl).
  destruct w as [|c' w]; [ reflexivity | ].
  rewrite split_go_word; [ reflexivity | discriminate | exact Hcw | ].
  intros w' x E. apply (Hl (String c w') x). cbn [append]. now rewrite E.
Qed.

(** Splitting a list of words written with [", "] between them gives
    the words back. *)
Lemma split_joined (ws : list string) (skip : bool) :
  ws <> [] ->
  Forall (fun w =>
            Forall (fun c => is_comma c = false) (list_ascii_of_string w)
            /\ (forall c w', w = String c w' -> is_space c = false)
            /\ (forall w' c, w = (w' ++ String c "")%string ->
                             is_space c = false)) ws ->
  split_go (String.concat ", " ws) "" "" skip = ws.
Proof.
  revert skip. induction ws as [|w ws IH]; intros skip Hne Hws;
    [ congruence | ].
  inversion Hws as [|? ? (Hc & Hf & Hl) Hws']; subst.
  destruct ws as [|w2 ws]; cbn [String.concat].
  - destruct (string_dec w "") as [->|Hw]; [ reflexivity | ].
    rewrite <- (append_empty w) at 1.
    rewrite split_go_clean by assumption.
    cbn [split_go]. now rewrite append_empty.
  - destruct (string_dec w "") as [->|Hw].
    + cbn [append]. change (split_go (String "," (String " " ?r)) "" "" skip)
        with (""%string :: split_go r "" "" true).
      cbn [split_go]. f_equal.
      replace (is_comma ",") with true by reflexivity.
      f_equal. apply IH; [ discriminate | exact Hws' ].
    + rewrite split_go_clean by assumption.
      cbn [append split_go].
      replace (is_comma ",") with true by reflexivity.
      f_equal.
      replace (is_comma " ") with false by reflexivity.
      replace (is_space " ") with true by reflexivity.
      apply IH; [ discriminate | exact Hws' ].
Qed.

(** Keywords typed as a list separated by a comma and a space come back
    as typed: when no keyword is empty, holds a comma, or starts or
    ends with white space, the filter of the question returns exactly
    the keywords. *)
Theorem keywords_round_trip (ws : list string) :
  Forall (fun w =>
            w <> ""%string
            /\ Forall (fun c => is_comma c = false) (list_ascii_of_string w)
            /\ (forall c w', w = String c w' -> is_space c = false)
            /\ (forall w' c, w = (w' ++ String c "")%string ->
                             is_space c = false)) ws ->
  keywords_filter (String.concat ", " ws) = VArr (map VStr ws).
Proof.
  intros Hws. unfold keywords_filter, split_commas.
  destruct ws as [|w ws]; [ reflexivity | ].
  rewrite split_joined; [ | discriminate | ].
  - f_equal. unfold compact.
    induction Hws as [|x xs (Hx & _) _ IH]; cbn [map filter truthy];
      [ reflexivity | ].
    replace (negb (String.eqb x "")) with true; [ now rewrite IH | ].
    symmetry. apply negb_true_iff. now apply String.eqb_neq.
  - eapply Forall_impl; [ | exact Hws ]. cbn beta. tauto.
Qed.

Lemma last_character (w w' : string) (c : ascii) :
  w = (w' ++ String c "")%string ->
  String.get (String.length w - 1) w = Some c.
Proof.
  intros ->. induction w' as [|x w' IH]; cbn [append String.length];
    [ reflexivity | ].
  replace (S (String.length (w' ++ String c "")) - 1)
    with (S (String.length (w' ++ String c "") - 1)).
  - cbn [String.get]. exact IH.
  - clear. destruct w'; cbn [append String.length]; lia.
Qed.

Lemma keywords_round_trip_witness :
  keywords_filter "ui, cache, web app"
  = VArr [VStr "ui"; VStr "cache"; VStr "web app"].
Proof.
  apply (keywords_round_trip ["ui"; "cache"; "web app"]%string).
  repeat (apply Forall_cons;
          [ split; [ discriminate | ];
            split; [ repeat (apply Forall_cons; [ reflexivity | ]);
                     apply Forall_nil | ];
            split;
            [ intros c w' E; injection E as <- _; reflexivity
            | intros w' c E; apply last_character in E;
              vm_compute in E; injection E as <-; reflexivity ]
          | ]).
  apply Forall_nil.
Defined.

(** ** The sub-generators composed with *)

Section Composition.

Variable kebabCase : value -> string.
Variable deburr : value -> string.
Variable path_resolve : string -> string.
Variable parseAuthor : string -> obj.
Variable githubUsername : value -> outcome string.

Let initializing := Generator.initializing parseAuthor.
Let askFor := Generator.askFor kebabCase deburr path_resolve.
Let askForGithubAccount := Generator.askForGithubAccount githubUsername.

Lemma initializing_frame (g0 g : gen) :
  initializing g0 = Ret g ->
  root g = root g0 /\ log g = log g0 /\ config g = config g0
  /\ options g = options g0 /\ fs g = fs g0.
Proof.
  unfold initializing, Generator.initializing. intros H.
  destruct (readJSON _ _ _) as [read|]; cbn [bind] in H; [ | discriminate H ].
  destruct (properties read) as [pkg0|]; cbn [bind] in H;
    [ | discriminate H ].
  destruct (filter_keywords pkg0) as [pkg1|]; cbn [bind] in H;
    [ | discriminate H ].
  injection H as <-. repeat split.
Qed.

Lemma askFor_frame (u : user) (g : gen) :
  pkg (askFor u g) = pkg g /\ options (askFor u g) = options g
  /\ fs (askFor u g) = fs g.
Proof.
  unfold askFor, Generator.askFor. cbn zeta.
  cbn [pkg options fs config_set emit]. unfold Generator.relocate.
  destruct (truthy _);
    cbn [pkg options fs destinationRoot emit with_props];
    unfold Generator.resolve_name; destruct (_ || _); repeat split.
Qed.

(** What the question of the GitHub account leaves as it is. *)
Lemma askForGithubAccount_frame (a : string) (g g' : gen) :
  askForGithubAccount a g = Ret g' ->
  pkg g' = pkg g /\ options g' = options g /\ fs g' = fs g
  /\ root g' = root g /\ config g' = config g
  /\ forall k, k <> "githubAccount"%string ->
               get k (props g') = get k (props g).
Proof.
  unfold askForGithubAccount, Generator.askForGithubAccount.
  destruct (truthy _).
  - intros H. injection H as <-. repeat split.
    intros k Hk. now apply get_set_other.
  - destruct (githubUsername _); cbn [bind]; intros H;
      [ | discriminate H ].
    injection H as <-. repeat split.
    intros k Hk. now apply get_set_other.
Qed.

Lemma default_names (g : gen) :
  map fst (default g)
  = ((if opt_travis (options g) then ["travis"] else [])
    ++ ["electrode:editorconfig"; "electrode:git"]
    ++ (if opt_license (options g) && negb (truthy (get "license" (pkg g)))
        then ["license"] else [])
    ++ (if fs_exists (fs g) (destinationPath g "README.md") then []
        else ["electrode:readme"])
    ++ (if fs_exists (fs g) (destinationPath g "config/default.js") then []
        else ["electrode:config"])
    ++ (if fs_exists (fs g) (destinationPath g "server/plugins/webapp")
        then [] else ["electrode:webapp"])).
Proof.
  unfold default. rewrite !map_app.
  destruct (opt_travis _), (_ && _),
    (fs_exists _ (destinationPath g "README.md")),
    (fs_exists _ (destinationPath g "config/default.js")),
    (fs_exists _ (destinationPath g "server/plugins/webapp")); reflexivity.
Qed.

(** Whether the licence generator is composed with depends on the
    manifest of the directory the run started in, also when the
    questions relocate the project: it is composed with exactly when the
    option is set and that manifest has no licence (or an empty one). *)
Theorem license_gated_by_starting_manifest
        (u : user) (a : string) (g0 g1 g2 : gen) (read : json) (pkg0 : obj) :
  readJSON (fs g0) (destinationPath g0 "package.json") [] = Ret read ->
  properties read = Ret pkg0 ->
  initializing g0 = Ret g1 ->
  askForGithubAccount a (askFor u g1) = Ret g2 ->
  In "license"%string (map fst (default g2))
  <-> opt_license (options g0) = true
      /\ truthy (get "license" pkg0) = false.
Proof.
  intros Hr Hpr Hi Hg2.
  assert (Hg : options g1 = options g0
               /\ get "license" (pkg g1) = get "license" pkg0).
  { revert Hi. unfold initializing, Generator.initializing.
    rewrite Hr. cbn [bind]. rewrite Hpr. cbn [bind].
    destruct (filter_keywords pkg0) as [pkg1|] eqn:Hk; cbn [bind];
      [ | discriminate ].
    intros H. injection H as <-. cbn [pkg options with_props with_pkg].
    split; [ reflexivity | ].
    now apply (filter_keywords_other pkg0 pkg1). }
  destruct Hg as (Ho & Hl).
  destruct (askForGithubAccount_frame a _ g2 Hg2) as (Hp1 & Ho1 & _).
  destruct (askFor_frame u g1) as (Hp2 & Ho2 & _).
  rewrite default_names, Hp1, Ho1, Hp2, Ho2, Ho, Hl.
  destruct (opt_travis (options g0)), (opt_license (options g0)),
    (truthy (get "license" pkg0)),
    (fs_exists _ (destinationPath _ "README.md")),
    (fs_exists _ (destinationPath _ "config/default.js")),
    (fs_exists _ (destinationPath _ "server/plugins/webapp"));
    cbn [andb negb app In]; split;
    try (intros [? ?]; discriminate);
    try (intros _; split; reflexivity);
    try (intros _; intuition congruence);
    intros H; exfalso; intuition discriminate.
Qed.

(** The read-me, configuration and web application generators are
    composed with exactly when [this.fs] has no file at [README.md],
    [config/default.js] and [server/plugins/webapp] under the root the
    questions leave: the path [path.resolve] gives for the new
    directory when the questions relocate the project, the root the
    run started in otherwise.  A directory at one of the paths does
    not count as a file. *)
Theorem files_probed_in_final_directory
        (u : user) (a : string) (g0 g1 g2 : gen) :
  initializing g0 = Ret g1 ->
  askForGithubAccount a (askFor u g1) = Ret g2 ->
  let directory :=
    if truthy (get "createDirectory" (props (askFor u g1)))
    then path_resolve
           (root g0 ++ "/"
              ++ kebabCase (VStr (deburr (get "name" (props (askFor u g1))))))
    else root g0 in
  forall name path,
    In (name, path)
       [("electrode:readme", "README.md");
        ("electrode:config", "config/default.js");
        ("electrode:webapp", "server/plugins/webapp")]%string ->
    In name (map fst (default g2))
    <-> fs_exists (fs g0) (directory ++ "/" ++ path)%string = false.
Proof.
  intros Hi Hg2 directory name path Hin.
  destruct (initializing_frame g0 g1 Hi) as (Hr0 & _ & _ & _ & Hf0).
  destruct (askForGithubAccount_frame a _ g2 Hg2)
    as (_ & _ & Hf1 & Hr1 & _).
  destruct (askFor_frame u g1) as (_ & _ & Hf2).
  pose proof (askFor_root kebabCase deburr path_resolve u g1) as Hr2.
  fold askFor in Hr2. rewrite Hr0 in Hr2. fold directory in Hr2.
  rewrite default_names. unfold destinationPath.
  rewrite Hf1, Hr1, Hf2, Hr2, Hf0.
  clearbody directory. cbn [In] in Hin.
  destruct Hin as [E|[E|[E|[]]]]; injection E as <- <-;
    destruct (opt_travis _), (_ && _),
      (fs_exists _ (directory ++ "/" ++ "README.md")),
      (fs_exists _ (directory ++ "/" ++ "config/default.js")),
      (fs_exists _ (directory ++ "/" ++ "server/plugins/webapp"));
    cbn [app In]; split;
    try discriminate; try reflexivity;
    try (intros _; intuition congruence);
    intros H; exfalso; intuition discriminate.
Qed.

(** What the git and read-me generators are handed as the account. *)
Lemma account_handed_on (g : gen) :
  In ("electrode:git",
      [("name", get "name" (props g));
       ("githubAccount", get "githubAccount" (props g))])
     (default g)
  /\ forall handed,
       In ("electrode:readme", handed) (default g) ->
       get "githubAccount" handed = get "githubAccount" (props g).
Proof.
  split.
  - unfold default. apply in_or_app. right. right. left. reflexivity.
  - intros handed Hin. unfold default in Hin.
    repeat (apply in_app_or in Hin; destruct Hin as [Hin|Hin]);
      repeat match type of Hin with
             | In _ (if ?b then _ else _) => destruct b
             end;
      cbn [In] in Hin;
      repeat match type of Hin with
             | _ \/ _ => destruct Hin as [Hin|Hin]
             | False => destruct Hin
             end;
      try discriminate Hin.
    injection Hin as <-. reflexivity.
Qed.

(** The account handed to the git and read-me generators is the option
    when it is given and not empty; nothing is then looked up or asked.
    Otherwise the account of the author's address is looked up first:
    if that call throws, the phase throws the same and nothing is
    asked; if it returns, one more question is asked and its answer is
    the account handed on.  The name handed to the git generator is
    the name the questions before left. *)
Theorem github_account_from_option_or_answer (a : string) (g : gen) :
  let given := opt_value (opt_githubAccount (options g)) in
  let handed_on (g' : gen) (account : value) :=
    In ("electrode:git",
        [("name", get "name" (props g)); ("githubAccount", account)])
       (default g')
    /\ forall handed,
         In ("electrode:readme", handed) (default g') ->
         get "githubAccount" handed = account in
  if truthy given
  then exists g', askForGithubAccount a g = Ret g'
                  /\ log g' = log g /\ handed_on g' given
  else match githubUsername (get "authorEmail" (props g)) with
       | Throw e => askForGithubAccount a g = Throw e
       | Ret _ =>
           exists g', askForGithubAccount a g = Ret g'
                      /\ log g' = log g ++ [Prompted ["githubAccount"]]
                      /\ handed_on g' (VStr a)
       end.
Proof.
  intros given handed_on.
  unfold askForGithubAccount, Generator.askForGithubAccount.
  fold given. subst handed_on. cbv beta.
  destruct (truthy given);
    [ | destruct (githubUsername _); cbn [bind]; [ | reflexivity ] ];
    (eexists; split; [ reflexivity | ]; split; [ reflexivity | ]);
    match goal with
    | |- context [default ?g'] =>
        destruct (account_handed_on g') as [Hgit Hreadme];
        cbn [props with_props emit] in Hgit, Hreadme;
        rewrite get_set_same in Hgit, Hreadme;
        rewrite get_set_other in Hgit by discriminate;
        split; [ exact Hgit | exact Hreadme ]
    end.
Qed.

End Composition.

Lemma license_gated_by_starting_manifest_witness :
  exists g2,
    Ascii_instance.askForGithubAccount
      "ann"
      (Ascii_instance.askFor
         Ascii_instance.someone
         (Ascii_instance.initialized [] Ascii_instance.no_options))
    = Ret g2
    /\ In "license"%string (map fst (default g2)).
Proof.
  unfold Ascii_instance.askForGithubAccount, Ascii_instance.askFor.
  destruct (Generator.askForGithubAccount _ _ _) as [g2|e] eqn:Hg2;
    [ | vm_compute in Hg2; discriminate Hg2 ].
  exists g2. split; [ reflexivity | ].
  apply (proj2 (license_gated_by_starting_manifest
                  Ascii_instance.kebabCase Ascii_instance.deburr
                  Ascii_instance.path_resolve Ascii_instance.parseAuthor
                  Ascii_instance.githubUsername
                  Ascii_instance.someone "ann"
                  (Ascii_instance.fresh [] Ascii_instance.no_options)
                  (Ascii_instance.initialized [] Ascii_instance.no_options)
                  g2 (JObject []) [] eq_refl eq_refl eq_refl Hg2)).
  split; reflexivity.
Defined.

Lemma files_probed_in_final_directory_witness :
  exists g2,
    Ascii_instance.askForGithubAccount
      "ann"
      (Ascii_instance.askFor
         Ascii_instance.someone
         (Ascii_instance.initialized
            [("/work/README.md", FOther)] Ascii_instance.no_options))
    = Ret g2
    /\ In "electrode:readme"%string (map fst (default g2)).
Proof.
  unfold Ascii_instance.askForGithubAccount, Ascii_instance.askFor.
  destruct (Generator.askForGithubAccount _ _ _) as [g2|e] eqn:Hg2;
    [ | vm_compute in Hg2; discriminate Hg2 ].
  exists g2. split; [ reflexivity | ].
  apply (proj2 (files_probed_in_final_directory
                  Ascii_instance.kebabCase Ascii_instance.deburr
                  Ascii_instance.path_resolve Ascii_instance.parseAuthor
                  Ascii_instance.githubUsername
                  Ascii_instance.someone "ann"
                  (Ascii_instance.fresh [("/work/README.md", FOther)]
                                        Ascii_instance.no_options)
                  (Ascii_instance.initialized
                     [("/work/README.md", FOther)]
                     Ascii_instance.no_options)
                  g2 eq_refl Hg2 "electrode:readme" "README.md"
                  (or_introl eq_refl))%string).
  vm_compute. reflexivity.
Defined.

(** ** The closing message *)

Section Closing.

Variable kebabCase : value -> string.
Variable deburr : value -> string.
Variable path_resolve : string -> string.
Variable parseAuthor : string -> obj.
Variable path_join : string -> string -> string.
Variable render_package : bool -> bool -> value -> value -> obj.
Variable githubUsername : value -> outcome string.
Variable installDependencies : filesystem -> filesystem.
Variable spawnCommandSync : string -> list string -> filesystem -> filesystem.

Let initializing := Generator.initializing parseAuthor.
Let askFor := Generator.askFor kebabCase deburr path_resolve.
Let askForGithubAccount := Generator.askForGithubAccount githubUsername.
Let writing := Generator.writing kebabCase path_join render_package.
Let install := Generator.install installDependencies.
Let finish := Generator.finish kebabCase deburr spawnCommandSync.

(** The closing message goes with the relocation of [askFor].  When
    the questions asked for a new directory, the message tells to
    change to the kebab-case name, and the destination root at the end
    is what [path.resolve] gives for that name under the root the run
    started in; otherwise the message names no directory and the root
    is the one the run started in.  The message is the last effect. *)
Theorem closing_message_names_new_directory
        (u : user) (a : string) (g0 g1 g2 g3 : gen) :
  initializing g0 = Ret g1 ->
  askForGithubAccount a (askFor u g1) = Ret g2 ->
  writing g2 = Ret g3 ->
  let relocated := truthy (get "createDirectory" (props (askFor u g1))) in
  let directory :=
    kebabCase (VStr (deburr (get "name" (props (askFor u g1))))) in
  let chdir :=
    if relocated then ("'cd " ++ directory ++ "' then ")%string
    else ""%string in
  root (finish (install g3))
  = (if relocated then path_resolve (root g0 ++ "/" ++ directory)
     else root g0)
  /\ exists before,
      log (finish (install g3))
      = before
        ++ [Logged (nl ++ "Your new Electrode application is ready!" ++ nl
                       ++ nl ++ "Type " ++ chdir
                       ++ "'gulp dev' to start the server." ++ nl)].
Proof.
  intros Hi Hg2 Hw relocated directory chdir.
  destruct (writing_inv kebabCase path_join render_package _ _ Hw)
    as (cur & pkg' & _ & _ & Hr3 & _ & Hp3 & _).
  destruct (askForGithubAccount_frame githubUsername a _ g2 Hg2)
    as (_ & _ & _ & Hr2 & _ & Hp2).
  destruct (initializing_frame parseAuthor g0 g1 Hi) as (Hr0 & _).
  pose proof (askFor_root kebabCase deburr path_resolve u g1) as Hr1.
  fold askFor in Hr1, Hr2, Hp2. rewrite Hr0 in Hr1.
  fold relocated directory in Hr1.
  assert (Hn : get "name" (props g3) = get "name" (props (askFor u g1)))
    by (rewrite Hp3; apply Hp2; discriminate).
  assert (Hc : get "createDirectory" (props g3)
               = get "createDirectory" (props (askFor u g1)))
    by (rewrite Hp3; apply Hp2; discriminate).
  unfold finish, Generator.finish, install, Generator.install, spawn, slug.
  cbn [props with_fs emit].
  destruct (is_string single_quote (get "quoteType" (props g3)));
    cbn [root log props with_fs emit]; rewrite Hn, Hc, Hr3, Hr2, Hr1;
    (split; [ reflexivity | ]); eexists; reflexivity.
Qed.

End Closing.

Lemma closing_message_names_new_directory_witness :
  exists g2 g3,
    Ascii_instance.askForGithubAccount
      "ann"
      (Ascii_instance.askFor
         Ascii_instance.someone
         (Ascii_instance.initialized [] Ascii_instance.no_options))
    = Ret g2
    /\ Ascii_instance.writing g2 = Ret g3
    /\ root (Ascii_instance.finish (Ascii_instance.install g3))
       = "/work/my-cool-app"%string
    /\ exists before,
        log (Ascii_instance.finish (Ascii_instance.install g3))
        = before
          ++ [Logged (nl ++ "Your new Electrode application is ready!" ++ nl
                         ++ nl ++ "Type 'cd my-cool-app' then "
                         ++ "'gulp dev' to start the server." ++ nl)].
Proof.
  unfold Ascii_instance.askForGithubAccount, Ascii_instance.askFor,
    Ascii_instance.writing, Ascii_instance.finish, Ascii_instance.install.
  destruct (Generator.askForGithubAccount _ _ _) as [g2|e] eqn:Hg2;
    [ | vm_compute in Hg2; discriminate Hg2 ].
  destruct (Generator.writing
              Ascii_instance.kebabCase Ascii_instance.path_join
              Ascii_instance.render_package g2) as [g3|e] eqn:Hw;
    [ | vm_compute in Hg2; injection Hg2 as <-;
        vm_compute in Hw; discriminate Hw ].
  exists g2, g3. split; [ reflexivity | ]. split; [ exact Hw | ].
  pose proof (closing_message_names_new_directory
                Ascii_instance.kebabCase Ascii_instance.deburr
                Ascii_instance.path_resolve Ascii_instance.parseAuthor
                Ascii_instance.path_join Ascii_instance.render_package
                Ascii_instance.githubUsername
                Ascii_instance.installDependencies
                Ascii_instance.spawnCommandSync
                Ascii_instance.someone "ann"
                (Ascii_instance.fresh [] Ascii_instance.no_options)
                (Ascii_instance.initialized [] Ascii_instance.no_options)
                g2 g3 eq_refl Hg2 Hw) as H.
  cbv zeta in H. destruct H as (Hroot & before & Hlog).
  split; [ rewrite Hroot; vm_compute; reflexivity | ].
  exists before. rewrite Hlog. f_equal.
Defined.

Lemma github_account_from_option_or_answer_witness :
  Ascii_instance.askForGithubAccount
    "ann"
    (with_props (Ascii_instance.fresh [] Ascii_instance.no_options)
                [("authorEmail", VStr "ann.example.org")])
  = Throw (Failed "`email` required").
Proof.
  exact (github_account_from_option_or_answer
           Ascii_instance.githubUsername "ann"
           (with_props (Ascii_instance.fresh [] Ascii_instance.no_options)
                       [("authorEmail", VStr "ann.example.org")])).
Defined.

(** * The manifest written *)

(** ** Arrays under the defaults *)





Section Written_manifest.

Variable kebabCase : value -> string.
Variable path_join : string -> string -> string.

Let manifest := Generator.manifest kebabCase path_join.
Let generated_defaults := Generator.generated_defaults kebabCase path_join.

(** The manifest before the keywords are combined and the dependency
    groups sorted. *)
Let merged (g : gen) (currentPkg defaultPkg : obj) : obj :=
  merge (merge [] defaultPkg)
        (defaultsDeep (blank_falsy currentPkg) (generated_defaults g)).








End Written_manifest.






